(** * Contract review pipeline: OCR reassembly, clause extraction, status updates

  A shallow embedding of the document-processing scripts of the AI service
  ([process_document.ts], [extract_knowledge.ts]), of its server
  ([server.ts]) and of the routes of the client
  ([api/contracts/[id]/route.ts], [api/upload/route.ts]), with the
  properties of the specification, and further properties of the code,
  stated and proved over it.

  Strings are sequences of 8-bit characters read as the code units
  U+0000..U+00FF, so that [toLowerCase] and [trim] are the ECMAScript ones
  restricted to that range. *)

From Stdlib Require Import String Ascii ZArith NArith List Bool Lia.
From Stdlib Require Import DecimalString DecimalNat.
From stdpp Require Import base option list gmap strings.

(** ** ECMAScript strings *)

Module JsString.

Local Open Scope N_scope.

Definition LF : string := String "010"%char EmptyString.
(** The two-character separator written ['\n\n'] in the sources. *)
Definition LFLF : string := String "010"%char LF.
Definition SPACE : string := String " "%char EmptyString.

(** WhiteSpace and LineTerminator code points below U+0100:
    TAB, LF, VT, FF, CR, SP and NBSP. *)
Definition isWhiteSpace (c : ascii) : bool :=
  let n := N_of_ascii c in
  (n =? 9) || (n =? 10) || (n =? 11) || (n =? 12) || (n =? 13)
  || (n =? 32) || (n =? 160).

(** Simple case mapping below U+0100: A-Z, and the Latin-1 capitals
    U+00C0..U+00DE except the multiplication sign U+00D7. *)
Definition toLowerChar (c : ascii) : ascii :=
  let n := N_of_ascii c in
  if ((65 <=? n) && (n <=? 90))
     || ((192 <=? n) && (n <=? 222) && negb (n =? 215))
  then ascii_of_N (n + 32) else c.

Fixpoint toLowerCase (s : string) : string :=
  match s with
  | EmptyString => EmptyString
  | String c s' => String (toLowerChar c) (toLowerCase s')
  end.

Fixpoint trimStart (s : string) : string :=
  match s with
  | EmptyString => EmptyString
  | String c s' => if isWhiteSpace c then trimStart s' else s
  end.

Fixpoint trimEnd (s : string) : string :=
  match s with
  | EmptyString => EmptyString
  | String c s' =>
      match trimEnd s' with
      | EmptyString => if isWhiteSpace c then EmptyString
                       else String c EmptyString
      | r => String c r
      end
  end.

Definition trim (s : string) : string := trimEnd (trimStart s).

Definition isEmpty (s : string) : bool :=
  match s with EmptyString => true | _ => false end.

(** [s.startsWith(p)] *)
Definition startsWith (s p : string) : bool := String.prefix p s.

(** [s.includes(needle)] *)
Fixpoint includes (s needle : string) : bool :=
  String.prefix needle s ||
  match s with
  | EmptyString => false
  | String _ s' => includes s' needle
  end.

(** [s.endsWith(suffix)] *)
Fixpoint endsWith (s suffix : string) : bool :=
  String.eqb s suffix ||
  match s with
  | EmptyString => false
  | String _ s' => endsWith s' suffix
  end.

(** [s.substring(0, n)] *)
Fixpoint substringTo (n : nat) (s : string) : string :=
  match n, s with
  | S k, String c s' => String c (substringTo k s')
  | _, _ => EmptyString
  end.

(** [s.substring(n)] *)
Fixpoint substringFrom (n : nat) (s : string) : string :=
  match n, s with
  | S k, String _ s' => substringFrom k s'
  | _, _ => s
  end.

(** [s.split(sep)] for a non-empty separator: the pieces between the
    occurrences of [sep] found scanning left to right, an occurrence
    starting only after the previous one has ended.  [cur] is the piece
    being read, [skip] the number of separator characters still to pass. *)
Fixpoint split_go (sep s cur : string) (skip : nat) : list string :=
  match s with
  | EmptyString => [cur]
  | String c s' =>
      match skip with
      | S k => split_go sep s' cur k
      | O =>
          if String.prefix sep s
          then cur :: split_go sep s' EmptyString (String.length sep - 1)
          else split_go sep s' (cur +:+ String c EmptyString) 0
      end
  end.

Definition split (s sep : string) : list string :=
  split_go sep s EmptyString 0.

(** [parts.join(sep)] *)
Fixpoint join (sep : string) (parts : list string) : string :=
  match parts with
  | [] => EmptyString
  | [p] => p
  | p :: ps => p +:+ sep +:+ join sep ps
  end.

(** The single-character strings a [for ... of] over a string yields. *)
Fixpoint chars (s : string) : list string :=
  match s with
  | EmptyString => []
  | String c s' => String c EmptyString :: chars s'
  end.

(** [s || d] on strings: the empty string is the only falsy one. *)
Definition orElse (s d : string) : string := if isEmpty s then d else s.

End JsString.

Import JsString.

(** A string made of white space only: what [trim] reduces to nothing. *)
Fixpoint blank (s : string) : bool :=
  match s with
  | EmptyString => true
  | String c s' => isWhiteSpace c && blank s'
  end.

(** ** ECMAScript values, as [JSON.parse] produces them

    Numbers are the integers of magnitude below 10^21, which print in plain
    decimal; [JUndefined] is what reading a missing property gives.  An
    object is its list of own properties, the first entry for a key being
    the one in force. *)

#[local] Set Warnings "-register-all".

Inductive JsValue : Type :=
| JUndefined
| JNull
| JBool (b : bool)
| JNum (n : Z)
| JStr (s : string)
| JArr (items : list JsValue)
| JObj (fields : list (string * JsValue)).

(** Exceptions raised by the runtime or by the external services. *)
Inductive Exn : Type :=
| TypeError
| SyntaxError
| Error (message : string).

(** How a statement ends: normally, by an exception, or by [process.exit]. *)
Inductive Outcome (A : Type) : Type :=
| Normal (a : A)
| Throw (e : Exn)
| Exit (code : Z).

Arguments Normal {A} a.
Arguments Throw {A} e.
Arguments Exit {A} code.

(** A statement over mutable state [S]: the outcome and the state left. *)
Definition Prog (S A : Type) : Type := S -> Outcome A * S.

Definition prog_ret {S A} (a : A) : Prog S A := fun st => (Normal a, st).

Definition prog_bind {S A B} (k : A -> Prog S B) (c : Prog S A) : Prog S B :=
  fun st =>
    match c st with
    | (Normal a, st') => k a st'
    | (Throw e, st') => (Throw e, st')
    | (Exit n, st') => (Exit n, st')
    end.

#[global] Instance prog_mret {S} : MRet (Prog S) := @prog_ret S.
#[global] Instance prog_mbind {S} : MBind (Prog S) := @prog_bind S.

Definition throw {S A} (e : Exn) : Prog S A := fun st => (Throw e, st).

Definition process_exit {S A} (code : Z) : Prog S A := fun st => (Exit code, st).

(** [try { body } catch (e) { handler e }]: only exceptions are caught. *)
Definition try_catch {S A} (body : Prog S A) (handler : Exn -> Prog S A)
  : Prog S A :=
  fun st =>
    match body st with
    | (Throw e, st') => handler e st'
    | r => r
    end.

Definition modify {S} (f : S -> S) : Prog S unit := fun st => (Normal tt, f st).

(** [for (const x of xs) { body x }] *)
Fixpoint for_of {S X} (xs : list X) (body : X -> Prog S unit) : Prog S unit :=
  match xs with
  | [] => mret tt
  | x :: xs' => body x ;; for_of xs' body
  end.

(** [if (c) { body }] *)
Definition when {S} (c : bool) (body : Prog S unit) : Prog S unit :=
  if c then body else mret tt.

(** Lifting of a runtime operation that may raise. *)
Definition lift {S A} (r : Exn + A) : Prog S A :=
  match r with
  | inl e => throw e
  | inr a => mret a
  end.

(** ToBoolean *)
Definition truthy (v : JsValue) : bool :=
  match v with
  | JUndefined | JNull => false
  | JBool b => b
  | JNum n => negb (n =? 0)%Z
  | JStr s => negb (isEmpty s)
  | JArr _ | JObj _ => true
  end.

(** [a || b] *)
Definition js_or (a b : JsValue) : JsValue := if truthy a then a else b.

(** The value of a field that is copied only [if (v)]. *)
Definition truthyField (v : JsValue) : option JsValue :=
  if truthy v then Some v else None.

Fixpoint assoc (key : string) (fields : list (string * JsValue))
  : option JsValue :=
  match fields with
  | [] => None
  | (k, v) :: rest => if String.eqb k key then Some v else assoc key rest
  end.

(** Canonical numeric property key of an index. *)
Definition indexKey (i : nat) : string :=
  NilZero.string_of_uint (Nat.to_uint i).

(** [v.name] for the property names the sources read, none of which lives
    on a prototype: an own property or [undefined]; reading a property of
    [null] or [undefined] raises TypeError. *)
Definition getProp (v : JsValue) (name : string) : Exn + JsValue :=
  match v with
  | JUndefined | JNull => inl TypeError
  | JBool _ | JNum _ => inr JUndefined
  | JStr s =>
      inr (if String.eqb name "length"
           then JNum (Z.of_nat (String.length s))
           else JUndefined)
  | JArr items =>
      inr (if String.eqb name "length"
           then JNum (Z.of_nat (List.length items))
           else JUndefined)
  | JObj fields => inr (default JUndefined (assoc name fields))
  end.

(** [v[i]] for a non-negative integer [i]. *)
Definition getIndex (v : JsValue) (i : nat) : Exn + JsValue :=
  match v with
  | JUndefined | JNull => inl TypeError
  | JBool _ | JNum _ => inr JUndefined
  | JStr s => inr (default JUndefined (JStr <$> (chars s !! i)))
  | JArr items => inr (default JUndefined (items !! i))
  | JObj fields => inr (default JUndefined (assoc (indexKey i) fields))
  end.

(** The values a [for ... of] runs over: the elements of an array, the
    characters of a string; anything else is not iterable. *)
Definition iterate (v : JsValue) : Exn + list JsValue :=
  match v with
  | JArr items => inr items
  | JStr s => inr (JStr <$> chars s)
  | _ => inl TypeError
  end.

(** ToString, as applied by [+] with a string operand.  An array prints as
    its elements joined by commas, [null] and [undefined] elements as
    nothing; a plain object prints as [[object Object]] unless an own
    property named [toString] shadows the inherited method, in which case
    no conversion exists and TypeError is raised. *)
Fixpoint ToString (v : JsValue) : Exn + string :=
  match v with
  | JUndefined => inr "undefined"
  | JNull => inr "null"
  | JBool b => inr (if b then "true" else "false")
  | JNum n => inr (NilZero.string_of_int (Z.to_int n))
  | JStr s => inr s
  | JArr items =>
      match
        (fix elems (l : list JsValue) : Exn + list string :=
           match l with
           | [] => inr []
           | x :: l' =>
               match (match x with
                      | JUndefined | JNull => inr EmptyString
                      | _ => ToString x
                      end) with
               | inl e => inl e
               | inr s =>
                   match elems l' with
                   | inl e => inl e
                   | inr ss => inr (s :: ss)
                   end
               end
           end) items
      with
      | inl e => inl e
      | inr ss => inr (join "," ss)
      end
  | JObj fields =>
      match assoc "toString" fields with
      | Some _ => inl TypeError
      | None => inr "[object Object]"
      end
  end.

(** ** The world outside the scripts *)

(** An object listed in the bucket: its name and what [download()] gives,
    [None] when the download fails. *)
Record GcsFile : Type := {
  name : string;
  download : option string
}.

(** Answer of the chat-completion service: the call (or the reading of
    [choices[0].message]) raises, or [message.content] is obtained, [None]
    standing for [null]. *)
Inductive Completion : Type :=
| CompletionFails
| CompletionContent (content : option string).

(** The local files [extractKnowledge] touches, in the order it does. *)
Inductive FsStep : Type :=
| PrepareOutputDir
| WriteCombinedText
| WriteIndemnificationClause
| WriteTerminationClause.

Record World : Type := {
  (** [JSON.parse]: [None] when it raises SyntaxError. *)
  JSON_parse : string -> option JsValue;
  (** [i < s] for a string [s], that is [i < Number(s)]. *)
  lessThanNumberOf : nat -> string -> bool;
  (** [process.env.GCS_BUCKET_NAME] *)
  GCS_BUCKET_NAME : option string;
  (** The asynchronous annotation of a source into an output prefix runs
      to completion. *)
  vision_ocr : string -> string -> bool;
  (** [storage.bucket(b).getFiles({prefix})], [None] when it raises. *)
  storage_getFiles : string -> string -> option (list GcsFile);
  fs_ok : FsStep -> bool;
  (** The completion obtained for a contract text placed in the prompt. *)
  openai_complete : string -> Completion;
  (** Whether the n-th PUT issued in the run is answered with success. *)
  axios_put_ok : nat -> bool
}.

(** The pair of clauses an extractor returns. *)
Record Clauses (A : Type) : Type := {
  indemnificationText : A;
  terminationText : A
}.

Arguments indemnificationText {A} c.
Arguments terminationText {A} c.

(** Body of a PUT to [/api/contracts/:id]. *)
Record Payload : Type := {
  payload_status : string;
  payload_indemnificationText : option JsValue;
  payload_terminationText : option JsValue
}.

(** An update that sets the status only. *)
Definition statusOnly (status : string) : Payload :=
  {| payload_status := status;
     payload_indemnificationText := None;
     payload_terminationText := None |}.

(** The body [updateContractStatus] builds: the status, and each clause
    that is provided and truthy. *)
Definition payloadOf (status : string) (clauses : option (Clauses JsValue))
  : Payload :=
  match clauses with
  | Some c =>
      {| payload_status := status;
         payload_indemnificationText := truthyField (indemnificationText c);
         payload_terminationText := truthyField (terminationText c) |}
  | None => statusOnly status
  end.

Inductive LogLine : Type :=
| StatusUpdateFailed
| OcrJsonError
| AiResponseNotJson
| AiError
| NoTextInShard (file : string)
| ShardParseError (file : string)
| ExtractionError
| ProcessingError
| ExtractionExitCode (code : Z)
| UsageError.

(** What a run does to the outside, in order: the update requests with
    their answers, the lines written by [console.error] and
    [console.warn], and the local files written.  The informational
    [console.log] lines are left out. *)
Inductive Event : Type :=
| EvPut (contractId : string) (payload : Payload) (ok : bool)
| EvConsole (line : LogLine)
| EvWriteFile (step : FsStep) (data : JsValue).

Definition Trace : Type := list Event.

Definition isPut (e : Event) : bool :=
  match e with EvPut _ _ _ => true | _ => false end.

Definition emit (e : Event) : Prog Trace unit := modify (fun tr => tr ++ [e]).

(** [console.error] and [console.warn] *)
Definition console_error (line : LogLine) : Prog Trace unit :=
  emit (EvConsole line).

(** [await axios.put(url, payload)]: raises unless answered with success. *)
Definition axios_put (w : World) (contractId : string) (payload : Payload)
  : Prog Trace unit :=
  fun tr =>
    let ok := axios_put_ok w (List.length (List.filter isPut tr)) in
    ((if ok then Normal tt else Throw (Error "Request failed")),
     tr ++ [EvPut contractId payload ok]).

Definition bucketName (w : World) : string :=
  match GCS_BUCKET_NAME w with
  | Some b => if isEmpty b then "fb_dioptra_process" else b
  | None => "fb_dioptra_process"
  end.

Definition NO_INDEMNIFICATION : string := "No indemnification clause found.".
Definition NO_TERMINATION : string :=
  "No termination for convenience clause found.".

(** ** [extract_knowledge.ts] *)

Module ExtractKnowledge.

(** [parseGsUri] *)
Definition parseGsUri (uri : string) : Exn + (string * string) :=
  if negb (startsWith uri "gs://")
  then inl (Error "Invalid Google Storage URI. Must start with gs://")
  else
    let parts := split (substringFrom 5 uri) "/" in
    inr (default EmptyString (head parts), join "/" (tail parts)).

(** [extractedText += s] *)
Definition append (s : string) : Prog string unit :=
  modify (fun extractedText => extractedText +:+ s).

(** [extractedText += v + suffix], the value converted as [+] does. *)
Definition appendValue (v : JsValue) (suffix : string) : Prog string unit :=
  s ← lift (ToString v); append (s +:+ suffix).

Definition isArray (v : JsValue) : bool :=
  match v with JArr _ => true | _ => false end.

Definition items (v : JsValue) : list JsValue :=
  match v with JArr l => l | _ => [] end.

(** [i < v] for the loop counter [i]: the operand is converted to a number,
    [undefined] and unprintable text to NaN, under which every comparison
    is false. *)
Definition lessThan (w : World) (i : nat) (v : JsValue) : Exn + bool :=
  match v with
  | JUndefined | JNull => inr false
  | JBool b => inr (b && Nat.eqb i 0)
  | JNum n => inr (Z.of_nat i <? n)%Z
  | JStr s => inr (lessThanNumberOf w i s)
  | JArr _ => sum_map id (lessThanNumberOf w i) (ToString v)
  | JObj _ => sum_map id (fun _ => false) (ToString v)
  end.

(** The direct method: lines 206-213. *)
Definition directResponse (response : JsValue) : Prog string unit :=
  fullTextAnnotation ← lift (getProp response "fullTextAnnotation");
  if truthy fullTextAnnotation then
    text ← lift (getProp fullTextAnnotation "text");
    when (truthy text) (appendValue text LFLF)
  else mret tt.

Definition directPath (jsonContent : JsValue) : Prog string unit :=
  responses ← lift (getProp jsonContent "responses");
  when (truthy responses && isArray responses)
    (for_of (items responses) directResponse).

Definition walkSymbol (symbol : JsValue) : Prog string unit :=
  text ← lift (getProp symbol "text");
  appendValue (js_or text (JStr EmptyString)) EmptyString.

Definition walkWord (word : JsValue) : Prog string unit :=
  symbols ← lift (getProp word "symbols");
  when (truthy symbols)
    (ss ← lift (iterate symbols);
     for_of ss walkSymbol;;
     append SPACE).

Definition walkParagraph (paragraph : JsValue) : Prog string unit :=
  words ← lift (getProp paragraph "words");
  when (truthy words)
    (ws ← lift (iterate words);
     for_of ws walkWord);;
  append LF.

Definition walkBlock (block : JsValue) : Prog string unit :=
  paragraphs ← lift (getProp block "paragraphs");
  when (truthy paragraphs)
    (ps ← lift (iterate paragraphs);
     for_of ps walkParagraph).

Definition walkPage (page : JsValue) : Prog string unit :=
  blocks ← lift (getProp page "blocks");
  when (truthy blocks)
    (bs ← lift (iterate blocks);
     for_of bs walkBlock;;
     append LFLF).

(** [for (let pageIndex = 0; pageIndex < pages.length; pageIndex++)],
    from [pageIndex] on, for at most [fuel] tests of the loop condition.
    With [pagesFuel pages] the fuel never runs out
    ([pagesLoop_fuel_sufficient]). *)
Fixpoint pagesLoop (w : World) (fuel : nat) (pages : JsValue) (pageIndex : nat)
  : Prog string unit :=
  match fuel with
  | O => mret tt
  | S fuel' =>
      len ← lift (getProp pages "length");
      continue ← lift (lessThan w pageIndex len);
      if continue : bool then
        page ← lift (getIndex pages pageIndex);
        walkPage page;;
        pagesLoop w fuel' pages (S pageIndex)
      else mret tt
  end.

(** A number of tests no run of the loop over [pages] exceeds: an index is
    passed only if it is below the length of an array or of a string, or
    names an own property of an object. *)
Definition pagesFuel (pages : JsValue) : nat :=
  match pages with
  | JArr l => S (List.length l)
  | JStr s => S (String.length s)
  | JObj fields => S (List.length fields)
  | _ => 1
  end.

(** How many indices from [i] on the loop over [pages] can still pass: the
    elements left of an array or a string, the own properties of an object
    not named by an index below [i]. *)
Definition pagesAhead (pages : JsValue) (i : nat) : nat :=
  match pages with
  | JArr l => List.length l - i
  | JStr s => String.length s - i
  | JObj fields =>
      List.length
        (List.filter
           (fun field =>
              negb (existsb (String.eqb (fst field)) (indexKey <$> seq 0 i)))
           fields)
  | _ => 0
  end.

(** The detailed structure: lines 215-256. *)
Definition structuralWalk (w : World) (jsonContent : JsValue)
  : Prog string unit :=
  fun extractedText =>
    (if isEmpty extractedText then
       responses ← lift (getProp jsonContent "responses");
       if truthy responses then
         first ← lift (getIndex responses 0);
         if truthy first then
           fullTextAnnotation ← lift (getProp first "fullTextAnnotation");
           if truthy fullTextAnnotation then
             pages ← lift (getProp fullTextAnnotation "pages");
             if truthy pages then pagesLoop w (pagesFuel pages) pages 0
             else mret tt
           else mret tt
         else mret tt
       else mret tt
     else mret tt) extractedText.

(** The [try] block of [extractTextFromOcrJson]. *)
Definition extractTextFromOcrJson_try (w : World) (jsonContent : JsValue)
  : Prog string unit :=
  directPath jsonContent;;
  structuralWalk w jsonContent.

(** [extractTextFromOcrJson]: whatever was accumulated when the [try]
    block ended, normally or not, is returned trimmed. *)
Definition extractTextFromOcrJson (w : World) (jsonContent : JsValue)
  : Prog Trace string :=
  match extractTextFromOcrJson_try w jsonContent EmptyString with
  | (Throw _, extractedText) =>
      console_error OcrJsonError;; mret (trim extractedText)
  | (_, extractedText) => mret (trim extractedText)
  end.

(** The tests of lines 361-366 and 371-374, on the lower-cased
    paragraph. *)
Definition mentionsIndemnification (lowerParagraph : string) : bool :=
  includes lowerParagraph "indemnif"
  || includes lowerParagraph "liability"
  || includes lowerParagraph "data breach"
  || includes lowerParagraph "security breach".

Definition mentionsTermination (lowerParagraph : string) : bool :=
  includes lowerParagraph "terminat"
  && (includes lowerParagraph "convenience"
      || includes lowerParagraph "at will").

(** The body of the loop over the paragraphs, both buffers carried
    along. *)
Definition keywordStep (buffers : string * string) (paragraph : string)
  : string * string :=
  let lowerParagraph := toLowerCase paragraph in
  let indemnification :=
    if mentionsIndemnification lowerParagraph
    then fst buffers +:+ paragraph +:+ LFLF else fst buffers in
  let termination :=
    if mentionsTermination lowerParagraph
    then snd buffers +:+ paragraph +:+ LFLF else snd buffers in
  (indemnification, termination).

Definition keywordBuffers (text : string) : string * string :=
  fold_left keywordStep (split text LFLF) (EmptyString, EmptyString).

(** [extractClausesWithKeywords] *)
Definition extractClausesWithKeywords (text : string) : Clauses string :=
  let buffers := keywordBuffers text in
  {| indemnificationText := orElse (trim (fst buffers)) NO_INDEMNIFICATION;
     terminationText := orElse (trim (snd buffers)) NO_TERMINATION |}.

Definition asValues (c : Clauses string) : Clauses JsValue :=
  {| indemnificationText := JStr (indemnificationText c);
     terminationText := JStr (terminationText c) |}.

(** [JSON.parse(s)] as an operation that may raise. *)
Definition parseJson (w : World) (s : string) : Exn + JsValue :=
  match JSON_parse w s with
  | Some v => inr v
  | None => inl SyntaxError
  end.

(** The longest prefix that ends with a closing brace. *)
Fixpoint upToLastBrace (s : string) : option string :=
  match s with
  | EmptyString => None
  | String c s' =>
      match upToLastBrace s' with
      | Some r => Some (String c r)
      | None => if Ascii.eqb c "}" then Some (String c EmptyString) else None
      end
  end.

(** [responseContent.match(/\{[\s\S]*\}/)]: from the first opening brace
    to the last closing brace after it. *)
Fixpoint matchJsonObject (s : string) : option string :=
  match s with
  | EmptyString => None
  | String c s' =>
      if Ascii.eqb c "{" then String c <$> upToLastBrace s'
      else matchJsonObject s'
  end.

(** Lines 313-322: the matched text is parsed when there is a match, the
    whole response otherwise. *)
Definition parseAiResponse (w : World) (responseContent : string)
  : Exn + JsValue :=
  match matchJsonObject responseContent with
  | Some jsonMatch => parseJson w jsonMatch
  | None => parseJson w responseContent
  end.

(** The object returned at lines 324-329: each field read from the parsed
    response, or its own sentinel. *)
Definition fromParsed (indemnification termination : JsValue)
  : Clauses JsValue :=
  {| indemnificationText := js_or indemnification (JStr NO_INDEMNIFICATION);
     terminationText := js_or termination (JStr NO_TERMINATION) |}.

Definition PROMPT_LIMIT : nat := N.to_nat 15000.

(** [extractClausesWithAI].  The prompt is a fixed text around
    [text.substring(0, 15000)], which is what the completion depends on. *)
Definition extractClausesWithAI (w : World) (text : string)
  : Prog Trace (Clauses JsValue) :=
  try_catch
    (match openai_complete w (substringTo PROMPT_LIMIT text) with
     | CompletionFails => throw (Error "chat completion failed")
     | CompletionContent content =>
         match content with
         | None | Some EmptyString =>
             throw (Error "Empty response from AI service")
         | Some responseContent =>
             try_catch
               (parsedResponse ← lift (parseAiResponse w responseContent);
                indemnification ←
                  lift (getProp parsedResponse "indemnificationText");
                termination ←
                  lift (getProp parsedResponse "terminationText");
                mret (fromParsed indemnification termination))
               (fun parseError =>
                  console_error AiResponseNotJson;;
                  mret (asValues (extractClausesWithKeywords text)))
         end
     end)
    (fun error =>
       console_error AiError;;
       mret (asValues (extractClausesWithKeywords text))).

(** [updateContractStatus(contractId, status, clauses?)] *)
Definition updateContractStatus (w : World) (contractId status : string)
    (clauses : option (Clauses JsValue)) : Prog Trace unit :=
  try_catch
    (let payload := payloadOf status clauses in
     axios_put w contractId payload)
    (fun error => console_error StatusUpdateFailed).

(** A local file operation, which may fail. *)
Definition fs_step (w : World) (step : FsStep) : Prog Trace unit :=
  if fs_ok w step then mret tt else throw (Error "file system").

(** [fs.writeFileSync(path, data)] *)
Definition fs_writeFileSync (w : World) (step : FsStep) (data : JsValue)
  : Prog Trace unit :=
  fs_step w step;; emit (EvWriteFile step data).

(** Lines 443-471: the loop over the listed files, [combinedText] carried
    along. *)
Fixpoint combineShards (w : World) (files : list GcsFile)
    (combinedText : string) : Prog Trace string :=
  match files with
  | [] => mret combinedText
  | file :: rest =>
      if negb (endsWith (name file) ".json")
      then combineShards w rest combinedText
      else
        content ←
          match download file with
          | Some content => mret content
          | None => throw (Error "download failed")
          end;
        combinedText' ←
          try_catch
            (jsonContent ← lift (parseJson w content);
             extractedText ← extractTextFromOcrJson w jsonContent;
             if isEmpty extractedText
             then console_error (NoTextInShard (name file));;
                  mret combinedText
             else mret (combinedText +:+ extractedText +:+ LFLF))
            (fun parseError =>
               console_error (ShardParseError (name file));;
               mret combinedText);
        combineShards w rest combinedText'
  end.

(** The [catch] block of [extractKnowledge]. *)
Definition onExtractionError (w : World) (id : string) (error : Exn)
  : Prog Trace unit :=
  console_error ExtractionError;;
  updateContractStatus w id "failed" None;;
  process_exit 1.

(** [extractKnowledge(gsUri, id)] *)
Definition extractKnowledge (w : World) (gsUri id : string)
  : Prog Trace unit :=
  try_catch
    (updateContractStatus w id "extracting" None;;
     '(bucket, sourcePath) ← lift (parseGsUri gsUri);
     files ←
       match storage_getFiles w bucket sourcePath with
       | Some files => mret files
       | None => throw (Error "listing failed")
       end;
     combinedText ← combineShards w files EmptyString;
     fs_step w PrepareOutputDir;;
     fs_writeFileSync w WriteCombinedText (JStr combinedText);;
     clauses ← extractClausesWithAI w combinedText;
     fs_writeFileSync w WriteIndemnificationClause
       (indemnificationText clauses);;
     fs_writeFileSync w WriteTerminationClause (terminationText clauses);;
     updateContractStatus w id "completed" (Some clauses))
    (onExtractionError w id).

(** The script run directly: [args = process.argv.slice(2)]. *)
Definition script (w : World) (args : list string) : Prog Trace unit :=
  match args with
  | id :: gsUri :: _ =>
      try_catch (extractKnowledge w gsUri id)
        (fun error => process_exit 1)
  | _ => console_error UsageError;; process_exit 1
  end.

End ExtractKnowledge.

(** ** [process_document.ts] *)

Module ProcessDocument.

(** [updateContractStatus(contractId, status)] *)
Definition updateContractStatus (w : World) (contractId status : string)
  : Prog Trace unit :=
  try_catch
    (axios_put w contractId (statusOnly status))
    (fun error => console_error StatusUpdateFailed).

Definition outputUri (w : World) (contractId : string) : string :=
  "gs://" +:+ bucketName w +:+ "/output/" +:+ contractId +:+ "/".

(** [extractTextFromPDF]: the OCR request is submitted and awaited. *)
Definition extractTextFromPDF (w : World) (gcsUri contractId : string)
  : Prog Trace string :=
  let gcsOutputUri := outputUri w contractId in
  if vision_ocr w gcsUri gcsOutputUri
  then mret ("Text extraction complete. Results stored in: " +:+ gcsOutputUri)
  else throw (Error "OCR failed").

(** [runExtractKnowledge]: the extraction script is run as a child process
    and its exit code awaited; an exception escaping the child ends it with
    a non-zero code. *)
Definition runExtractKnowledge (w : World) (id gcsUri : string)
  : Prog Trace unit :=
  fun tr =>
    match ExtractKnowledge.script w [id; gcsUri] tr with
    | (Normal _, tr') => (Normal tt, tr')
    | (Exit code, tr') =>
        if (code =? 0)%Z then (Normal tt, tr')
        else (console_error (ExtractionExitCode code);;
              throw (Error "Knowledge extraction failed")) tr'
    | (Throw _, tr') =>
        (console_error (ExtractionExitCode 1);;
         throw (Error "Knowledge extraction failed")) tr'
    end.

(** The [catch] block of [main]. *)
Definition onProcessingError (w : World) (id : string) (err : Exn)
  : Prog Trace unit :=
  console_error ProcessingError;;
  updateContractStatus w id "failed".

(** [main], with [process.argv] as its argument. *)
Definition main (w : World) (argv : list string) : Prog Trace unit :=
  match argv !! 2, argv !! 3 with
  | Some id, Some gcsUri =>
      if isEmpty id || isEmpty gcsUri
      then console_error UsageError;; process_exit 1
      else
        try_catch
          (updateContractStatus w id "processing";;
           resultMessage ← extractTextFromPDF w gcsUri id;
           runExtractKnowledge w id (outputUri w id))
          (onProcessingError w id)
  | _, _ => console_error UsageError;; process_exit 1
  end.

End ProcessDocument.

(** ** [api/contracts/[id]/route.ts] *)

Module ContractsRoute.

(** The [ContractStatus] enumeration of the schema. *)
Inductive ContractStatus : Type :=
| pending
| processing
| extracting
| completed
| failed.

(** The [Contract] model of the schema. *)
Record Contract : Type := {
  id : string;
  fileName : string;
  uploadedAt : Z;
  indemnificationText : option string;
  terminationText : option string;
  status : ContractStatus;
  progress : Z
}.

Definition statusOfString (s : string) : option ContractStatus :=
  if String.eqb s "pending" then Some pending
  else if String.eqb s "processing" then Some processing
  else if String.eqb s "extracting" then Some extracting
  else if String.eqb s "completed" then Some completed
  else if String.eqb s "failed" then Some failed
  else None.

(** The [updateData] object the handler builds. *)
Record UpdateData : Type := {
  data_status : JsValue;
  data_indemnificationText : option JsValue;
  data_terminationText : option JsValue
}.

Inductive PrismaError : Type :=
| ValidationError
| RecordNotFound
| ConnectionError.

(** The record store: [db_available] tells whether it can be reached. *)
Record Store : Type := {
  contracts : gmap string Contract;
  db_available : bool
}.

(** What a provided value does to a nullable text column of the schema;
    [None] when the value is of no type the column takes. *)
Definition clauseUpdate (v : option JsValue)
  : option (option string -> option string) :=
  match v with
  | None => Some (fun old => old)
  | Some (JStr s) => Some (fun _ => Some s)
  | Some JNull => Some (fun _ => None)
  | Some _ => None
  end.

(** Modelled from the spec: the record store's
    [update(id, {status, indemnificationText?, terminationText?})] of
    section 6, which fails with NotFound when the id is absent, called
    here as [prisma.contract.update({ where: { id }, data })] and read
    over the [Contract] model of the schema: the status is one of the
    enumeration, a clause column takes a string or null, data of any
    other type are refused, and only then is the record looked up and
    rewritten. *)
Definition prisma_contract_update (st : Store) (contractId : string)
    (data : UpdateData) : (PrismaError + Contract) * Store :=
  match data_status data with
  | JStr s =>
      match statusOfString s,
            clauseUpdate (data_indemnificationText data),
            clauseUpdate (data_terminationText data) with
      | Some newStatus, Some setIndemnification, Some setTermination =>
          if db_available st then
            match contracts st !! contractId with
            | Some c =>
                let c' :=
                  {| id := id c;
                     fileName := fileName c;
                     uploadedAt := uploadedAt c;
                     indemnificationText :=
                       setIndemnification (indemnificationText c);
                     terminationText := setTermination (terminationText c);
                     status := newStatus;
                     progress := progress c |} in
                (inr c',
                 {| contracts := <[contractId := c']> (contracts st);
                    db_available := db_available st |})
            | None => (inl RecordNotFound, st)
            end
          else (inl ConnectionError, st)
      | _, _, _ => (inl ValidationError, st)
      end
  | _ => (inl ValidationError, st)
  end.

Inductive Response : Type :=
| Json (httpStatus : Z) (body : option Contract).

Definition httpStatus (r : Response) : Z :=
  match r with Json code _ => code end.

(** [PUT], with [body] what [request.json()] gives, [None] when the
    request body is not JSON and the call raises. *)
Definition PUT (st : Store) (contractId : string) (body : option JsValue)
  : Response * Store :=
  match body with
  | None => (Json 500 None, st)
  | Some data =>
      match getProp data "status" with
      | inl _ => (Json 500 None, st)
      | inr dataStatus =>
          if negb (truthy dataStatus) then (Json 400 None, st)
          else
            match getProp data "indemnificationText",
                  getProp data "terminationText" with
            | inr indemnification, inr termination =>
                let updateData :=
                  {| data_status := dataStatus;
                     data_indemnificationText := truthyField indemnification;
                     data_terminationText := truthyField termination |} in
                match prisma_contract_update st contractId updateData with
                | (inr updatedContract, st') =>
                    (Json 200 (Some updatedContract), st')
                | (inl RecordNotFound, st') => (Json 404 None, st')
                | (inl _, st') => (Json 500 None, st')
                end
            | _, _ => (Json 500 None, st)
            end
      end
  end.

(** [prisma.contract.findUnique({ where: { id } })]: the record, [None]
    for [null] when there is none. *)
Definition prisma_contract_findUnique (st : Store) (contractId : string)
  : PrismaError + option Contract :=
  if db_available st then inr (contracts st !! contractId)
  else inl ConnectionError.

(** [GET] *)
Definition GET (st : Store) (contractId : string) : Response :=
  match prisma_contract_findUnique st contractId with
  | inr (Some contract) => Json 200 (Some contract)
  | inr None => Json 404 None
  | inl _ => Json 500 None
  end.

(** The request body axios sends for a payload: the fields that are set. *)
Definition payloadJson (p : Payload) : JsValue :=
  JObj (("status", JStr (payload_status p))
        :: match payload_indemnificationText p with
           | Some v => [("indemnificationText", v)]
           | None => []
           end
        ++ match payload_terminationText p with
           | Some v => [("terminationText", v)]
           | None => []
           end).

(** Both stored clauses of every record are the same in two stores. *)
Definition sameClauses (st st' : Store) : Prop :=
  forall key c,
    contracts st !! key = Some c ->
    exists c',
      contracts st' !! key = Some c'
      /\ indemnificationText c' = indemnificationText c
      /\ terminationText c' = terminationText c.


End ContractsRoute.

(** Each text followed by a blank-line separator. *)
Fixpoint buffer (texts : list string) : string :=
  match texts with
  | [] => EmptyString
  | p :: ps => p +:+ LFLF +:+ buffer ps
  end.

(** ** The keyword extractor as the specification words it *)

Module KeywordSpec.

(** A paragraph holds a term when its lower-cased text includes it. *)
Definition holds (paragraph term : string) : bool :=
  includes (toLowerCase paragraph) term.

Definition indemnificationParagraph (paragraph : string) : bool :=
  existsb (holds paragraph)
    ["indemnif"; "liability"; "data breach"; "security breach"].

Definition terminationParagraph (paragraph : string) : bool :=
  holds paragraph "terminat"
  && existsb (holds paragraph) ["convenience"; "at will"].

Definition paragraphs (text : string) : list string := split text LFLF.

Definition indemnificationBuffer (text : string) : string :=
  buffer (List.filter indemnificationParagraph (paragraphs text)).

Definition terminationBuffer (text : string) : string :=
  buffer (List.filter terminationParagraph (paragraphs text)).

End KeywordSpec.

(** ** A reference runtime for concrete runs

    A reader for the JSON grammar, used where a property is evaluated on a
    concrete document.  It covers integer numbers and characters below
    U+0100; a text outside that range is given no value here.  The
    properties themselves are stated for every [JSON_parse]. *)

Module RefJson.

Definition DQUOTE : ascii := "034"%char.
Definition BACKSLASH : ascii := "092"%char.

Definition isJsonSpace (c : ascii) : bool :=
  let n := nat_of_ascii c in
  Nat.eqb n 32 || Nat.eqb n 9 || Nat.eqb n 10 || Nat.eqb n 13.

Fixpoint skipSpace (s : string) : string :=
  match s with
  | String c s' => if isJsonSpace c then skipSpace s' else s
  | EmptyString => s
  end.

Definition digitOf (c : ascii) : option Z :=
  let n := nat_of_ascii c in
  if Nat.leb 48 n && Nat.leb n 57 then Some (Z.of_nat (n - 48)) else None.

Definition hexOf (c : ascii) : option nat :=
  let n := nat_of_ascii c in
  if Nat.leb 48 n && Nat.leb n 57 then Some (n - 48)
  else if Nat.leb 65 n && Nat.leb n 70 then Some (n - 55)
  else if Nat.leb 97 n && Nat.leb n 102 then Some (n - 87)
  else None.

(** The digits at the head of [s], their value after [acc], and the rest. *)
Fixpoint readDigits (s : string) (acc : Z) : Z * string :=
  match s with
  | String c s' =>
      match digitOf c with
      | Some d => readDigits s' (10 * acc + d)%Z
      | None => (acc, s)
      end
  | EmptyString => (acc, s)
  end.

(** An integer literal: no leading zero, no fraction, no exponent. *)
Definition readNumber (s : string) : option (Z * string) :=
  let '(negative, body) :=
    match s with
    | String "-"%char s' => (true, s')
    | _ => (false, s)
    end in
  match body with
  | String c rest =>
      match digitOf c with
      | Some d =>
          let '(n, rest') :=
            if (d =? 0)%Z then (0%Z, rest) else readDigits rest d in
          match rest' with
          | String c' _ =>
              if Ascii.eqb c' "." || Ascii.eqb c' "e" || Ascii.eqb c' "E"
              then None
              else match digitOf c' with
                   | Some _ => None
                   | None => Some (if negative then (- n)%Z else n, rest')
                   end
          | EmptyString => Some (if negative then (- n)%Z else n, rest')
          end
      | None => None
      end
  | EmptyString => None
  end.

(** The characters of a string literal after its opening quote. *)
Fixpoint readString (s : string) : option (string * string) :=
  match s with
  | EmptyString => None
  | String c s' =>
      if Ascii.eqb c DQUOTE then Some (EmptyString, s')
      else if Ascii.eqb c BACKSLASH then
        match s' with
        | String e s'' =>
            let continue (ch : ascii) (rest : string) :=
              match readString rest with
              | Some (body, rest') => Some (String ch body, rest')
              | None => None
              end in
            if Ascii.eqb e DQUOTE then continue DQUOTE s''
            else if Ascii.eqb e BACKSLASH then continue BACKSLASH s''
            else if Ascii.eqb e "/" then continue "/"%char s''
            else if Ascii.eqb e "b" then continue "008"%char s''
            else if Ascii.eqb e "f" then continue "012"%char s''
            else if Ascii.eqb e "n" then continue "010"%char s''
            else if Ascii.eqb e "r" then continue "013"%char s''
            else if Ascii.eqb e "t" then continue "009"%char s''
            else if Ascii.eqb e "u" then
              match s'' with
              | String h1 (String h2 (String h3 (String h4 rest))) =>
                  match hexOf h1, hexOf h2, hexOf h3, hexOf h4 with
                  | Some 0, Some 0, Some a, Some b =>
                      continue (ascii_of_nat (16 * a + b)) rest
                  | _, _, _, _ => None
                  end
              | _ => None
              end
            else None
        | EmptyString => None
        end
      else if Nat.ltb (nat_of_ascii c) 32 then None
      else
        match readString s' with
        | Some (body, rest) => Some (String c body, rest)
        | None => None
        end
  end.

(** [fields] with [key] set to [v]: a repeated key keeps its place and
    takes the later value. *)
Fixpoint setField (key : string) (v : JsValue)
    (fields : list (string * JsValue)) : list (string * JsValue) :=
  match fields with
  | [] => [(key, v)]
  | (k, old) :: rest =>
      if String.eqb k key then (k, v) :: rest
      else (k, old) :: setField key v rest
  end.

Definition keyword (word : string) (v : JsValue) (s : string)
  : option (JsValue * string) :=
  if String.prefix word s then Some (v, substringFrom (String.length word) s)
  else None.

(** A value at the head of [s], white space before it skipped. *)
Fixpoint readValue (fuel : nat) (s : string) : option (JsValue * string) :=
  match fuel with
  | O => None
  | S fuel' =>
      match skipSpace s with
      | String "{"%char rest =>
          match skipSpace rest with
          | String "}"%char rest' => Some (JObj [], rest')
          | _ => readMembers fuel' rest []
          end
      | String "["%char rest =>
          match skipSpace rest with
          | String "]"%char rest' => Some (JArr [], rest')
          | _ => readElements fuel' rest []
          end
      | String "t"%char _ as s' => keyword "true" (JBool true) s'
      | String "f"%char _ as s' => keyword "false" (JBool false) s'
      | String "n"%char _ as s' => keyword "null" JNull s'
      | String c rest as s' =>
          if Ascii.eqb c DQUOTE then
            match readString rest with
            | Some (str, rest') => Some (JStr str, rest')
            | None => None
            end
          else
            match readNumber s' with
            | Some (n, rest') => Some (JNum n, rest')
            | None => None
            end
      | EmptyString => None
      end
  end
with readMembers (fuel : nat) (s : string) (done : list (string * JsValue))
  : option (JsValue * string) :=
  match fuel with
  | O => None
  | S fuel' =>
      match skipSpace s with
      | String q rest =>
          if Ascii.eqb q DQUOTE then
            match readString rest with
            | Some (key, rest1) =>
                match skipSpace rest1 with
                | String ":"%char rest2 =>
                    match readValue fuel' rest2 with
                    | Some (v, rest3) =>
                        let done' := setField key v done in
                        match skipSpace rest3 with
                        | String ","%char rest4 =>
                            readMembers fuel' rest4 done'
                        | String "}"%char rest4 => Some (JObj done', rest4)
                        | _ => None
                        end
                    | None => None
                    end
                | _ => None
                end
            | None => None
            end
          else None
      | EmptyString => None
      end
  end
with readElements (fuel : nat) (s : string) (done : list JsValue)
  : option (JsValue * string) :=
  match fuel with
  | O => None
  | S fuel' =>
      match readValue fuel' s with
      | Some (v, rest) =>
          match skipSpace rest with
          | String ","%char rest' => readElements fuel' rest' (done ++ [v])
          | String "]"%char rest' => Some (JArr (done ++ [v]), rest')
          | _ => None
          end
      | None => None
      end
  end.

(** A whole text: one value, with nothing but white space around it. *)
Definition parse (s : string) : option JsValue :=
  match readValue (S (String.length s)) s with
  | Some (v, rest) =>
      match skipSpace rest with
      | EmptyString => Some v
      | _ => None
      end
  | None => None
  end.

(** [i < Number(s)] for a string of decimal digits; other numerals are
    outside this reader and compare as NaN does. *)
Definition lessThanDecimal (i : nat) (s : string) : bool :=
  match NilZero.uint_of_string (trim s) with
  | Some d => Nat.ltb i (Nat.of_uint d)
  | None => false
  end.

End RefJson.

(** A world with the reference runtime, where every service answers and
    the completion service gives [completion]. *)
Definition refWorld (files : list GcsFile) (completion : Completion)
  : World :=
  {| JSON_parse := RefJson.parse;
     lessThanNumberOf := RefJson.lessThanDecimal;
     GCS_BUCKET_NAME := None;
     vision_ocr := fun _ _ => true;
     storage_getFiles := fun _ _ => Some files;
     fs_ok := fun _ => true;
     openai_complete := fun _ => completion;
     axios_put_ok := fun _ => true |}.

(** ** The page structure of an OCR response, and its text as the
    specification words it *)

Module OcrLayout.

(** A word is the texts of its symbols; a paragraph its words; a block its
    paragraphs; a page its blocks. *)
Definition Word : Type := list string.
Definition Paragraph : Type := list Word.
Definition Block : Type := list Paragraph.
Definition Page : Type := list Block.

Definition symbolJson (text : string) : JsValue := JObj [("text", JStr text)].
Definition wordJson (word : Word) : JsValue :=
  JObj [("symbols", JArr (symbolJson <$> word))].
Definition paragraphJson (paragraph : Paragraph) : JsValue :=
  JObj [("words", JArr (wordJson <$> paragraph))].
Definition blockJson (block : Block) : JsValue :=
  JObj [("paragraphs", JArr (paragraphJson <$> block))].
Definition pageJson (page : Page) : JsValue :=
  JObj [("blocks", JArr (blockJson <$> page))].

Definition cat (parts : list string) : string :=
  foldr String.append EmptyString parts.

(** Symbol texts, then a single space after the word. *)
Definition wordText (word : Word) : string := cat word +:+ SPACE.
(** A newline after the paragraph. *)
Definition paragraphText (paragraph : Paragraph) : string :=
  cat (wordText <$> paragraph) +:+ LF.
Definition blockText (block : Block) : string := cat (paragraphText <$> block).
(** A blank line after the page. *)
Definition pageText (page : Page) : string :=
  cat (blockText <$> page) +:+ LFLF.
Definition documentText (pages : list Page) : string :=
  cat (pageText <$> pages).

End OcrLayout.

(** A response carries a full-text annotation whose text is [text]. *)
Definition carriesText (response : JsValue) (text : string) : Prop :=
  exists fullTextAnnotation,
    getProp response "fullTextAnnotation" = inr fullTextAnnotation
    /\ truthy fullTextAnnotation = true
    /\ getProp fullTextAnnotation "text" = inr (JStr text).

(** ** Concrete documents *)

(** JSON texts are written with single quotes for the double ones. *)
Fixpoint jsonText (s : string) : string :=
  match s with
  | EmptyString => EmptyString
  | String c s' =>
      String (if Ascii.eqb c "'" then RefJson.DQUOTE else c) (jsonText s')
  end.

(** A shard whose only response holds the given page structure and no
    flattened text. *)
Definition layoutShard (pages : list OcrLayout.Page) : JsValue :=
  JObj [("responses",
         JArr [JObj [("fullTextAnnotation",
                      JObj [("pages",
                             JArr (OcrLayout.pageJson <$> pages))])]])].

(** One page, one block, one paragraph, two words. *)
Definition twoWordShard : JsValue :=
  layoutShard [[[[chars "word1"; chars "word2"]]]].

Definition helloShardText : string :=
  jsonText "{'responses': [{'fullTextAnnotation': {'text': 'Hello World'}}]}".

Definition helloShard : JsValue :=
  JObj [("responses",
         JArr [JObj [("fullTextAnnotation",
                      JObj [("text", JStr "Hello World")])]])].

(** An answer of the completion service that lists two passages under the
    first field. *)
Definition listAnswer : string :=
  jsonText
    "{'indemnificationText': ['Vendor shall indemnify Client for any data breach.', 'Liability is capped at the fees paid.'], 'terminationText': 'Either party may terminate this Agreement for convenience.'}".

(** An answer that holds no JSON. *)
Definition proseAnswer : string :=
  "I could not find either clause in the contract text.".

Definition sampleContract : string :=
  "This Agreement may be terminated for convenience by either party."
  +:+ LFLF +:+
  "The vendor shall indemnify the client for any data breach.".

(** ** Reading a trace *)

(** The bodies of the status updates issued, in order. *)
Definition payloads (tr : Trace) : list Payload :=
  omap (fun e => match e with EvPut _ p _ => Some p | _ => None end) tr.

(** An update that sets the status and both clauses. *)
Definition withClauses (status : string) (i t : JsValue) : Payload :=
  {| payload_status := status;
     payload_indemnificationText := Some i;
     payload_terminationText := Some t |}.

Definition carriesNoClause (p : Payload) : Prop :=
  payload_indemnificationText p = None /\ payload_terminationText p = None.

(** The status of the last update issued. *)
Definition finalStatus (tr : Trace) : option string :=
  payload_status <$> last (payloads tr).

(** The same world, the record store answering the updates as [answers]
    tells. *)
Definition withPutAnswers (answers : nat -> bool) (w : World) : World :=
  {| JSON_parse := JSON_parse w;
     lessThanNumberOf := lessThanNumberOf w;
     GCS_BUCKET_NAME := GCS_BUCKET_NAME w;
     vision_ocr := vision_ocr w;
     storage_getFiles := storage_getFiles w;
     fs_ok := fs_ok w;
     openai_complete := openai_complete w;
     axios_put_ok := answers |}.

(** What a run did, the answers to its status updates left out: every
    update counts as issued, and the line logged for a failed one is
    dropped. *)
Definition flow (tr : Trace) : Trace :=
  omap (fun e =>
          match e with
          | EvPut contractId p _ => Some (EvPut contractId p true)
          | EvConsole StatusUpdateFailed => None
          | e => Some e
          end) tr.

Definition control {A} (r : Outcome A * Trace) : Outcome A * Trace :=
  (fst r, flow (snd r)).

(** Two statements agree when, started on traces with the same flow, they
    end the same way and leave traces with the same flow. *)
Definition agree {A} (c c' : Prog Trace A) : Prop :=
  forall tr tr', flow tr = flow tr' -> control (c tr) = control (c' tr').

(** A shard whose second response is [null]: reading it raises after the
    text of the first response has been taken. *)
Definition tornShardText : string :=
  jsonText "{'responses': [{'fullTextAnnotation': {'text': 'Page one'}}, null]}".

Definition tornShardFile : GcsFile :=
  {| name := "output-1-to-2.json"; download := Some tornShardText |}.

(** A shard that is no JSON at all. *)
Definition brokenShardFile : GcsFile :=
  {| name := "output-3-to-4.json"; download := Some "{'responses': " |}.

(** An answer of the completion service with a text for each clause. *)
Definition clauseAnswer : string :=
  jsonText
    "{'indemnificationText': 'Vendor shall indemnify Client.', 'terminationText': 'Either party may terminate for convenience.'}".

(** Every listed shard can be downloaded. *)
Definition downloadsSucceed (files : list GcsFile) : Prop :=
  Forall (fun file =>
            endsWith (name file) ".json" = true -> download file <> None)
    files.

Definition helloShardFile : GcsFile :=
  {| name := "output-1-to-1.json"; download := Some helloShardText |}.

(** The arguments the AI service passes to [process_document.ts]. *)
Definition sampleArgv : list string :=
  ["node"; "process_document.ts"; "contract-42";
   "gs://fb_dioptra_process/input/1711296000000-msa.pdf"].

(** The reference world with the OCR engine failing. *)
Definition ocrDownWorld : World :=
  {| JSON_parse := RefJson.parse;
     lessThanNumberOf := RefJson.lessThanDecimal;
     GCS_BUCKET_NAME := None;
     vision_ocr := fun _ _ => false;
     storage_getFiles := fun _ _ => None;
     fs_ok := fun _ => true;
     openai_complete := fun _ => CompletionFails;
     axios_put_ok := fun _ => true |}.

(** The reference world with the listing of the bucket failing. *)
Definition listingDownWorld : World :=
  {| JSON_parse := RefJson.parse;
     lessThanNumberOf := RefJson.lessThanDecimal;
     GCS_BUCKET_NAME := None;
     vision_ocr := fun _ _ => true;
     storage_getFiles := fun _ _ => None;
     fs_ok := fun _ => true;
     openai_complete := fun _ => CompletionFails;
     axios_put_ok := fun _ => true |}.

(** A paragraph that passes both tests of the keyword extractor. *)
Definition bothClausesParagraph : string :=
  "Either party may terminate at will; LIABILITY for a Data Breach survives.".

(** A shard of two responses, each with a page of one word and no
    flattened text. *)
Definition twoResponseShard : JsValue :=
  JObj [("responses",
         JArr [JObj [("fullTextAnnotation",
                      JObj [("pages",
                             JArr [OcrLayout.pageJson [[[chars "first"]]]])])];
               JObj [("fullTextAnnotation",
                      JObj [("pages",
                             JArr [OcrLayout.pageJson [[[chars "second"]]]])])]])].

(** A stored record, and a request that completes it with an empty
    indemnification clause. *)
Definition storedContract : ContractsRoute.Contract :=
  {| ContractsRoute.id := "contract-42";
     ContractsRoute.fileName := "msa.pdf";
     ContractsRoute.uploadedAt := 1711296000000;
     ContractsRoute.indemnificationText := Some "Earlier indemnification text.";
     ContractsRoute.terminationText := None;
     ContractsRoute.status := ContractsRoute.extracting;
     ContractsRoute.progress := 0 |}.

Definition sampleStore : ContractsRoute.Store :=
  {| ContractsRoute.contracts := {["contract-42" := storedContract]};
     ContractsRoute.db_available := true |}.

Definition sampleRequest : JsValue :=
  JObj [("status", JStr "completed");
        ("indemnificationText", JStr EmptyString);
        ("terminationText", JStr "Either party may terminate.")].

(** A shard of two responses, each with its flattened text. *)
Definition twoPageShard : JsValue :=
  JObj [("responses",
         JArr [JObj [("fullTextAnnotation", JObj [("text", JStr "Page one")])];
               JObj [("fullTextAnnotation",
                      JObj [("text", JStr "Page two")])]])].

(** ** [api/upload/route.ts] *)

Module UploadRoute.

Import ContractsRoute.

(** An uploaded [File]. *)
Record File : Type := {
  file_name : string;
  file_type : string;
  file_bytes : string
}.

(** What [formData.get('pdf')] gives when the field is present: the text of
    a plain field, or a file. *)
Inductive FormDataEntryValue : Type :=
| FormText (value : string)
| FormFile (file : File).

(** The surroundings of the handler. *)
Record Env : Type := {
  (** [Date.now()] *)
  Date_now : Z;
  (** [process.env.GCS_BUCKET_NAME] of the client application *)
  env_GCS_BUCKET_NAME : option string;
  (** Whether [gcsFile.save] succeeds for the object of that path. *)
  gcs_save_ok : string -> bool;
  (** The [uuid()] and the [now()] the store gives to the next record. *)
  next_uuid : string;
  next_now : Z;
  (** [fetch] of the AI service with the given JSON body: [None] when it
      raises, else [response.ok]. *)
  fetch_ai_service : JsValue -> option bool
}.

Definition bucketName (env : Env) : string :=
  match env_GCS_BUCKET_NAME env with
  | Some b => if isEmpty b then "fb_dioptra_process" else b
  | None => "fb_dioptra_process"
  end.

Inductive UploadLog : Type :=
| ProcessingFileError
| AiServiceRespondedWithError
| AiServiceUnreachable.

(** What the handler acts on: the objects saved in the bucket, the record
    store, the requests sent to the AI service, the error console. *)
Record State : Type := {
  objects : list (string * File);
  store : Store;
  requests : list JsValue;
  console : list UploadLog
}.

Inductive CreateError : Type :=
| UniqueConstraintFailed
| StoreUnreachable.

(** [prisma.contract.create({ data: { fileName, status } })] over the
    [Contract] model of the schema: the id, the upload time, the progress
    and the clauses take their defaults. *)
Definition prisma_contract_create (env : Env) (st : Store)
    (newFileName : string) (newStatus : ContractStatus)
  : (CreateError + Contract) * Store :=
  if db_available st then
    match contracts st !! next_uuid env with
    | Some _ => (inl UniqueConstraintFailed, st)
    | None =>
        let c :=
          {| id := next_uuid env;
             fileName := newFileName;
             uploadedAt := next_now env;
             indemnificationText := None;
             terminationText := None;
             status := newStatus;
             progress := 0 |} in
        (inr c,
         {| contracts := <[next_uuid env := c]> (contracts st);
            db_available := db_available st |})
    end
  else (inl StoreUnreachable, st).

(** The JSON answer: [{ message, contractId, fileUrl }] with status 200, or
    [{ error }] with an error status. *)
Inductive UploadResponse : Type :=
| Uploaded (contractId fileUrl : string)
| Failure (httpStatus : Z).

Definition responseStatus (r : UploadResponse) : Z :=
  match r with Uploaded _ _ => 200 | Failure code => code end.

Definition logError (line : UploadLog) (st : State) : State :=
  {| objects := objects st; store := store st; requests := requests st;
     console := console st ++ [line] |}.

(** The decimal numeral a template literal prints for an integer. *)
Definition decimal (n : Z) : string := NilZero.string_of_int (Z.to_int n).

Definition storedFileName (env : Env) (file : File) : string :=
  decimal (Date_now env) +:+ "-" +:+ file_name file.

Definition filePath (env : Env) (file : File) : string :=
  "input/" +:+ storedFileName env file.

Definition publicUrl (env : Env) (file : File) : string :=
  "https://storage.googleapis.com/" +:+ bucketName env +:+ "/"
  +:+ filePath env file.

Definition gsUri (env : Env) (file : File) : string :=
  "gs://" +:+ bucketName env +:+ "/" +:+ filePath env file.

(** The body of the request to [/process_document]. *)
Definition processRequest (contractId uri : string) : JsValue :=
  JObj [("id", JStr contractId); ("filename", JStr uri)].

(** [POST], with [formData] what [req.formData()] gives for the field
    [pdf]: [None] when the call raises, [Some None] when the field is
    absent. *)
Definition POST (env : Env) (formData : option (option FormDataEntryValue))
    (st : State) : UploadResponse * State :=
  match formData with
  | None => (Failure 500, logError ProcessingFileError st)
  | Some None => (Failure 400, st)
  | Some (Some (FormText value)) =>
      (* a text is falsy when empty, and has no [arrayBuffer] otherwise *)
      if isEmpty value then (Failure 400, st)
      else (Failure 500, logError ProcessingFileError st)
  | Some (Some (FormFile file)) =>
      if gcs_save_ok env (filePath env file) then
        let st1 :=
          {| objects := objects st ++ [(filePath env file, file)];
             store := store st; requests := requests st;
             console := console st |} in
        match prisma_contract_create env (store st1) (file_name file)
                pending with
        | (inr contract, store') =>
            let body := processRequest (id contract) (gsUri env file) in
            let st2 :=
              {| objects := objects st1; store := store';
                 requests := requests st1 ++ [body];
                 console := console st1 |} in
            let st3 :=
              match fetch_ai_service env body with
              | Some true => st2
              | Some false => logError AiServiceRespondedWithError st2
              | None => logError AiServiceUnreachable st2
              end in
            (Uploaded (id contract) (publicUrl env file), st3)
        | (inl _, _) => (Failure 500, logError ProcessingFileError st1)
        end
      else (Failure 500, logError ProcessingFileError st)
  end.

End UploadRoute.

(** ** [server.ts] of the AI service *)

Module Server.

(** What the handler of [POST /process_document] does, in order: the
    answer it sends, the command it hands to [exec]. *)
Inductive Action : Type :=
| Respond (httpStatus : Z)
| Exec (command : string).

Definition QUOTE : string := String "034"%char EmptyString.

(** [`ts-node ${scriptPath} ${id} "${filename}"`] *)
Definition command (scriptPath id filename : string) : string :=
  "ts-node " +:+ scriptPath +:+ " " +:+ id +:+ " " +:+ QUOTE +:+ filename
  +:+ QUOTE.

(** The handler, with [body] the parsed [req.body] and [scriptPath] the
    path of [scripts/process_document.ts]. *)
Definition processDocument (scriptPath : string) (body : JsValue)
  : list Action :=
  match getProp body "id", getProp body "filename" with
  | inr id, inr filename =>
      if negb (truthy id) || negb (truthy filename) then [Respond 400]
      else
        match ToString id, ToString filename with
        | inr idText, inr filenameText =>
            [Respond 200; Exec (command scriptPath idText filenameText)]
        | _, _ => [Respond 500]
        end
  | _, _ => [Respond 500]
  end.

End Server.

(** ** Reading a run of the extraction *)

(** A file the loop over the listing reads. *)
Definition isJsonFile (file : GcsFile) : bool := endsWith (name file) ".json".

(** The text [extractTextFromOcrJson] returns for a parsed shard. *)
Definition ocrText (w : World) (jsonContent : JsValue) : string :=
  trim (snd (ExtractKnowledge.extractTextFromOcrJson_try w jsonContent
               EmptyString)).

(** The text a listed file adds to the combined text, if any. *)
Definition shardText (w : World) (file : GcsFile) : option string :=
  if isJsonFile file then
    content ← download file;
    jsonContent ← JSON_parse w content;
    let text := ocrText w jsonContent in
    if isEmpty text then None else Some text
  else None.

Definition isConsole (e : Event) : bool :=
  match e with EvConsole _ => true | _ => false end.

(** The local files written, in order. *)
Definition fileWrites (tr : Trace) : list (FsStep * JsValue) :=
  omap (fun e => match e with
                 | EvWriteFile step data => Some (step, data)
                 | _ => None
                 end) tr.

(** A response the direct method passes over: no full-text annotation, or
    one with no text. *)
Definition carriesNoText (response : JsValue) : Prop :=
  exists fullTextAnnotation,
    getProp response "fullTextAnnotation" = inr fullTextAnnotation
    /\ (truthy fullTextAnnotation = false
        \/ exists text,
             getProp fullTextAnnotation "text" = inr text
             /\ truthy text = false).

(** What the direct method takes from a response: a non-empty text, or
    nothing. *)
Definition responseText (response : JsValue) (text : option string) : Prop :=
  match text with
  | Some t => carriesText response t /\ t <> EmptyString
  | None => carriesNoText response
  end.

(** The texts that are there. *)
Definition present (texts : list (option string)) : list string :=
  omap (fun t => t) texts.

(** What a statement adds to the trace, read through the updates issued
    and the local files written. *)
Definition adds (tr tr' : Trace) (puts : list Payload)
    (files : list (FsStep * JsValue)) : Prop :=
  payloads tr' = payloads tr ++ puts
  /\ fileWrites tr' = fileWrites tr ++ files.

(** The same surroundings of the upload route, the AI service answering
    as [answer] tells. *)
Definition withAiService (answer : JsValue -> option bool)
    (env : UploadRoute.Env) : UploadRoute.Env :=
  {| UploadRoute.Date_now := UploadRoute.Date_now env;
     UploadRoute.env_GCS_BUCKET_NAME := UploadRoute.env_GCS_BUCKET_NAME env;
     UploadRoute.gcs_save_ok := UploadRoute.gcs_save_ok env;
     UploadRoute.next_uuid := UploadRoute.next_uuid env;
     UploadRoute.next_now := UploadRoute.next_now env;
     UploadRoute.fetch_ai_service := answer |}.

(** The record the upload route creates for a file. *)
Definition pendingContract (env : UploadRoute.Env) (file : UploadRoute.File)
  : ContractsRoute.Contract :=
  {| ContractsRoute.id := UploadRoute.next_uuid env;
     ContractsRoute.fileName := UploadRoute.file_name file;
     ContractsRoute.uploadedAt := UploadRoute.next_now env;
     ContractsRoute.indemnificationText := None;
     ContractsRoute.terminationText := None;
     ContractsRoute.status := ContractsRoute.pending;
     ContractsRoute.progress := 0 |}.

(** ** A page structure with parts missing *)

Module SparseLayout.

(** A symbol may lack its text, a word its symbols, a paragraph its
    words, a block its paragraphs, a page its blocks: [None] stands for
    the missing field. *)
Definition Symbol : Type := option string.
Definition Word : Type := option (list Symbol).
Definition Paragraph : Type := option (list Word).
Definition Block : Type := option (list Paragraph).
Definition Page : Type := option (list Block).

(** The object with the field [key] when the part is there, the empty
    object when it is not. *)
Definition part {A} (key : string) (json : A -> JsValue) (p : option A)
  : JsValue :=
  JObj match p with
       | Some a => [(key, json a)]
       | None => []
       end.

Definition symbolJson (symbol : Symbol) : JsValue := part "text" JStr symbol.
Definition wordJson (word : Word) : JsValue :=
  part "symbols" (fun symbols => JArr (symbolJson <$> symbols)) word.
Definition paragraphJson (paragraph : Paragraph) : JsValue :=
  part "words" (fun words => JArr (wordJson <$> words)) paragraph.
Definition blockJson (block : Block) : JsValue :=
  part "paragraphs" (fun paragraphs => JArr (paragraphJson <$> paragraphs))
    block.
Definition pageJson (page : Page) : JsValue :=
  part "blocks" (fun blocks => JArr (blockJson <$> blocks)) page.

(** A symbol without text gives nothing. *)
Definition symbolText (symbol : Symbol) : string := default EmptyString symbol.
(** A word gives its symbols and a space, a word without symbols
    nothing. *)
Definition wordText (word : Word) : string :=
  match word with
  | Some symbols => OcrLayout.cat (symbolText <$> symbols) +:+ SPACE
  | None => EmptyString
  end.
(** A paragraph gives its words and a newline, a paragraph without words
    the newline alone. *)
Definition paragraphText (paragraph : Paragraph) : string :=
  match paragraph with
  | Some words => OcrLayout.cat (wordText <$> words)
  | None => EmptyString
  end +:+ LF.
Definition blockText (block : Block) : string :=
  match block with
  | Some paragraphs => OcrLayout.cat (paragraphText <$> paragraphs)
  | None => EmptyString
  end.
(** A page gives its blocks and a blank line, a page without blocks
    nothing. *)
Definition pageText (page : Page) : string :=
  match page with
  | Some blocks => OcrLayout.cat (blockText <$> blocks) +:+ LFLF
  | None => EmptyString
  end.
Definition documentText (pages : list Page) : string :=
  OcrLayout.cat (pageText <$> pages).

End SparseLayout.

(** ** Further concrete documents *)

(** A shard of four responses: the first and the last carry a text, the
    second has no annotation, the third an annotation with an empty
    text. *)
Definition mixedShard : JsValue :=
  JObj [("responses",
         JArr [JObj [("fullTextAnnotation", JObj [("text", JStr "Page one")])];
               JObj [];
               JObj [("fullTextAnnotation", JObj [("text", JStr EmptyString)])];
               JObj [("fullTextAnnotation",
                      JObj [("text", JStr "Page four")])]])].

(** A shard that is the empty object. *)
Definition emptyObjectFile : GcsFile :=
  {| name := "output-5-to-6.json"; download := Some "{}" |}.

(** A listed object that is no shard and cannot be downloaded. *)
Definition notesFile : GcsFile :=
  {| name := "output/contract-42/notes.txt"; download := None |}.

(** A shard that cannot be downloaded. *)
Definition lostShardFile : GcsFile :=
  {| name := "output-7-to-8.json"; download := None |}.

(** A text that holds nothing for the keyword extractor. *)
Definition plainText : string :=
  "This Agreement is governed by the laws of the State." +:+ LFLF +:+
  "Notices shall be given in writing.".

(** An answer of the completion service that is JSON and no object. *)
Definition arrayAnswer : string := "[]".

(** An answer with prose around the object. *)
Definition wrappedAnswer : string :=
  "Here is the result: " +:+ clauseAnswer +:+ " Let me know if you need more.".

Fixpoint spaces (n : nat) : string :=
  match n with
  | O => EmptyString
  | S k => String " " (spaces k)
  end.

(** A text whose first 15000 characters are spaces. *)
Definition longText (tail : string) : string :=
  spaces ExtractKnowledge.PROMPT_LIMIT +:+ tail.

(** A shard whose page structure has a page without blocks, a paragraph
    without words, a word without symbols and a symbol without text. *)
Definition sparsePages : list SparseLayout.Page :=
  [None;
   Some [Some [None;
               Some [None; Some [Some "O"; None; Some "K"]]]]].

Definition sparseShard : JsValue :=
  JObj [("responses",
         JArr [JObj [("fullTextAnnotation",
                      JObj [("pages",
                             JArr (SparseLayout.pageJson <$> sparsePages))])]])].

(** An upload: the surroundings, the file, the state before. *)
Definition sampleEnv : UploadRoute.Env :=
  {| UploadRoute.Date_now := 1711296000000;
     UploadRoute.env_GCS_BUCKET_NAME := None;
     UploadRoute.gcs_save_ok := fun _ => true;
     UploadRoute.next_uuid := "contract-43";
     UploadRoute.next_now := 1711296000123;
     UploadRoute.fetch_ai_service := fun _ => None |}.

Definition sampleFile : UploadRoute.File :=
  {| UploadRoute.file_name := "msa.pdf";
     UploadRoute.file_type := "application/pdf";
     UploadRoute.file_bytes := "%PDF-1.7" |}.

Definition sampleState : UploadRoute.State :=
  {| UploadRoute.objects := [];
     UploadRoute.store := sampleStore;
     UploadRoute.requests := [];
     UploadRoute.console := [] |}.

(** The record of [sampleStore] once [sampleRequest] is applied. *)
Definition completedContract : ContractsRoute.Contract :=
  {| ContractsRoute.id := "contract-42";
     ContractsRoute.fileName := "msa.pdf";
     ContractsRoute.uploadedAt := 1711296000000;
     ContractsRoute.indemnificationText := Some "Earlier indemnification text.";
     ContractsRoute.terminationText := Some "Either party may terminate.";
     ContractsRoute.status := ContractsRoute.completed;
     ContractsRoute.progress := 0 |}.

(** ** The record store behind a run *)

(** The record store once every update of a trace has reached the route,
    in order. *)
Definition replay (st : ContractsRoute.Store) (tr : Trace)
  : ContractsRoute.Store :=
  fold_left
    (fun st e =>
       match e with
       | EvPut contractId payload _ =>
           snd (ContractsRoute.PUT st contractId
                  (Some (ContractsRoute.payloadJson payload)))
       | _ => st
       end)
    tr st.

(** Every update of the trace is addressed to [contractId]. *)
Definition addressedTo (contractId : string) (tr : Trace) : Prop :=
  Forall (fun e => match e with
                   | EvPut i _ _ => i = contractId
                   | _ => True
                   end) tr.

(** A statement that addresses its updates to [contractId]. *)
Definition sends {A} (contractId : string) (c : Prog Trace A) : Prop :=
  forall tr, addressedTo contractId tr -> addressedTo contractId (snd (c tr)).

(** A record with another status, and with another status and both
    clauses. *)
Definition recordWithStatus (s : ContractsRoute.ContractStatus)
    (c : ContractsRoute.Contract) : ContractsRoute.Contract :=
  {| ContractsRoute.id := ContractsRoute.id c;
     ContractsRoute.fileName := ContractsRoute.fileName c;
     ContractsRoute.uploadedAt := ContractsRoute.uploadedAt c;
     ContractsRoute.indemnificationText := ContractsRoute.indemnificationText c;
     ContractsRoute.terminationText := ContractsRoute.terminationText c;
     ContractsRoute.status := s;
     ContractsRoute.progress := ContractsRoute.progress c |}.

Definition recordWithClauses (s : ContractsRoute.ContractStatus)
    (i t : string) (c : ContractsRoute.Contract) : ContractsRoute.Contract :=
  {| ContractsRoute.id := ContractsRoute.id c;
     ContractsRoute.fileName := ContractsRoute.fileName c;
     ContractsRoute.uploadedAt := ContractsRoute.uploadedAt c;
     ContractsRoute.indemnificationText := Some i;
     ContractsRoute.terminationText := Some t;
     ContractsRoute.status := s;
     ContractsRoute.progress := ContractsRoute.progress c |}.
(** * Properties *)

(** ** Strings *)

Section StringFacts.

Implicit Types s t u : string.

Lemma string_app_cons c s t : String c s +:+ t = String c (s +:+ t).
Proof. reflexivity. Qed.

Lemma string_app_nil_l s : EmptyString +:+ s = s.
Proof. reflexivity. Qed.

Lemma string_app_nil_r s : s +:+ EmptyString = s.
Proof.
  induction s as [|c s IH]; [reflexivity|].
  now rewrite string_app_cons, IH.
Qed.

Lemma string_app_assoc s t u : (s +:+ t) +:+ u = s +:+ t +:+ u.
Proof.
  induction s as [|c s IH]; [reflexivity|].
  now rewrite !string_app_cons, IH.
Qed.

Lemma string_length_app s t :
  String.length (s +:+ t) = String.length s + String.length t.
Proof.
  induction s as [|c s IH]; [reflexivity|].
  rewrite string_app_cons. simpl. now rewrite IH.
Qed.

Lemma prefix_app s t : String.prefix s (s +:+ t) = true.
Proof.
  induction s as [|c s IH].
  - now destruct t.
  - rewrite string_app_cons. simpl.
    destruct (ascii_dec c c) as [_|ne]; [exact IH | now destruct ne].
Qed.

Lemma prefix_inv s t : String.prefix s t = true -> exists u, t = s +:+ u.
Proof.
  revert t. induction s as [|c s IH]; intros t H.
  - now exists t.
  - destruct t as [|d t]; simpl in H; [discriminate|].
    destruct (ascii_dec c d) as [->|]; [|discriminate].
    destruct (IH _ H) as [u ->]. now exists u.
Qed.

Lemma includes_unfold s needle :
  includes s needle
  = String.prefix needle s
    || match s with
       | EmptyString => false
       | String _ s' => includes s' needle
       end.
Proof. destruct s; reflexivity. Qed.

(** [includes] finds exactly the substrings. *)
Lemma includes_spec s needle :
  includes s needle = true <-> exists a b, s = a +:+ needle +:+ b.
Proof.
  split.
  - induction s as [|c s IH]; rewrite includes_unfold; intros H.
    + rewrite orb_false_r in H. apply prefix_inv in H as [u ->].
      now exists EmptyString, u.
    + apply orb_true_iff in H as [H|H].
      * apply prefix_inv in H as [u ->]. now exists EmptyString, u.
      * destruct (IH H) as (a & b & ->). now exists (String c a), b.
  - intros (a & b & ->). induction a as [|c a IH]; rewrite includes_unfold.
    + now rewrite string_app_nil_l, prefix_app.
    + rewrite string_app_cons, IH. apply orb_true_r.
Qed.

Lemma toLowerChar_idem c : toLowerChar (toLowerChar c) = toLowerChar c.
Proof.
  destruct c as [[] [] [] [] [] [] [] []]; vm_compute; reflexivity.
Qed.

Lemma toLowerCase_idem s : toLowerCase (toLowerCase s) = toLowerCase s.
Proof.
  induction s as [|c s IH]; simpl; [reflexivity|].
  now rewrite toLowerChar_idem, IH.
Qed.

Lemma orElse_nonempty s d : d <> EmptyString -> orElse s d <> EmptyString.
Proof. unfold orElse. destruct s; simpl; [tauto | discriminate]. Qed.

Lemma trimStart_blank s : blank s = true -> trimStart s = EmptyString.
Proof.
  induction s as [|c s IH]; simpl; [reflexivity|].
  intros [-> H]%andb_true_iff. auto.
Qed.

Lemma trimEnd_blank s : blank s = true -> trimEnd s = EmptyString.
Proof.
  induction s as [|c s IH]; simpl; [reflexivity|].
  intros [-> H]%andb_true_iff. now rewrite IH.
Qed.

Lemma trimEnd_app_blank s t : blank t = true -> trimEnd (s +:+ t) = trimEnd s.
Proof.
  intros H. induction s as [|c s IH].
  - now apply trimEnd_blank.
  - rewrite string_app_cons. simpl. now rewrite IH.
Qed.

Lemma trimStart_app s t :
  trimStart (s +:+ t)
  = if isEmpty (trimStart s) then trimStart t else trimStart s +:+ t.
Proof.
  induction s as [|c s IH]; [reflexivity|].
  rewrite string_app_cons. simpl.
  destruct (isWhiteSpace c); [exact IH | reflexivity].
Qed.

(** Trailing white space does not survive [trim]. *)
Lemma trim_app_blank s t : blank t = true -> trim (s +:+ t) = trim s.
Proof.
  intros H. unfold trim. rewrite trimStart_app.
  destruct (trimStart s) as [|c r] eqn:E.
  - simpl. rewrite trimStart_blank; auto.
  - change (isEmpty (String c r)) with false. cbv iota.
    now apply trimEnd_app_blank.
Qed.

End StringFacts.

(** ** The keyword extractor *)

Section KeywordExtractor.

Import ExtractKnowledge KeywordSpec.

Lemma split_go_cons sep c s cur :
  split_go sep (String c s) cur 0
  = if String.prefix sep (String c s)
    then cur :: split_go sep s EmptyString (String.length sep - 1)
    else split_go sep s (cur +:+ String c EmptyString) 0.
Proof. reflexivity. Qed.

Lemma split_go_nonempty sep s cur skip : split_go sep s cur skip <> [].
Proof.
  revert cur skip. induction s as [|c s IH]; intros cur skip.
  - discriminate.
  - destruct skip as [|k]; [|apply IH].
    rewrite split_go_cons.
    destruct (String.prefix sep (String c s)); [discriminate | apply IH].
Qed.

Lemma join_cons sep p ps :
  ps <> [] -> join sep (p :: ps) = p +:+ sep +:+ join sep ps.
Proof. destruct ps; [congruence | reflexivity]. Qed.

(** Passing the rest of a separator leads to the scan of what follows. *)
Lemma split_go_skip sep r s cur :
  split_go sep (r +:+ s) cur (String.length r) = split_go sep s cur 0.
Proof.
  induction r as [|c r IH]; [now destruct s|].
  rewrite string_app_cons. simpl. exact IH.
Qed.

Lemma split_go_join sep n :
  sep <> EmptyString ->
  forall s cur, String.length s <= n ->
    join sep (split_go sep s cur 0) = cur +:+ s.
Proof.
  intros Hsep. induction n as [|n IH]; intros s cur Hlen.
  - destruct s; [|simpl in Hlen; lia]. simpl. now rewrite string_app_nil_r.
  - destruct s as [|c s]; [simpl; now rewrite string_app_nil_r|].
    rewrite split_go_cons.
    destruct (String.prefix sep (String c s)) eqn:Hp.
    + apply prefix_inv in Hp as [u Hu].
      destruct sep as [|d sep']; [congruence|].
      rewrite string_app_cons in Hu. injection Hu as Hc Hs. subst c s.
      replace (String.length (String d sep') - 1) with (String.length sep')
        by (simpl; lia).
      rewrite split_go_skip.
      rewrite join_cons by apply split_go_nonempty.
      rewrite IH.
      * now rewrite string_app_nil_l, !string_app_cons.
      * simpl in Hlen. rewrite string_length_app in Hlen. lia.
    + rewrite IH by (simpl in Hlen; lia).
      now rewrite string_app_assoc.
Qed.

(** The pieces of [split], joined by the separator, give the text back. *)
Lemma join_split s sep : sep <> EmptyString -> join sep (split s sep) = s.
Proof.
  intros H. unfold split.
  now rewrite (split_go_join sep (String.length s) H s EmptyString).
Qed.

Lemma indemnification_test p :
  mentionsIndemnification (toLowerCase p) = indemnificationParagraph p.
Proof.
  unfold mentionsIndemnification, indemnificationParagraph, holds; simpl.
  now rewrite orb_false_r, !orb_assoc.
Qed.

Lemma termination_test p :
  mentionsTermination (toLowerCase p) = terminationParagraph p.
Proof.
  unfold mentionsTermination, terminationParagraph, holds; simpl.
  now rewrite orb_false_r.
Qed.

(** The loop, started on any buffers, appends the selected paragraphs. *)
Lemma keyword_fold ps : forall a b,
  fold_left keywordStep ps (a, b)
  = (a +:+ buffer (List.filter indemnificationParagraph ps),
     b +:+ buffer (List.filter terminationParagraph ps)).
Proof.
  induction ps as [|p ps IH]; intros a b; simpl.
  - now rewrite !string_app_nil_r.
  - unfold keywordStep at 2. simpl fst. simpl snd. cbv zeta.
    rewrite indemnification_test, termination_test, IH.
    destruct (indemnificationParagraph p), (terminationParagraph p);
      simpl buffer; now rewrite ?string_app_assoc.
Qed.

Lemma buffer_member (test : string -> bool) p ps :
  In p ps -> test p = true ->
  exists a b, buffer (List.filter test ps) = a +:+ p +:+ LFLF +:+ b.
Proof.
  intros Hin Ht. induction ps as [|q ps IH]; [destruct Hin|].
  simpl. destruct Hin as [->|Hin].
  - rewrite Ht. now exists EmptyString, (buffer (List.filter test ps)).
  - destruct (IH Hin) as (a & b & E). destruct (test q); [|eauto].
    exists (q +:+ LFLF +:+ a), b. simpl.
    now rewrite E, !string_app_assoc.
Qed.

End KeywordExtractor.

(** ** Statements as state transformers *)

Ltac prog_unfold :=
  unfold lift, when, throw, modify, process_exit;
  unfold mbind, prog_mbind, prog_bind, mret, prog_mret, prog_ret.

(** Reading properties of values given by their constructors. *)
Ltac js_eval :=
  cbn [truthy iterate getProp getIndex assoc from_option id String.eqb
       Ascii.eqb Bool.eqb negb andb orb isEmpty js_or truthyField ToString
       lookup list_lookup
       ExtractKnowledge.isArray ExtractKnowledge.items].

Ltac prog_simpl := repeat (progress (prog_unfold; js_eval; cbn beta iota)).

Section ProgFacts.

Context {S A B : Type}.

Lemma bind_normal (c : Prog S A) (k : A -> Prog S B) st a st' :
  c st = (Normal a, st') -> (c ≫= k) st = k a st'.
Proof. intros H. prog_unfold. now rewrite H. Qed.

Lemma bind_throw (c : Prog S A) (k : A -> Prog S B) st e st' :
  c st = (Throw e, st') -> (c ≫= k) st = (Throw e, st').
Proof. intros H. prog_unfold. now rewrite H. Qed.

Lemma bind_exit (c : Prog S A) (k : A -> Prog S B) st code st' :
  c st = (Exit code, st') -> (c ≫= k) st = (Exit code, st').
Proof. intros H. prog_unfold. now rewrite H. Qed.

Lemma for_of_cons {X} (x : X) xs (body : X -> Prog S unit) st :
  for_of (x :: xs) body st
  = match body x st with
    | (Normal _, st') => for_of xs body st'
    | (Throw e, st') => (Throw e, st')
    | (Exit code, st') => (Exit code, st')
    end.
Proof. reflexivity. Qed.

End ProgFacts.

(** ** The reassembler *)

Section Reassembler.

Import ExtractKnowledge OcrLayout.

Variable w : World.

Lemma append_run s acc : append s acc = (Normal tt, acc +:+ s).
Proof. reflexivity. Qed.

Lemma direct_response_text response t acc :
  carriesText response t -> t <> EmptyString ->
  directResponse response acc = (Normal tt, acc +:+ t +:+ LFLF).
Proof.
  intros (fta & H1 & H2 & H3) Ht. unfold directResponse.
  rewrite H1. prog_simpl. rewrite H2, H3.
  destruct t as [|c t]; [congruence|]. reflexivity.
Qed.

(** The direct loop appends every carried text, a blank line after each. *)
Lemma direct_loop_texts responses ts : forall acc,
  Forall2 carriesText responses ts ->
  Forall (fun t => t <> EmptyString) ts ->
  for_of responses directResponse acc = (Normal tt, acc +:+ buffer ts).
Proof.
  intros acc H. revert acc.
  induction H as [|r t rs ts Hr _ IH]; intros acc Hne.
  - simpl. prog_simpl. now rewrite string_app_nil_r.
  - inversion Hne as [|? ? Ht Hts]; subst.
    rewrite for_of_cons, (direct_response_text r t acc Hr Ht), IH by assumption.
    simpl buffer. now rewrite !string_app_assoc.
Qed.

Lemma buffer_join ts :
  ts <> [] -> buffer ts = join LFLF ts +:+ LFLF.
Proof.
  induction ts as [|t ts IH]; [congruence|]. intros _.
  destruct ts as [|t' ts].
  - simpl. now rewrite string_app_nil_r.
  - rewrite join_cons by discriminate.
    change (buffer (t :: t' :: ts)) with (t +:+ LFLF +:+ buffer (t' :: ts)).
    rewrite IH by discriminate. now rewrite !string_app_assoc.
Qed.

Lemma buffer_nonempty t ts :
  t <> EmptyString -> isEmpty (buffer (t :: ts)) = false.
Proof. destruct t; [congruence | reflexivity]. Qed.

(** The direct path on a shard whose responses all carry text. *)
Lemma direct_path_texts shard responses ts tr :
  getProp shard "responses" = inr (JArr responses) ->
  Forall2 carriesText responses ts ->
  Forall (fun t => t <> EmptyString) ts ->
  extractTextFromOcrJson w shard tr = (Normal (trim (join LFLF ts)), tr).
Proof.
  intros Hs Hc Hne.
  unfold extractTextFromOcrJson, extractTextFromOcrJson_try.
  assert (Hd : directPath shard EmptyString = (Normal tt, buffer ts)).
  { unfold directPath. rewrite Hs. prog_simpl. simpl.
    now rewrite (direct_loop_texts responses ts EmptyString Hc Hne). }
  rewrite (bind_normal _ _ _ _ _ Hd).
  destruct Hc as [|r t rs ts Hr Hrs].
  - unfold structuralWalk. rewrite Hs. reflexivity.
  - unfold structuralWalk.
    inversion Hne; subst. rewrite buffer_nonempty by assumption.
    prog_simpl. rewrite buffer_join by discriminate.
    now rewrite trim_app_blank.
Qed.

Lemma walkSymbol_text t acc :
  walkSymbol (symbolJson t) acc = (Normal tt, acc +:+ t).
Proof.
  unfold walkSymbol, symbolJson, appendValue.
  destruct t as [|c t]; prog_simpl;
    rewrite append_run; now rewrite !string_app_nil_r.
Qed.

Lemma walkSymbols_text word : forall acc,
  for_of (symbolJson <$> word) walkSymbol acc = (Normal tt, acc +:+ cat word).
Proof.
  induction word as [|t word IH]; intros acc.
  - simpl. prog_simpl. now rewrite string_app_nil_r.
  - rewrite fmap_cons, for_of_cons, walkSymbol_text, IH.
    simpl cat. now rewrite string_app_assoc.
Qed.

Lemma walkWord_text word acc :
  walkWord (wordJson word) acc = (Normal tt, acc +:+ wordText word).
Proof.
  unfold walkWord, wordJson. prog_simpl. rewrite walkSymbols_text.
  rewrite append_run. unfold wordText. now rewrite string_app_assoc.
Qed.

Lemma walkWords_text paragraph : forall acc,
  for_of (wordJson <$> paragraph) walkWord acc
  = (Normal tt, acc +:+ cat (wordText <$> paragraph)).
Proof.
  induction paragraph as [|x l IH]; intros acc.
  - simpl. prog_simpl. now rewrite string_app_nil_r.
  - rewrite !fmap_cons, for_of_cons, walkWord_text, IH.
    simpl cat. now rewrite string_app_assoc.
Qed.

Lemma walkParagraph_text paragraph acc :
  walkParagraph (paragraphJson paragraph) acc
  = (Normal tt, acc +:+ paragraphText paragraph).
Proof.
  unfold walkParagraph, paragraphJson. prog_simpl.
  rewrite walkWords_text, append_run. unfold paragraphText.
  now rewrite string_app_assoc.
Qed.

Lemma walkParagraphs_text block : forall acc,
  for_of (paragraphJson <$> block) walkParagraph acc
  = (Normal tt, acc +:+ blockText block).
Proof.
  unfold blockText. induction block as [|x l IH]; intros acc.
  - simpl. prog_simpl. now rewrite string_app_nil_r.
  - rewrite !fmap_cons, for_of_cons, walkParagraph_text, IH.
    simpl cat. now rewrite string_app_assoc.
Qed.

Lemma walkBlock_text block acc :
  walkBlock (blockJson block) acc = (Normal tt, acc +:+ blockText block).
Proof.
  unfold walkBlock, blockJson. prog_simpl.
  apply walkParagraphs_text.
Qed.

Lemma walkBlocks_text page : forall acc,
  for_of (blockJson <$> page) walkBlock acc
  = (Normal tt, acc +:+ cat (blockText <$> page)).
Proof.
  induction page as [|x l IH]; intros acc.
  - simpl. prog_simpl. now rewrite string_app_nil_r.
  - rewrite !fmap_cons, for_of_cons, walkBlock_text, IH.
    simpl cat. now rewrite string_app_assoc.
Qed.

Lemma walkPage_text page acc :
  walkPage (pageJson page) acc = (Normal tt, acc +:+ pageText page).
Proof.
  unfold walkPage, pageJson. prog_simpl.
  rewrite walkBlocks_text, append_run. unfold pageText.
  now rewrite string_app_assoc.
Qed.

Lemma walkPages_text pages : forall acc,
  for_of (pageJson <$> pages) walkPage acc
  = (Normal tt, acc +:+ documentText pages).
Proof.
  unfold documentText. induction pages as [|x l IH]; intros acc.
  - simpl. prog_simpl. now rewrite string_app_nil_r.
  - rewrite !fmap_cons, for_of_cons, walkPage_text, IH.
    simpl cat. now rewrite string_app_assoc.
Qed.

(** Over an array the counting loop visits the elements in order. *)
Lemma pagesLoop_array (l : list JsValue) : forall fuel i acc,
  List.length l - i < fuel ->
  pagesLoop w fuel (JArr l) i acc = for_of (drop i l) walkPage acc.
Proof.
  induction fuel as [|fuel IH]; intros i acc Hfuel; [lia|].
  simpl pagesLoop. prog_simpl. unfold lessThan. prog_simpl.
  destruct (Z.ltb_spec (Z.of_nat i) (Z.of_nat (List.length l))) as [Hlt|Hge].
  - destruct (lookup_lt_is_Some_2 l i ltac:(lia)) as [page Hpage].
    rewrite (drop_S _ _ _ Hpage), for_of_cons.
    rewrite Hpage. prog_simpl.
    destruct (walkPage page acc) as [[[]|e|code] acc']; try reflexivity.
    apply IH. lia.
  - rewrite drop_ge by lia. reflexivity.
Qed.

(** *** The counting loop never stops for want of fuel *)

Lemma indexKey_inj i j : indexKey i = indexKey j -> i = j.
Proof.
  unfold indexKey. intros H.
  assert (N : forall n, Nat.to_uint n <> Decimal.Nil).
  { intros n E. pose proof (DecimalNat.Unsigned.to_of (Nat.to_uint n)) as T.
    rewrite DecimalNat.Unsigned.of_to, E in T. discriminate. }
  apply (f_equal NilZero.uint_of_string) in H.
  rewrite !NilZero.usu in H by apply N.
  injection H. apply DecimalNat.Unsigned.to_uint_inj.
Qed.

Lemma assoc_In key fields v : assoc key fields = Some v -> In (key, v) fields.
Proof.
  induction fields as [|[k x] rest IH]; simpl; [discriminate|].
  destruct (String.eqb_spec k key) as [->|]; [intros [= ->]; now left|].
  intros H. right. auto.
Qed.

Lemma filter_length_lt {A} (P Q : A -> bool) l x :
  (forall y, Q y = true -> P y = true) ->
  In x l -> P x = true -> Q x = false ->
  List.length (List.filter Q l) < List.length (List.filter P l).
Proof.
  intros Himp Hin HP HQ.
  assert (Hle : forall l', List.length (List.filter Q l')
                           <= List.length (List.filter P l')).
  { induction l' as [|y l' IH]; simpl; [lia|].
    destruct (Q y) eqn:E; [rewrite (Himp y E); simpl; lia|].
    destruct (P y); simpl; lia. }
  induction l as [|y l IH]; [destruct Hin|]. simpl.
  destruct Hin as [->|Hin].
  - rewrite HP, HQ. simpl. specialize (Hle l). lia.
  - specialize (IH Hin). destruct (Q y) eqn:E.
    + rewrite (Himp y E). simpl. lia.
    + destruct (P y); simpl; lia.
Qed.

Lemma existsb_indexKey_below i :
  existsb (String.eqb (indexKey i)) (indexKey <$> seq 0 i) = false.
Proof.
  apply not_true_is_false. intros H.
  apply existsb_exists in H as (k & Hin & Heq).
  apply String.eqb_eq in Heq. apply in_map_iff in Hin as (j & <- & Hj).
  apply indexKey_inj in Heq. apply in_seq in Hj. lia.
Qed.

(** Passing an index leaves fewer indices ahead. *)
Lemma pagesAhead_decreases pages i len page acc acc' :
  getProp pages "length" = inr len ->
  lessThan w i len = inr true ->
  getIndex pages i = inr page ->
  walkPage page acc = (Normal tt, acc') ->
  pagesAhead pages (S i) < pagesAhead pages i.
Proof.
  intros Hlen Hlt Hpage Hwalk.
  destruct pages as [| | | |s|l|fields]; simpl in Hlen; try discriminate;
    try (injection Hlen as <-; discriminate).
  - injection Hlen as <-. simpl in Hlt. injection Hlt as Hlt.
    apply Z.ltb_lt in Hlt. simpl. lia.
  - injection Hlen as <-. simpl in Hlt. injection Hlt as Hlt.
    apply Z.ltb_lt in Hlt. simpl. lia.
  - simpl in Hpage.
    destruct (assoc (indexKey i) fields) as [v|] eqn:Hassoc.
    + apply assoc_In in Hassoc. unfold pagesAhead.
      apply filter_length_lt with (x := (indexKey i, v)); [|assumption|..].
      * intros [k x]. cbn [fst]. rewrite seq_S, fmap_app, existsb_app.
        now intros [H _]%negb_true_iff%orb_false_iff; rewrite H.
      * cbn [fst]. now rewrite existsb_indexKey_below.
      * cbn [fst]. rewrite seq_S, fmap_app, existsb_app. simpl.
        rewrite String.eqb_refl. now rewrite orb_true_r.
    + injection Hpage as <-. discriminate.
Qed.

(** With more fuel than there are indices ahead, one more unit changes
    nothing. *)
Lemma pagesLoop_stable pages : forall fuel i acc,
  pagesAhead pages i < fuel ->
  pagesLoop w (S fuel) pages i acc = pagesLoop w fuel pages i acc.
Proof.
  induction fuel as [|fuel IH]; intros i acc Hfuel; [lia|].
  change (pagesLoop w (S (S fuel)) pages i acc) with
    ((len ← lift (getProp pages "length");
      continue ← lift (lessThan w i len);
      if continue : bool then
        page ← lift (getIndex pages i);
        walkPage page;;
        pagesLoop w (S fuel) pages (S i)
      else mret tt) acc).
  change (pagesLoop w (S fuel) pages i acc) with
    ((len ← lift (getProp pages "length");
      continue ← lift (lessThan w i len);
      if continue : bool then
        page ← lift (getIndex pages i);
        walkPage page;;
        pagesLoop w fuel pages (S i)
      else mret tt) acc).
  destruct (getProp pages "length") as [e|len] eqn:Hlen; [reflexivity|].
  prog_unfold. cbn beta iota.
  destruct (lessThan w i len) as [e|[]] eqn:Hlt; try reflexivity.
  cbn beta iota.
  destruct (getIndex pages i) as [e|page] eqn:Hpage; [reflexivity|].
  cbn beta iota.
  destruct (walkPage page acc) as [[[]|e|code] acc'] eqn:Hwalk;
    try reflexivity.
  apply IH.
  pose proof (pagesAhead_decreases pages i len page acc acc'
                Hlen Hlt Hpage Hwalk).
  lia.
Qed.

(** The fuel given to the loop is enough: any larger amount gives the same
    run. *)
Lemma pagesLoop_fuel_sufficient pages acc : forall extra,
  pagesLoop w (extra + pagesFuel pages) pages 0 acc
  = pagesLoop w (pagesFuel pages) pages 0 acc.
Proof.
  assert (Hahead : pagesAhead pages 0 < pagesFuel pages).
  { destruct pages as [| | | |s|l|fields]; unfold pagesAhead, pagesFuel;
      try lia.
    pose proof (List.filter_length_le
                  (fun field : string * JsValue =>
                     negb (existsb (String.eqb (fst field))
                             (indexKey <$> seq 0 0))) fields).
    lia. }
  induction extra as [|extra IH]; [reflexivity|].
  simpl Nat.add. rewrite pagesLoop_stable by lia. exact IH.
Qed.

(** A shard read from a file: downloaded, parsed, its text appended with
    a blank line after it. *)
Lemma combineShards_text (file : GcsFile) rest content json text combined tr :
  endsWith (name file) ".json" = true ->
  download file = Some content ->
  JSON_parse w content = Some json ->
  extractTextFromOcrJson w json tr = (Normal text, tr) ->
  text <> EmptyString ->
  combineShards w (file :: rest) combined tr
  = combineShards w rest (combined +:+ text +:+ LFLF) tr.
Proof.
  intros Hname Hdl Hparse Htext Hne.
  cbn [combineShards]. rewrite Hname, Hdl. prog_simpl.
  unfold try_catch, parseJson. rewrite Hparse. prog_simpl. rewrite Htext.
  destruct text; [congruence|]. reflexivity.
Qed.

(** C6: when the direct path yields no text, the structural fallback walks
    page, block, paragraph, word and symbol, emitting the symbol texts with
    a single space after each word, a newline after each paragraph and a
    blank line after each page; on a shard of one page, one block, one
    paragraph and the two words word1 and word2 the trimmed result is
    [word1 word2]. *)
Theorem structural_walk_reconstructs_text :
  (forall shard first fullTextAnnotation noText pages tr,
      getProp shard "responses" = inr (JArr [first]) ->
      getProp first "fullTextAnnotation" = inr fullTextAnnotation ->
      truthy fullTextAnnotation = true ->
      getProp fullTextAnnotation "text" = inr noText ->
      truthy noText = false ->
      getProp fullTextAnnotation "pages" = inr (JArr (pageJson <$> pages)) ->
      extractTextFromOcrJson w shard tr
      = (Normal (trim (documentText pages)), tr))
  /\ documentText [[[[chars "word1"; chars "word2"]]]]
     = "word1 word2 " +:+ LF +:+ LFLF
  /\ forall tr,
       extractTextFromOcrJson w twoWordShard tr = (Normal "word1 word2", tr).
Proof.
  assert (General : forall shard first fullTextAnnotation noText pages tr,
      getProp shard "responses" = inr (JArr [first]) ->
      getProp first "fullTextAnnotation" = inr fullTextAnnotation ->
      truthy fullTextAnnotation = true ->
      getProp fullTextAnnotation "text" = inr noText ->
      truthy noText = false ->
      getProp fullTextAnnotation "pages" = inr (JArr (pageJson <$> pages)) ->
      extractTextFromOcrJson w shard tr
      = (Normal (trim (documentText pages)), tr)).
  { intros shard first fta noText pages tr Hs Hf Hfta Htext Hno Hpages.
    unfold extractTextFromOcrJson, extractTextFromOcrJson_try.
    assert (Hd : directPath shard EmptyString = (Normal tt, EmptyString)).
    { unfold directPath. rewrite Hs. prog_simpl.
      rewrite for_of_cons. unfold directResponse. rewrite Hf. prog_simpl.
      rewrite Hfta, Htext. prog_simpl. now rewrite Hno. }
    rewrite (bind_normal _ _ _ _ _ Hd).
    unfold structuralWalk. rewrite Hs. prog_simpl.
    assert (Hfirst : truthy first = true).
    { destruct first; try reflexivity; simpl in Hf; try discriminate;
        injection Hf as <-; discriminate. }
    rewrite Hfirst, Hf. prog_simpl. rewrite Hfta, Hpages. prog_simpl.
    rewrite pagesLoop_array by (simpl; lia).
    unfold skipn. rewrite walkPages_text. reflexivity. }
  split; [exact General|]. split; [reflexivity|].
  intros tr.
  rewrite (General twoWordShard _ _ JUndefined
             [[[[chars "word1"; chars "word2"]]]] tr
             eq_refl eq_refl eq_refl eq_refl eq_refl eq_refl).
  reflexivity.
Qed.

(** C4: the direct path, on a shard whose top-level responses carry
    full-text annotation strings, concatenates those strings separated by a
    blank line; an empty shard set gives the empty string; one shard with
    the full-text annotation [Hello World] gives [Hello World] after
    trimming. *)
Theorem direct_path_concatenates_annotations :
  (forall shard responses texts tr,
      getProp shard "responses" = inr (JArr responses) ->
      Forall2 carriesText responses texts ->
      Forall (fun t => t <> EmptyString) texts ->
      extractTextFromOcrJson w shard tr
      = (Normal (trim (join LFLF texts)), tr))
  /\ (forall tr, combineShards w [] EmptyString tr = (Normal EmptyString, tr))
  /\ (forall tr,
        extractTextFromOcrJson w helloShard tr = (Normal "Hello World", tr))
  /\ (forall file content tr,
        endsWith (name file) ".json" = true ->
        download file = Some content ->
        JSON_parse w content = Some helloShard ->
        exists combinedText,
          combineShards w [file] EmptyString tr = (Normal combinedText, tr)
          /\ trim combinedText = "Hello World").
Proof.
  assert (Hello : forall tr,
    extractTextFromOcrJson w helloShard tr = (Normal "Hello World", tr)).
  { intros tr.
    rewrite (direct_path_texts helloShard _ ["Hello World"] tr eq_refl).
    - reflexivity.
    - repeat constructor. now exists (JObj [("text", JStr "Hello World")]).
    - repeat constructor. discriminate. }
  split; [|split; [|split]].
  - intros. now apply direct_path_texts with (responses := responses).
  - reflexivity.
  - exact Hello.
  - intros file content tr Hname Hdl Hparse.
    exists ("Hello World" +:+ LFLF). split; [|reflexivity].
    rewrite (combineShards_text file [] content helloShard "Hello World"
               EmptyString tr Hname Hdl Hparse (Hello tr)); [reflexivity|].
    discriminate.
Qed.

(** The direct loop only ever appends to the text. *)
Lemma directResponse_grows response acc :
  exists s, snd (directResponse response acc) = acc +:+ s.
Proof.
  unfold directResponse, appendValue.
  destruct (getProp response "fullTextAnnotation") as [e|fta]; prog_simpl;
    [exists EmptyString; now rewrite string_app_nil_r|].
  destruct (truthy fta); [|exists EmptyString; now rewrite string_app_nil_r].
  destruct (getProp fta "text") as [e|text]; prog_simpl;
    [exists EmptyString; now rewrite string_app_nil_r|].
  destruct (truthy text); [|exists EmptyString; now rewrite string_app_nil_r].
  destruct (ToString text) as [e|t]; prog_simpl;
    [exists EmptyString; now rewrite string_app_nil_r|].
  now exists (t +:+ LFLF).
Qed.

Lemma direct_loop_grows responses : forall acc,
  exists s, snd (for_of responses directResponse acc) = acc +:+ s.
Proof.
  induction responses as [|r rs IH]; intros acc.
  - exists EmptyString. simpl. now rewrite string_app_nil_r.
  - rewrite for_of_cons.
    destruct (directResponse_grows r acc) as [s Hs].
    destruct (directResponse r acc) as [[[]|e|code] acc1]; simpl in Hs; subst;
      [|now exists s..].
    destruct (IH (acc +:+ s)) as [s' ->].
    exists (s +:+ s'). now rewrite string_app_assoc.
Qed.

Lemma string_app_empty s t : s +:+ t = EmptyString -> s = EmptyString.
Proof. destruct s; [reflexivity | discriminate]. Qed.

(** A direct loop that ends with no text found none in its first
    response. *)
Lemma direct_loop_first first rest :
  for_of (first :: rest) directResponse EmptyString
  = (Normal tt, EmptyString) ->
  directResponse first EmptyString = (Normal tt, EmptyString).
Proof.
  rewrite for_of_cons. intros H.
  destruct (directResponse first EmptyString) as [[[]|e|code] acc1] eqn:E;
    try discriminate.
  destruct (direct_loop_grows rest acc1) as [s Hs].
  rewrite H in Hs. simpl in Hs. symmetry in Hs.
  apply string_app_empty in Hs. now subst.
Qed.

(** C10: the structural walk reads only the first element of the
    responses array: when the direct path yields no text, the pages,
    blocks, paragraphs, words and symbols of any later response contribute
    nothing to the output, for every shard. *)
Theorem structural_walk_reads_first_response :
  forall shard shard' first rest tr,
    getProp shard "responses" = inr (JArr (first :: rest)) ->
    getProp shard' "responses" = inr (JArr [first]) ->
    snd (directPath shard EmptyString) = EmptyString ->
    (fst (directPath shard EmptyString) = Normal tt ->
     extractTextFromOcrJson w shard tr = extractTextFromOcrJson w shard' tr)
    /\ (forall e, fst (directPath shard EmptyString) = Throw e ->
        extractTextFromOcrJson w shard tr
        = (Normal EmptyString, tr ++ [EvConsole OcrJsonError])).
Proof.
  intros shard shard' first rest tr Hs Hs' Hempty. split.
  - intros Hnormal.
    assert (Hd : directPath shard EmptyString = (Normal tt, EmptyString)).
    { destruct (directPath shard EmptyString) as [o acc].
      simpl in *. now subst. }
    assert (Hfirst : directResponse first EmptyString
                     = (Normal tt, EmptyString)).
    { apply (direct_loop_first first rest).
      revert Hd. unfold directPath. rewrite Hs. now prog_simpl. }
    assert (Hd' : directPath shard' EmptyString = (Normal tt, EmptyString)).
    { unfold directPath. rewrite Hs'. prog_simpl.
      now rewrite for_of_cons, Hfirst. }
    unfold extractTextFromOcrJson, extractTextFromOcrJson_try.
    rewrite (bind_normal _ _ _ _ _ Hd), (bind_normal _ _ _ _ _ Hd').
    unfold structuralWalk. rewrite Hs, Hs'. reflexivity.
  - intros e Hthrow.
    assert (Hd : directPath shard EmptyString = (Throw e, EmptyString)).
    { destruct (directPath shard EmptyString) as [o acc].
      simpl in *. now subst. }
    unfold extractTextFromOcrJson, extractTextFromOcrJson_try.
    rewrite (bind_throw _ _ _ _ _ Hd). reflexivity.
Qed.

End Reassembler.

(** ** The clause extractors *)

Section ClauseExtractors.

Import ExtractKnowledge.

Variable w : World.

(** The keyword extractor gives two non-empty strings. *)
Lemma keywords_nonempty text :
  indemnificationText (extractClausesWithKeywords text) <> EmptyString
  /\ terminationText (extractClausesWithKeywords text) <> EmptyString.
Proof.
  split; apply orElse_nonempty; discriminate.
Qed.

Lemma truthy_nonempty s : s <> EmptyString -> truthy (JStr s) = true.
Proof. destruct s; [congruence | reflexivity]. Qed.

Lemma keywords_truthy text :
  truthy (indemnificationText (asValues (extractClausesWithKeywords text)))
  = true
  /\ truthy (terminationText (asValues (extractClausesWithKeywords text)))
     = true.
Proof.
  destruct (keywords_nonempty text) as [Hi Ht].
  split; apply truthy_nonempty; assumption.
Qed.

Lemma js_or_truthy a b : truthy b = true -> truthy (js_or a b) = true.
Proof. unfold js_or. destruct (truthy a) eqn:E; auto. Qed.

(** A field read from the parsed response comes out as a non-empty
    string, or as the truthy value of another type that the response held
    there. *)
Lemma fromParsed_field v sentinel :
  sentinel <> EmptyString ->
  (exists s, js_or v (JStr sentinel) = JStr s /\ s <> EmptyString)
  \/ (js_or v (JStr sentinel) = v /\ truthy v = true
      /\ forall s, v <> JStr s).
Proof.
  intros Hs. unfold js_or. destruct (truthy v) eqn:Hv; [|left; eauto].
  destruct v; try (right; repeat split; discriminate).
  left. exists s. split; [reflexivity|]. intros ->. discriminate.
Qed.

(** The three ways [extractClausesWithAI] ends: the response is read; the
    response is not usable JSON; the call fails or answers nothing. *)
Lemma extractClausesWithAI_cases text tr :
  (exists responseContent parsed i t,
      openai_complete w (substringTo PROMPT_LIMIT text)
      = CompletionContent (Some responseContent)
      /\ parseAiResponse w responseContent = inr parsed
      /\ getProp parsed "indemnificationText" = inr i
      /\ getProp parsed "terminationText" = inr t
      /\ extractClausesWithAI w text tr = (Normal (fromParsed i t), tr))
  \/ extractClausesWithAI w text tr
     = (Normal (asValues (extractClausesWithKeywords text)),
        tr ++ [EvConsole AiResponseNotJson])
  \/ extractClausesWithAI w text tr
     = (Normal (asValues (extractClausesWithKeywords text)),
        tr ++ [EvConsole AiError]).
Proof.
  unfold extractClausesWithAI, try_catch.
  destruct (openai_complete w (substringTo PROMPT_LIMIT text))
    as [|[[|c content]|]] eqn:Hc; try (right; right; reflexivity).
  destruct (parseAiResponse w (String c content)) as [e|parsed] eqn:Hp;
    prog_simpl; [right; left; reflexivity|].
  destruct (getProp parsed "indemnificationText") as [e|i] eqn:Hi;
    prog_simpl; [right; left; reflexivity|].
  destruct (getProp parsed "terminationText") as [e|t] eqn:Ht;
    prog_simpl; [right; left; reflexivity|].
  left. exists (String c content), parsed, i, t. auto.
Qed.

(** Whatever happens, two truthy values are returned and only the console
    is written to. *)
Lemma extractClausesWithAI_total text tr :
  exists clauses logs,
    extractClausesWithAI w text tr = (Normal clauses, tr ++ logs)
    /\ List.filter isPut logs = []
    /\ truthy (indemnificationText clauses) = true
    /\ truthy (terminationText clauses) = true.
Proof.
  destruct (keywords_truthy text) as [Ki Kt].
  destruct (extractClausesWithAI_cases text tr)
    as [(r & parsed & i & t & _ & _ & _ & _ & ->)|[->| ->]].
  - exists (fromParsed i t), []. rewrite app_nil_r.
    split; [reflexivity|]. split; [reflexivity|].
    split; apply js_or_truthy; reflexivity.
  - eexists _, _. split; [reflexivity|]. auto.
  - eexists _, _. split; [reflexivity|]. auto.
Qed.

Lemma upToLastBrace_sound s r :
  upToLastBrace s = Some r ->
  exists mid rest, r = mid +:+ "}" /\ s = r +:+ rest.
Proof.
  revert r. induction s as [|c s IH]; intros r H; [discriminate|].
  simpl in H. destruct (upToLastBrace s) as [r'|] eqn:E.
  - injection H as <-. destruct (IH r' eq_refl) as (mid & rest & -> & Hs).
    exists (String c mid), rest. split; [reflexivity|].
    rewrite string_app_cons. now f_equal.
  - destruct (Ascii.eqb_spec c "}") as [->|]; [|discriminate].
    injection H as <-. now exists EmptyString, s.
Qed.

(** What the pattern matches is a part of the response that opens with a
    brace and closes with one. *)
Lemma matchJsonObject_sound s m :
  matchJsonObject s = Some m ->
  exists before mid after,
    m = "{" +:+ mid +:+ "}" /\ s = before +:+ m +:+ after.
Proof.
  revert m. induction s as [|c s IH]; intros m H; [discriminate|].
  simpl in H. destruct (Ascii.eqb_spec c "{") as [->|].
  - destruct (upToLastBrace s) as [r|] eqn:E; [|discriminate].
    injection H as <-.
    destruct (upToLastBrace_sound s r E) as (mid & rest & -> & Hs).
    exists EmptyString, mid, rest. split; [reflexivity|].
    rewrite string_app_nil_l, string_app_cons. now f_equal.
  - destruct (IH m H) as (before & mid & after & Hm & ->).
    now exists (String c before), mid, after.
Qed.

Lemma upToLastBrace_complete a b : upToLastBrace (a +:+ "}" +:+ b) <> None.
Proof.
  induction a as [|c a IH].
  - change (upToLastBrace (String "}" b) <> None). cbn [upToLastBrace].
    destruct (upToLastBrace b); [discriminate|].
    rewrite Ascii.eqb_refl. discriminate.
  - rewrite string_app_cons. cbn [upToLastBrace].
    destruct (upToLastBrace (a +:+ "}" +:+ b)); [discriminate | contradiction].
Qed.

(** Where an opening brace is followed, at any distance, by a closing one,
    the pattern matches. *)
Lemma matchJsonObject_complete before mid after :
  matchJsonObject (before +:+ "{" +:+ mid +:+ "}" +:+ after) <> None.
Proof.
  induction before as [|c before IH].
  - change (matchJsonObject (String "{" (mid +:+ "}" +:+ after)) <> None).
    cbn [matchJsonObject]. rewrite Ascii.eqb_refl.
    pose proof (upToLastBrace_complete mid after) as H.
    now destruct (upToLastBrace (mid +:+ "}" +:+ after)).
  - rewrite string_app_cons. cbn [matchJsonObject].
    destruct (Ascii.eqb_spec c "{") as [->|]; [|exact IH].
    pose proof (upToLastBrace_complete (before +:+ "{" +:+ mid) after) as H.
    rewrite !string_app_assoc in H.
    now destruct (upToLastBrace (before +:+ "{" +:+ mid +:+ "}" +:+ after)).
Qed.

(** C1: for every input text the AI-backed extractor never raises, and
    whenever the model call fails or the response cannot be parsed as JSON
    by the two-step strategy (the text matched by the brace pattern when
    there is a match, the whole response only when there is none), it
    returns exactly what the keyword extractor returns on the same text. *)
Theorem extractClausesWithAI_full_fallback :
  forall text tr,
    (exists clauses tr',
        extractClausesWithAI w text tr = (Normal clauses, tr'))
    /\ (forall response jsonMatch,
          matchJsonObject response = Some jsonMatch ->
          parseAiResponse w response = parseJson w jsonMatch)
    /\ (forall response,
          matchJsonObject response = None ->
          parseAiResponse w response = parseJson w response)
    /\ ((openai_complete w (substringTo PROMPT_LIMIT text) = CompletionFails
         \/ openai_complete w (substringTo PROMPT_LIMIT text)
            = CompletionContent None
         \/ exists response,
              openai_complete w (substringTo PROMPT_LIMIT text)
              = CompletionContent (Some response)
              /\ parseAiResponse w response = inl SyntaxError) ->
        exists line,
          extractClausesWithAI w text tr
          = (Normal (asValues (extractClausesWithKeywords text)),
             tr ++ [EvConsole line])).
Proof.
  intros text tr. split; [|split; [|split]].
  - destruct (extractClausesWithAI_total text tr) as (c & logs & H & _).
    eauto.
  - intros response jsonMatch H. unfold parseAiResponse. now rewrite H.
  - intros response H. unfold parseAiResponse. now rewrite H.
  - intros [Hfail|[Hnull|(response & Hc & Hp)]];
      unfold extractClausesWithAI, try_catch.
    + rewrite Hfail. now exists AiError.
    + rewrite Hnull. now exists AiError.
    + rewrite Hc. destruct response as [|c r]; [now exists AiError|].
      rewrite Hp. now exists AiResponseNotJson.
Qed.

End ClauseExtractors.

(** C3: the extraction result is a pair of non-empty strings, whichever
    extractor produced it.  Evaluated on an answer of the completion
    service whose first field lists two passages: the extractor returns
    the list itself, which is no string. *)
Theorem extractClausesWithAI_returns_the_list :
  exists clauses,
    ExtractKnowledge.extractClausesWithAI
      (refWorld [] (CompletionContent (Some listAnswer))) sampleContract []
    = (Normal clauses, [])
    /\ indemnificationText clauses
       = JArr [JStr "Vendor shall indemnify Client for any data breach.";
               JStr "Liability is capped at the fees paid."]
    /\ forall s, indemnificationText clauses <> JStr s.
Proof.
  eexists. split; [vm_compute; reflexivity|]. split; [reflexivity|].
  intros s. discriminate.
Qed.


(** ** The pipeline: what is written to the record store *)

Section StatusWrites.

Import ExtractKnowledge.

Variable w : World.

Lemma payloads_app tr tr' : payloads (tr ++ tr') = payloads tr ++ payloads tr'.
Proof. apply omap_app. Qed.

Lemma payloads_console tr line : payloads (tr ++ [EvConsole line]) = payloads tr.
Proof. rewrite payloads_app. apply app_nil_r. Qed.

Lemma payloads_write tr step data :
  payloads (tr ++ [EvWriteFile step data]) = payloads tr.
Proof. rewrite payloads_app. apply app_nil_r. Qed.

(** [axios.put] may raise; [updateContractStatus] never does: one request
    is issued, and a failure is logged. *)
Lemma axios_put_run contractId payload tr :
  let ok := axios_put_ok w (List.length (List.filter isPut tr)) in
  axios_put w contractId payload tr
  = ((if ok then Normal tt else Throw (Error "Request failed")),
     tr ++ [EvPut contractId payload ok]).
Proof. reflexivity. Qed.

Lemma updateContractStatus_run contractId status clauses tr :
  let ok := axios_put_ok w (List.length (List.filter isPut tr)) in
  updateContractStatus w contractId status clauses tr
  = (Normal tt,
     tr ++ EvPut contractId (payloadOf status clauses) ok
        :: (if ok then [] else [EvConsole StatusUpdateFailed])).
Proof.
  unfold updateContractStatus, try_catch. cbv zeta.
  rewrite axios_put_run. cbv zeta.
  destruct (axios_put_ok w _); destruct clauses; simpl;
    unfold console_error, emit; prog_simpl;
    rewrite <- ?app_assoc; reflexivity.
Qed.

Lemma extractTextFromOcrJson_run json tr :
  exists text logs,
    extractTextFromOcrJson w json tr = (Normal text, tr ++ logs)
    /\ payloads logs = [].
Proof.
  unfold extractTextFromOcrJson.
  destruct (extractTextFromOcrJson_try w json EmptyString)
    as [[[]|e|code] text].
  - exists (trim text), []. now rewrite app_nil_r.
  - exists (trim text), [EvConsole OcrJsonError]. now split.
  - exists (trim text), []. now rewrite app_nil_r.
Qed.

(** The loop over the files writes to the console only, and ends normally
    or by an exception. *)
Lemma combineShards_run files : forall combined tr,
  exists o logs,
    combineShards w files combined tr = (o, tr ++ logs)
    /\ payloads logs = []
    /\ forall code, o <> Exit code.
Proof.
  induction files as [|file rest IH]; intros combined tr.
  - exists (Normal combined), []. now rewrite app_nil_r.
  - cbn [combineShards].
    destruct (negb (endsWith (name file) ".json")); [apply IH|].
    destruct (download file) as [content|]; prog_simpl;
      [|exists (Throw (Error "download failed")), [];
        now rewrite app_nil_r].
    unfold try_catch, parseJson.
    destruct (JSON_parse w content) as [json|]; prog_simpl.
    + destruct (extractTextFromOcrJson_run json tr)
        as (text & logs1 & -> & H1).
      destruct (isEmpty text).
      * unfold console_error, emit. prog_simpl.
        destruct (IH combined ((tr ++ logs1)
                               ++ [EvConsole (NoTextInShard (name file))]))
          as (o & logs & -> & H & Hne).
        exists o, (logs1 ++ [EvConsole (NoTextInShard (name file))] ++ logs).
        rewrite !app_assoc. split; [reflexivity|]. split; [|exact Hne].
        rewrite !payloads_app, H1, H. reflexivity.
      * prog_simpl.
        destruct (IH (combined +:+ text +:+ LFLF) (tr ++ logs1))
          as (o & logs & -> & H & Hne).
        exists o, (logs1 ++ logs). rewrite app_assoc.
        split; [reflexivity|]. split; [|exact Hne].
        now rewrite payloads_app, H1, H.
    + unfold console_error, emit. prog_simpl.
      destruct (IH combined (tr ++ [EvConsole (ShardParseError (name file))]))
        as (o & logs & -> & H & Hne).
      exists o, ([EvConsole (ShardParseError (name file))] ++ logs).
      rewrite app_assoc. split; [reflexivity|]. split; [|exact Hne].
      now rewrite payloads_app, H.
Qed.

Lemma onExtractionError_run id e tr :
  exists tr',
    onExtractionError w id e tr = (Exit 1, tr')
    /\ payloads tr' = payloads tr ++ [statusOnly "failed"].
Proof.
  unfold onExtractionError, console_error, emit. prog_simpl.
  rewrite updateContractStatus_run. cbv zeta. eexists. split; [reflexivity|].
  rewrite !payloads_app. simpl.
  destruct (axios_put_ok w _); simpl; now rewrite app_nil_r.
Qed.

(** [extractKnowledge] ends in one of two ways: both clauses are sent with
    the status [completed], or the status [failed] is sent alone and the
    process exits with code 1. *)
Lemma extractKnowledge_writes gsUri id tr :
  (exists i t tr',
      extractKnowledge w gsUri id tr = (Normal tt, tr')
      /\ payloads tr'
         = payloads tr
             ++ [statusOnly "extracting"; withClauses "completed" i t])
  \/ (exists tr',
         extractKnowledge w gsUri id tr = (Exit 1, tr')
         /\ payloads tr'
            = payloads tr ++ [statusOnly "extracting"; statusOnly "failed"]).
Proof.
  assert (Failing : forall e tr1,
    payloads tr1 = payloads tr ++ [statusOnly "extracting"] ->
    exists tr',
      onExtractionError w id e tr1 = (Exit 1, tr')
      /\ payloads tr'
         = payloads tr ++ [statusOnly "extracting"; statusOnly "failed"]).
  { intros e tr1 H1. destruct (onExtractionError_run id e tr1) as (tr' & -> & H).
    exists tr'. split; [reflexivity|]. rewrite H, H1. now rewrite <- app_assoc. }
  unfold extractKnowledge, try_catch. prog_simpl.
  rewrite updateContractStatus_run. cbv zeta.
  set (tr1 := tr ++ _).
  assert (H1 : payloads tr1 = payloads tr ++ [statusOnly "extracting"]).
  { unfold tr1. rewrite payloads_app. simpl.
    destruct (axios_put_ok w _); reflexivity. }
  clearbody tr1.
  destruct (parseGsUri gsUri) as [e|[bucket sourcePath]]; prog_simpl;
    [right; now apply Failing|].
  destruct (storage_getFiles w bucket sourcePath) as [files|]; prog_simpl;
    [|right; now apply Failing].
  destruct (combineShards_run files EmptyString tr1)
    as (o & logs & -> & Hlogs & Hne).
  assert (H2 : payloads (tr1 ++ logs)
               = payloads tr ++ [statusOnly "extracting"]).
  { now rewrite payloads_app, Hlogs, app_nil_r. }
  destruct o as [combinedText|e|code];
    [|right; now apply Failing|now destruct (Hne code)].
  unfold fs_writeFileSync, fs_step, emit.
  destruct (fs_ok w PrepareOutputDir); prog_simpl;
    [|right; now apply Failing].
  destruct (fs_ok w WriteCombinedText); prog_simpl;
    [|right; now apply Failing].
  set (tr2 := (tr1 ++ logs) ++ _).
  assert (H3 : payloads tr2 = payloads tr ++ [statusOnly "extracting"]).
  { unfold tr2. now rewrite payloads_write. }
  clearbody tr2.
  destruct (extractClausesWithAI_total w combinedText tr2)
    as (clauses & logs' & -> & Hlogs' & Hi & Ht).
  assert (H4 : payloads (tr2 ++ logs')
               = payloads tr ++ [statusOnly "extracting"]).
  { rewrite payloads_app, H3.
    replace (payloads logs') with (@nil Payload); [apply app_nil_r|].
    symmetry. clear -Hlogs'. induction logs' as [|[] l IH]; simpl in *;
      try discriminate; auto. }
  destruct (fs_ok w WriteIndemnificationClause); prog_simpl;
    [|right; now apply Failing].
  destruct (fs_ok w WriteTerminationClause); prog_simpl;
    [|right; apply Failing; now rewrite payloads_write].
  rewrite updateContractStatus_run. cbv zeta. left.
  exists (indemnificationText clauses), (terminationText clauses).
  eexists. split; [reflexivity|].
  rewrite payloads_app, !payloads_write, H4. simpl.
  unfold truthyField. rewrite Hi, Ht.
  destruct (axios_put_ok w _); simpl; now rewrite <- app_assoc.
Qed.

Lemma script_writes id gsUri tr :
  (exists i t tr',
      script w [id; gsUri] tr = (Normal tt, tr')
      /\ payloads tr'
         = payloads tr
             ++ [statusOnly "extracting"; withClauses "completed" i t])
  \/ (exists tr',
         script w [id; gsUri] tr = (Exit 1, tr')
         /\ payloads tr'
            = payloads tr ++ [statusOnly "extracting"; statusOnly "failed"]).
Proof.
  unfold script, try_catch.
  destruct (extractKnowledge_writes gsUri id tr)
    as [(i & t & tr' & -> & H)|(tr' & -> & H)]; [left|right]; eauto.
Qed.

Lemma runExtractKnowledge_writes id gcsUri tr :
  (exists i t tr',
      ProcessDocument.runExtractKnowledge w id gcsUri tr = (Normal tt, tr')
      /\ payloads tr'
         = payloads tr
             ++ [statusOnly "extracting"; withClauses "completed" i t])
  \/ (exists e tr',
         ProcessDocument.runExtractKnowledge w id gcsUri tr = (Throw e, tr')
         /\ payloads tr'
            = payloads tr ++ [statusOnly "extracting"; statusOnly "failed"]).
Proof.
  unfold ProcessDocument.runExtractKnowledge.
  destruct (script_writes id gcsUri tr)
    as [(i & t & tr' & -> & H)|(tr' & -> & H)]; [left; eauto|right].
  simpl. unfold console_error, emit. prog_simpl.
  eexists _, _. split; [reflexivity|]. now rewrite payloads_console.
Qed.

Lemma pd_updateContractStatus_run contractId status tr :
  let ok := axios_put_ok w (List.length (List.filter isPut tr)) in
  ProcessDocument.updateContractStatus w contractId status tr
  = (Normal tt,
     tr ++ EvPut contractId (statusOnly status) ok
        :: (if ok then [] else [EvConsole StatusUpdateFailed])).
Proof.
  unfold ProcessDocument.updateContractStatus, try_catch.
  rewrite axios_put_run. cbv zeta.
  destruct (axios_put_ok w _); simpl;
    unfold console_error, emit; prog_simpl;
    rewrite <- ?app_assoc; reflexivity.
Qed.

Lemma pd_update_payloads contractId status tr :
  payloads (snd (ProcessDocument.updateContractStatus w contractId status tr))
  = payloads tr ++ [statusOnly status].
Proof.
  rewrite pd_updateContractStatus_run. cbv zeta. simpl.
  rewrite payloads_app. simpl. destruct (axios_put_ok w _); reflexivity.
Qed.

(** The updates a run issues: none when the arguments are missing; else
    [processing], followed by [failed] when the OCR stage fails, or by
    [extracting] and then either [completed] with both clauses or [failed]
    twice, once from each process. *)
Lemma main_writes argv :
  let writes := payloads (snd (ProcessDocument.main w argv [])) in
  writes = []
  \/ (exists id gcsUri,
         argv !! 2 = Some id /\ argv !! 3 = Some gcsUri
         /\ vision_ocr w gcsUri (ProcessDocument.outputUri w id) = false
         /\ writes = [statusOnly "processing"; statusOnly "failed"])
  \/ (exists i t,
         writes = [statusOnly "processing"; statusOnly "extracting";
                   withClauses "completed" i t])
  \/ writes = [statusOnly "processing"; statusOnly "extracting";
               statusOnly "failed"; statusOnly "failed"].
Proof.
  cbv zeta. unfold ProcessDocument.main.
  destruct (argv !! 2) as [id|]; [|now left].
  destruct (argv !! 3) as [gcsUri|]; [|now left].
  destruct (isEmpty id || isEmpty gcsUri); [now left|].
  unfold try_catch. prog_simpl.
  rewrite pd_updateContractStatus_run. cbv zeta.
  set (tr1 := [] ++ _).
  assert (H1 : payloads tr1 = [statusOnly "processing"]).
  { unfold tr1. simpl. destruct (axios_put_ok w _); reflexivity. }
  clearbody tr1.
  unfold ProcessDocument.extractTextFromPDF.
  destruct (vision_ocr w gcsUri (ProcessDocument.outputUri w id)) eqn:Hocr;
    prog_simpl.
  - destruct (runExtractKnowledge_writes id (ProcessDocument.outputUri w id)
                tr1) as [(i & t & tr' & -> & H)|(e & tr' & -> & H)].
    + right; right; left. exists i, t. simpl. now rewrite H, H1.
    + right; right; right.
      unfold ProcessDocument.onProcessingError, console_error, emit.
      prog_simpl. rewrite pd_update_payloads, payloads_console, H, H1.
      reflexivity.
  - right; left. exists id, gcsUri. repeat (split; [reflexivity|]).
    unfold ProcessDocument.onProcessingError, console_error, emit.
    prog_simpl. now rewrite pd_update_payloads, payloads_console, H1.
Qed.

End StatusWrites.

(** The updates of a run whose OCR stage fails. *)
Lemma main_ocr_failure w argv id gcsUri :
  argv !! 2 = Some id -> argv !! 3 = Some gcsUri ->
  id <> EmptyString -> gcsUri <> EmptyString ->
  vision_ocr w gcsUri (ProcessDocument.outputUri w id) = false ->
  payloads (snd (ProcessDocument.main w argv []))
  = [statusOnly "processing"; statusOnly "failed"].
Proof.
  intros H2 H3 Hid Huri Hocr. unfold ProcessDocument.main. rewrite H2, H3.
  destruct id; [congruence|]. destruct gcsUri; [congruence|].
  simpl isEmpty. cbn [orb]. unfold try_catch. prog_simpl.
  rewrite pd_updateContractStatus_run. cbv zeta.
  unfold ProcessDocument.extractTextFromPDF. rewrite Hocr. prog_simpl.
  unfold ProcessDocument.onProcessingError, console_error, emit.
  prog_simpl. rewrite pd_update_payloads, payloads_app. simpl.
  destruct (axios_put_ok w _); reflexivity.
Qed.

(** ** The pipeline: a lost status update changes nothing else *)

Section LostUpdates.

Import ExtractKnowledge.

Lemma flow_app tr tr' : flow (tr ++ tr') = flow tr ++ flow tr'.
Proof. apply omap_app. Qed.

Lemma agree_ret {A} (a : A) : agree (mret a) (mret a).
Proof. intros tr tr' H. unfold control. simpl. now rewrite H. Qed.

Lemma agree_throw {A} e : agree (@throw Trace A e) (throw e).
Proof. intros tr tr' H. unfold control. simpl. now rewrite H. Qed.

Lemma agree_exit {A} code : agree (@process_exit Trace A code) (process_exit code).
Proof. intros tr tr' H. unfold control. simpl. now rewrite H. Qed.

Lemma agree_lift {A} (r : Exn + A) : agree (lift r) (lift r).
Proof. destruct r; [apply agree_throw | apply agree_ret]. Qed.

Lemma agree_emit e : agree (emit e) (emit e).
Proof.
  intros tr tr' H. unfold control, emit, modify. simpl.
  now rewrite !flow_app, H.
Qed.

Lemma agree_bind {A B} (c c' : Prog Trace A) (k k' : A -> Prog Trace B) :
  agree c c' -> (forall a, agree (k a) (k' a)) -> agree (c ≫= k) (c' ≫= k').
Proof.
  intros Hc Hk tr tr' H. specialize (Hc tr tr' H).
  unfold mbind, prog_mbind, prog_bind.
  destruct (c tr) as [o tr1], (c' tr') as [o' tr1'].
  unfold control in Hc. simpl in Hc. injection Hc as <- Hflow.
  destruct o as [a|e|code].
  - now apply Hk.
  - unfold control. simpl. now rewrite Hflow.
  - unfold control. simpl. now rewrite Hflow.
Qed.

Lemma agree_try_catch {A} (b b' : Prog Trace A) (h h' : Exn -> Prog Trace A) :
  agree b b' -> (forall e, agree (h e) (h' e)) ->
  agree (try_catch b h) (try_catch b' h').
Proof.
  intros Hb Hh tr tr' H. specialize (Hb tr tr' H).
  unfold try_catch.
  destruct (b tr) as [o tr1], (b' tr') as [o' tr1'].
  unfold control in Hb. simpl in Hb. injection Hb as <- Hflow.
  destruct o as [a|e|code].
  - unfold control. simpl. now rewrite Hflow.
  - now apply Hh.
  - unfold control. simpl. now rewrite Hflow.
Qed.

(** Whatever the record store answers, an update looks the same to the
    rest of the run. *)
Lemma agree_update w w' contractId status clauses :
  agree (updateContractStatus w contractId status clauses)
        (updateContractStatus w' contractId status clauses).
Proof.
  intros tr tr' H. rewrite !updateContractStatus_run. cbv zeta.
  unfold control. simpl. rewrite !flow_app, H.
  destruct (axios_put_ok w _), (axios_put_ok w' _); reflexivity.
Qed.

Lemma agree_pd_update w w' contractId status :
  agree (ProcessDocument.updateContractStatus w contractId status)
        (ProcessDocument.updateContractStatus w' contractId status).
Proof.
  intros tr tr' H. rewrite !pd_updateContractStatus_run. cbv zeta.
  unfold control. simpl. rewrite !flow_app, H.
  destruct (axios_put_ok w _), (axios_put_ok w' _); reflexivity.
Qed.

Ltac agree_step :=
  match goal with
  | |- agree (mret _) (mret _) => apply agree_ret
  | |- agree (throw _) (throw _) => apply agree_throw
  | |- agree (process_exit _) (process_exit _) => apply agree_exit
  | |- agree (lift _) (lift _) => apply agree_lift
  | |- agree (emit _) (emit _) => apply agree_emit
  | |- agree (console_error _) (console_error _) => apply agree_emit
  | |- agree (updateContractStatus _ _ _ _) _ => apply agree_update
  | |- agree (ProcessDocument.updateContractStatus _ _ _) _ =>
      apply agree_pd_update
  | |- agree (try_catch _ _) (try_catch _ _) =>
      apply agree_try_catch; [|intros ?]
  | |- agree (_ ≫= _) (_ ≫= _) => apply agree_bind; [|intros ?]
  | |- agree (if ?b then _ else _) (if ?b then _ else _) => destruct b
  | |- agree (match ?x with _ => _ end) (match ?x with _ => _ end) =>
      destruct x
  end.

Ltac agree_auto := repeat agree_step.

Section SameWorldButAnswers.

Variable w : World.
Variable answers : nat -> bool.

Let w' := withPutAnswers answers w.

Lemma pagesLoop_answers fuel : forall pages i acc,
  pagesLoop w' fuel pages i acc = pagesLoop w fuel pages i acc.
Proof.
  induction fuel as [|fuel IH]; intros pages i acc; [reflexivity|].
  cbn [pagesLoop]. prog_unfold.
  destruct (getProp pages "length") as [e|len]; [reflexivity|].
  change (lessThan w' i len) with (lessThan w i len).
  destruct (lessThan w i len) as [e|[]]; try reflexivity.
  destruct (getIndex pages i) as [e|page]; [reflexivity|].
  destruct (walkPage page acc) as [[[]|e|code] acc']; try reflexivity.
  apply IH.
Qed.

Lemma extractText_try_answers json acc :
  extractTextFromOcrJson_try w' json acc
  = extractTextFromOcrJson_try w json acc.
Proof.
  unfold extractTextFromOcrJson_try. prog_unfold.
  destruct (directPath json acc) as [[[]|e|code] acc1]; try reflexivity.
  unfold structuralWalk. prog_unfold.
  destruct (isEmpty acc1); [|reflexivity].
  destruct (getProp json "responses") as [e|responses]; [reflexivity|].
  destruct (truthy responses); [|reflexivity].
  destruct (getIndex responses 0) as [e|first]; [reflexivity|].
  destruct (truthy first); [|reflexivity].
  destruct (getProp first "fullTextAnnotation") as [e|fta]; [reflexivity|].
  destruct (truthy fta); [|reflexivity].
  destruct (getProp fta "pages") as [e|pages]; [reflexivity|].
  destruct (truthy pages); [|reflexivity].
  apply pagesLoop_answers.
Qed.

Lemma agree_extractText json :
  agree (extractTextFromOcrJson w json) (extractTextFromOcrJson w' json).
Proof.
  unfold extractTextFromOcrJson. rewrite extractText_try_answers.
  destruct (extractTextFromOcrJson_try w json EmptyString)
    as [[[]|e|code] text]; agree_auto.
Qed.

Lemma agree_combineShards files : forall combined,
  agree (combineShards w files combined) (combineShards w' files combined).
Proof.
  induction files as [|file rest IH]; intros combined.
  - apply agree_ret.
  - cbn [combineShards].
    destruct (negb (endsWith (name file) ".json")); [apply IH|].
    apply agree_bind; [agree_auto|]. intros content.
    apply agree_bind; [|apply IH].
    apply agree_try_catch; [|intros e; agree_auto].
    apply agree_bind; [apply agree_lift|]. intros json.
    apply agree_bind; [apply agree_extractText|]. intros text.
    agree_auto.
Qed.

Lemma agree_extractClausesWithAI text :
  agree (extractClausesWithAI w text) (extractClausesWithAI w' text).
Proof.
  unfold extractClausesWithAI.
  change (openai_complete w') with (openai_complete w).
  change (parseAiResponse w') with (parseAiResponse w).
  agree_auto.
Qed.

Lemma agree_fs_step step : agree (fs_step w step) (fs_step w' step).
Proof. unfold fs_step. change (fs_ok w') with (fs_ok w). agree_auto. Qed.

Lemma agree_fs_write step data :
  agree (fs_writeFileSync w step data) (fs_writeFileSync w' step data).
Proof.
  unfold fs_writeFileSync.
  apply agree_bind; [apply agree_fs_step | intros; apply agree_emit].
Qed.

Lemma agree_extractKnowledge gsUri id :
  agree (extractKnowledge w gsUri id) (extractKnowledge w' gsUri id).
Proof.
  unfold extractKnowledge, onExtractionError.
  change (storage_getFiles w') with (storage_getFiles w).
  apply agree_try_catch; [|intros e; agree_auto].
  apply agree_bind; [apply agree_update|]. intros _.
  apply agree_bind; [apply agree_lift|]. intros [bucket sourcePath].
  apply agree_bind; [agree_auto|]. intros files.
  apply agree_bind; [apply agree_combineShards|]. intros combinedText.
  apply agree_bind; [apply agree_fs_step|]. intros _.
  apply agree_bind; [apply agree_fs_write|]. intros _.
  apply agree_bind; [apply agree_extractClausesWithAI|]. intros clauses.
  apply agree_bind; [apply agree_fs_write|]. intros _.
  apply agree_bind; [apply agree_fs_write|]. intros _.
  apply agree_update.
Qed.

Lemma agree_script args : agree (script w args) (script w' args).
Proof.
  unfold script. destruct args as [|id [|gsUri rest]]; try agree_auto.
  apply agree_extractKnowledge.
Qed.

Lemma agree_runExtractKnowledge id gcsUri :
  agree (ProcessDocument.runExtractKnowledge w id gcsUri)
        (ProcessDocument.runExtractKnowledge w' id gcsUri).
Proof.
  intros tr tr' H. unfold ProcessDocument.runExtractKnowledge.
  pose proof (agree_script [id; gcsUri] tr tr' H) as Hs.
  destruct (script w [id; gcsUri] tr) as [o tr1],
           (script w' [id; gcsUri] tr') as [o' tr1'].
  unfold control in Hs. simpl in Hs. injection Hs as <- Hflow.
  destruct o as [[]|e|code].
  - unfold control. simpl. now rewrite Hflow.
  - assert (Ha : agree (console_error (ExtractionExitCode 1);;
                        @throw Trace unit (Error "Knowledge extraction failed"))
                       (console_error (ExtractionExitCode 1);;
                        throw (Error "Knowledge extraction failed")))
      by agree_auto.
    exact (Ha tr1 tr1' Hflow).
  - destruct (code =? 0)%Z.
    + unfold control. simpl. now rewrite Hflow.
    + assert (Ha : agree (console_error (ExtractionExitCode code);;
                          @throw Trace unit (Error "Knowledge extraction failed"))
                         (console_error (ExtractionExitCode code);;
                          throw (Error "Knowledge extraction failed")))
        by agree_auto.
      exact (Ha tr1 tr1' Hflow).
Qed.

Lemma agree_main argv :
  agree (ProcessDocument.main w argv) (ProcessDocument.main w' argv).
Proof.
  unfold ProcessDocument.main, ProcessDocument.onProcessingError,
    ProcessDocument.extractTextFromPDF.
  change (ProcessDocument.outputUri w') with (ProcessDocument.outputUri w).
  change (vision_ocr w') with (vision_ocr w).
  destruct (argv !! 2) as [id|]; [|agree_auto].
  destruct (argv !! 3) as [gcsUri|]; [|agree_auto].
  destruct (isEmpty id || isEmpty gcsUri); [agree_auto|].
  apply agree_try_catch; [|intros e; agree_auto].
  apply agree_bind; [apply agree_pd_update|]. intros _.
  apply agree_bind; [agree_auto|]. intros resultMessage.
  apply agree_runExtractKnowledge.
Qed.

End SameWorldButAnswers.

(** C8: every status update is fire-and-forget: when the remote update
    fails the error is logged, [updateContractStatus] returns normally, a
    single request having been issued, and nothing that follows in the run
    depends on the answer: with any other answers of the record store the
    run ends the same way after the same steps. *)
Theorem status_updates_are_fire_and_forget :
  forall w,
    (forall contractId status clauses tr,
        let ok := axios_put_ok w (List.length (List.filter isPut tr)) in
        updateContractStatus w contractId status clauses tr
        = (Normal tt,
           tr ++ EvPut contractId (payloadOf status clauses) ok
              :: (if ok then [] else [EvConsole StatusUpdateFailed])))
    /\ (forall contractId status tr,
          let ok := axios_put_ok w (List.length (List.filter isPut tr)) in
          ProcessDocument.updateContractStatus w contractId status tr
          = (Normal tt,
             tr ++ EvPut contractId (statusOnly status) ok
                :: (if ok then [] else [EvConsole StatusUpdateFailed])))
    /\ (forall answers argv,
          control (ProcessDocument.main (withPutAnswers answers w) argv [])
          = control (ProcessDocument.main w argv [])).
Proof.
  intros w. split; [|split].
  - intros. apply updateContractStatus_run.
  - intros. apply pd_updateContractStatus_run.
  - intros answers argv. symmetry. now apply agree_main.
Qed.

End LostUpdates.

(** ** The record-update route *)

Section RecordUpdate.

Import ContractsRoute.



(** The store after an update of [contractId]: the other records are the
    same, and the record itself, when there is one, keeps its identity. *)
Lemma prisma_update_frame st contractId data r st' :
  prisma_contract_update st contractId data = (r, st') ->
  db_available st' = db_available st
  /\ (forall other, other <> contractId ->
        contracts st' !! other = contracts st !! other)
  /\ (st' = st
      \/ exists c newStatus setI setT,
           contracts st !! contractId = Some c
           /\ data_status data = JStr newStatus
           /\ clauseUpdate (data_indemnificationText data) = Some setI
           /\ clauseUpdate (data_terminationText data) = Some setT
           /\ contracts st' !! contractId
              = Some {| id := id c; fileName := fileName c;
                        uploadedAt := uploadedAt c;
                        indemnificationText := setI (indemnificationText c);
                        terminationText := setT (terminationText c);
                        status := default (status c)
                                    (statusOfString newStatus);
                        progress := progress c |}).
Proof.
  unfold prisma_contract_update.
  destruct (data_status data) as [| | | |s| |];
    try (intros [= <- <-]; auto).
  destruct (statusOfString s) as [newStatus|] eqn:Hs;
    [|intros [= <- <-]; auto].
  destruct (clauseUpdate (data_indemnificationText data)) as [setI|] eqn:Hi;
    [|intros [= <- <-]; auto].
  destruct (clauseUpdate (data_terminationText data)) as [setT|] eqn:Ht;
    [|intros [= <- <-]; auto].
  destruct (db_available st) eqn:Hdb; [|intros [= <- <-]; auto].
  destruct (contracts st !! contractId) as [c|] eqn:Hc;
    [|intros [= <- <-]; auto].
  intros [= <- <-]. simpl. split; [auto|]. split.
  - intros other Hne. now rewrite lookup_insert_ne.
  - right. exists c, s, setI, setT. rewrite Hs, lookup_insert_eq. auto.
Qed.

(** Either the handler leaves the store as it is, or it has read a truthy
    status and both clause fields and passed them to the update. *)
Lemma PUT_cases st contractId body :
  snd (PUT st contractId body) = st
  \/ exists data dataStatus i t r,
       body = Some data
       /\ getProp data "status" = inr dataStatus
       /\ truthy dataStatus = true
       /\ getProp data "indemnificationText" = inr i
       /\ getProp data "terminationText" = inr t
       /\ prisma_contract_update st contractId
            {| data_status := dataStatus;
               data_indemnificationText := truthyField i;
               data_terminationText := truthyField t |}
          = (r, snd (PUT st contractId body)).
Proof.
  unfold PUT. destruct body as [data|]; [|now left].
  destruct (getProp data "status") as [e|dataStatus] eqn:Hs; [now left|].
  destruct (truthy dataStatus) eqn:Ht; [|now left]. simpl negb. cbv iota.
  destruct (getProp data "indemnificationText") as [e|i] eqn:Hi;
    [now left|].
  destruct (getProp data "terminationText") as [e|t] eqn:Htt; [now left|].
  right. exists data, dataStatus, i, t.
  destruct (prisma_contract_update st contractId _) as [r st'] eqn:Hu.
  exists r. repeat (split; [reflexivity|]).
  now destruct r as [[]|c].
Qed.


(** A request that carries the status alone leaves every stored clause as
    it was, whatever the handler answers. *)
Lemma PUT_status_only_keeps_clauses st contractId p :
  carriesNoClause p ->
  sameClauses st (snd (PUT st contractId (Some (payloadJson p)))).
Proof.
  intros [Hi Ht] key c Hc.
  destruct (PUT_cases st contractId (Some (payloadJson p)))
    as [->|(data & dataStatus & i & t & r & [= <-] & _ & _ & Hgi & Hgt & Hu)];
    [exists c; auto|].
  unfold payloadJson in Hgi, Hgt. rewrite Hi, Ht in Hgi, Hgt.
  simpl in Hgi, Hgt. injection Hgi as <-. injection Hgt as <-.
  destruct (prisma_update_frame _ _ _ _ _ Hu)
    as (_ & Hother & [->|(c0 & s & setI & setT & Hc0 & _ & HsetI & HsetT & Hc')]);
    [exists c; auto|].
  simpl in HsetI, HsetT. injection HsetI as <-. injection HsetT as <-.
  destruct (decide (key = contractId)) as [->|Hne].
  - assert (c0 = c) as -> by congruence. eexists. split; [exact Hc'|]. auto.
  - exists c. rewrite (Hother key Hne). auto.
Qed.

End RecordUpdate.

(** ** The pipeline: what a failed run leaves in the record store *)

(** C2: a run that fails during the OCR stage issues the status [failed]
    with neither clause in any update; a run that completes issues the
    status [completed] with both clauses in that same update; no update of
    a run that ends in [failed] carries a clause, so that the record-update
    route, given any of them, leaves every stored clause as it was. *)
Theorem failed_runs_write_no_clause :
  forall w argv,
    let tr := snd (ProcessDocument.main w argv []) in
    (forall id gcsUri,
        argv !! 2 = Some id -> argv !! 3 = Some gcsUri ->
        id <> EmptyString -> gcsUri <> EmptyString ->
        vision_ocr w gcsUri (ProcessDocument.outputUri w id) = false ->
        payloads tr = [statusOnly "processing"; statusOnly "failed"]
        /\ Forall carriesNoClause (payloads tr))
    /\ (finalStatus tr = Some "completed" ->
        exists i t before,
          payloads tr = before ++ [withClauses "completed" i t]
          /\ Forall carriesNoClause before)
    /\ (finalStatus tr = Some "failed" ->
        Forall carriesNoClause (payloads tr)
        /\ forall p st contractId,
             In p (payloads tr) ->
             ContractsRoute.sameClauses st
               (snd (ContractsRoute.PUT st contractId
                       (Some (ContractsRoute.payloadJson p))))).
Proof.
  intros w argv tr. unfold finalStatus.
  assert (Plain : forall s, carriesNoClause (statusOnly s)) by (now split).
  split.
  { intros id gcsUri H2 H3 Hid Huri Hocr. unfold tr.
    rewrite (main_ocr_failure w argv id gcsUri H2 H3 Hid Huri Hocr).
    split; [reflexivity | repeat constructor]. }
  assert (Stored : forall ps : list Payload,
             Forall carriesNoClause ps ->
             forall p st contractId,
               In p ps ->
               ContractsRoute.sameClauses st
                 (snd (ContractsRoute.PUT st contractId
                         (Some (ContractsRoute.payloadJson p))))).
  { intros ps Hall p st contractId Hin.
    apply PUT_status_only_keeps_clauses.
    rewrite Forall_forall in Hall. apply Hall. now apply list_elem_of_In. }
  destruct (main_writes w argv)
    as [H|[(id & gcsUri & _ & _ & _ & H)|[(i & t & H)|H]]];
    fold tr in H; rewrite H; simpl last; split.
  - discriminate.
  - discriminate.
  - discriminate.
  - intros _. split; [|apply Stored]; repeat constructor; apply Plain.
  - intros _.
    exists i, t, [statusOnly "processing"; statusOnly "extracting"].
    split; [reflexivity | repeat constructor].
  - discriminate.
  - discriminate.
  - intros _. split; [|apply Stored]; repeat constructor; apply Plain.
Qed.

(** ** Malformed shards *)

Section MalformedShards.

Import ExtractKnowledge.

Variable w : World.






End MalformedShards.


(** ** The properties at concrete documents *)

Lemma extractClausesWithAI_full_fallback_witness :
  let w := refWorld [] (CompletionContent (Some proseAnswer)) in
  ExtractKnowledge.parseAiResponse w proseAnswer = inl SyntaxError
  /\ exists line,
       ExtractKnowledge.extractClausesWithAI w sampleContract []
       = (Normal (ExtractKnowledge.asValues
                    (ExtractKnowledge.extractClausesWithKeywords
                       sampleContract)),
          [] ++ [EvConsole line]).
Proof.
  cbv zeta. split; [vm_compute; reflexivity|].
  apply (proj2 (proj2 (proj2
           (extractClausesWithAI_full_fallback
              (refWorld [] (CompletionContent (Some proseAnswer)))
              sampleContract [])))).
  right; right. exists proseAnswer. split; vm_compute; reflexivity.
Defined.

Lemma failed_runs_write_no_clause_witness :
  payloads (snd (ProcessDocument.main ocrDownWorld sampleArgv []))
  = [statusOnly "processing"; statusOnly "failed"]
  /\ (exists i t before,
        payloads (snd (ProcessDocument.main
                         (refWorld [helloShardFile]
                            (CompletionContent (Some clauseAnswer)))
                         sampleArgv []))
        = before ++ [withClauses "completed" i t]
        /\ Forall carriesNoClause before)
  /\ Forall carriesNoClause
       (payloads (snd (ProcessDocument.main listingDownWorld sampleArgv []))).
Proof.
  split; [|split].
  - apply (proj1 (failed_runs_write_no_clause ocrDownWorld sampleArgv)
             "contract-42"
             "gs://fb_dioptra_process/input/1711296000000-msa.pdf");
      try reflexivity; discriminate.
  - apply (proj1 (proj2 (failed_runs_write_no_clause
                           (refWorld [helloShardFile]
                              (CompletionContent (Some clauseAnswer)))
                           sampleArgv))).
    vm_compute. reflexivity.
  - apply (proj1 (proj2 (proj2 (failed_runs_write_no_clause listingDownWorld
                                  sampleArgv))
                    ltac:(vm_compute; reflexivity))).
Defined.

Lemma direct_path_concatenates_annotations_witness :
  let w := refWorld [helloShardFile] CompletionFails in
  JSON_parse w helloShardText = Some helloShard
  /\ (exists combinedText,
        ExtractKnowledge.combineShards w [helloShardFile] EmptyString []
        = (Normal combinedText, [])
        /\ trim combinedText = "Hello World")
  /\ ExtractKnowledge.extractTextFromOcrJson w twoPageShard []
     = (Normal (trim (join LFLF ["Page one"; "Page two"])), []).
Proof.
  cbv zeta. split; [vm_compute; reflexivity|]. split.
  - apply (proj2 (proj2 (proj2
             (direct_path_concatenates_annotations
                (refWorld [helloShardFile] CompletionFails))))
             helloShardFile helloShardText []);
      vm_compute; reflexivity.
  - apply (proj1 (direct_path_concatenates_annotations
                    (refWorld [helloShardFile] CompletionFails))
             twoPageShard
             [JObj [("fullTextAnnotation", JObj [("text", JStr "Page one")])];
              JObj [("fullTextAnnotation", JObj [("text", JStr "Page two")])]]
             ["Page one"; "Page two"] [] eq_refl).
    + repeat constructor.
      * now exists (JObj [("text", JStr "Page one")]).
      * now exists (JObj [("text", JStr "Page two")]).
    + repeat constructor; discriminate.
Defined.


Lemma structural_walk_reconstructs_text_witness :
  ExtractKnowledge.extractTextFromOcrJson (refWorld [] CompletionFails)
    twoWordShard []
  = (Normal (trim (OcrLayout.documentText
                     [[[[chars "word1"; chars "word2"]]]])), []).
Proof.
  apply (proj1 (structural_walk_reconstructs_text
                  (refWorld [] CompletionFails))
           twoWordShard _ _ JUndefined
           [[[[chars "word1"; chars "word2"]]]] []
           eq_refl eq_refl eq_refl eq_refl eq_refl eq_refl).
Defined.



Lemma structural_walk_reads_first_response_witness :
  ExtractKnowledge.extractTextFromOcrJson (refWorld [] CompletionFails)
    twoResponseShard []
  = ExtractKnowledge.extractTextFromOcrJson (refWorld [] CompletionFails)
      (layoutShard [[[[chars "first"]]]]) [].
Proof.
  apply (proj1 (structural_walk_reads_first_response
                  (refWorld [] CompletionFails)
                  twoResponseShard (layoutShard [[[[chars "first"]]]])
                  _ _ [] eq_refl eq_refl eq_refl)).
  reflexivity.
Defined.

(** ** Runs on concrete documents *)

Example split_blank_lines :
  split ("a" +:+ LFLF +:+ "b" +:+ LF +:+ LFLF +:+ "c" +:+ LFLF) LFLF
  = ["a"; "b"; LF +:+ "c"; EmptyString].
Proof. reflexivity. Qed.

Example split_empty_text : split EmptyString LFLF = [EmptyString].
Proof. reflexivity. Qed.

Example trim_both_ends :
  trim (LF +:+ "  word1 word2 " +:+ LF +:+ LFLF) = "word1 word2".
Proof. reflexivity. Qed.

Example lower_case_mixed :
  toLowerCase "At Will; INDEMNIFY" = "at will; indemnify".
Proof. reflexivity. Qed.

Example brace_pattern_greedy :
  ExtractKnowledge.matchJsonObject "Here: {a} and {b}. Done"
  = Some "{a} and {b}".
Proof. reflexivity. Qed.

Example parse_hello_shard : RefJson.parse helloShardText = Some helloShard.
Proof. vm_compute. reflexivity. Qed.

Example parse_rejects_prose : RefJson.parse proseAnswer = None.
Proof. vm_compute. reflexivity. Qed.

(** The end-to-end scenario of the specification. *)
Example keywords_on_sample_contract :
  ExtractKnowledge.extractClausesWithKeywords sampleContract
  = {| indemnificationText :=
         "The vendor shall indemnify the client for any data breach.";
       terminationText :=
         "This Agreement may be terminated for convenience by either party." |}.
Proof. vm_compute. reflexivity. Qed.

(** Only the first of two responses is walked. *)
Example two_responses_first_only :
  ExtractKnowledge.extractTextFromOcrJson (refWorld [] CompletionFails)
    twoResponseShard []
  = (Normal "first", []).
Proof. vm_compute. reflexivity. Qed.

(** An object that looks like an array is walked by its [length]. *)
Example array_like_pages :
  ExtractKnowledge.extractTextFromOcrJson (refWorld [] CompletionFails)
    (JObj [("responses",
            JArr [JObj [("fullTextAnnotation",
                         JObj [("pages",
                                JObj [("length", JNum 1);
                                      ("0", OcrLayout.pageJson
                                              [[[chars "page"]]])])])]])]) []
  = (Normal "page", []).
Proof. vm_compute. reflexivity. Qed.

(** A complete run: one shard, an answer with both clauses. *)
Example run_completes :
  payloads (snd (ProcessDocument.main
                   (refWorld [helloShardFile]
                      (CompletionContent (Some clauseAnswer)))
                   sampleArgv []))
  = [statusOnly "processing"; statusOnly "extracting";
     withClauses "completed" (JStr "Vendor shall indemnify Client.")
       (JStr "Either party may terminate for convenience.")].
Proof. vm_compute. reflexivity. Qed.

(** The same run with the record store refusing every update: the same
    requests are issued, each failure is logged, the run ends the same. *)
Example run_with_store_down :
  payloads (snd (ProcessDocument.main
                   (withPutAnswers (fun _ => false)
                      (refWorld [helloShardFile]
                         (CompletionContent (Some clauseAnswer))))
                   sampleArgv []))
  = [statusOnly "processing"; statusOnly "extracting";
     withClauses "completed" (JStr "Vendor shall indemnify Client.")
       (JStr "Either party may terminate for convenience.")].
Proof. vm_compute. reflexivity. Qed.

(** A run whose listing of the bucket fails: [failed] from both
    processes. *)
Example run_fails_in_extraction :
  payloads (snd (ProcessDocument.main listingDownWorld sampleArgv []))
  = [statusOnly "processing"; statusOnly "extracting";
     statusOnly "failed"; statusOnly "failed"].
Proof. vm_compute. reflexivity. Qed.

(** * Further properties of the code *)

(** ** Storage URIs *)

Section StorageUris.

Import ExtractKnowledge.

Implicit Types s cur : string.

Lemma prefix_empty s : String.prefix EmptyString s = true.
Proof. now destruct s. Qed.

Lemma prefix_char c d s :
  String.prefix (String c EmptyString) (String d s) = Ascii.eqb c d.
Proof.
  simpl. destruct (ascii_dec c d) as [->|ne].
  - now rewrite prefix_empty, Ascii.eqb_refl.
  - symmetry. now apply Ascii.eqb_neq.
Qed.

Lemma includes_char_cons c d s :
  includes (String d s) (String c EmptyString)
  = Ascii.eqb c d || includes s (String c EmptyString).
Proof. now rewrite includes_unfold, prefix_char. Qed.

Lemma includes_char_app c s (t : string) :
  includes (s +:+ t) (String c EmptyString)
  = includes s (String c EmptyString) || includes t (String c EmptyString).
Proof.
  induction s as [|d s IH]; [reflexivity|].
  now rewrite string_app_cons, !includes_char_cons, IH, orb_assoc.
Qed.

Lemma split_go_char c d s cur :
  split_go (String c EmptyString) (String d s) cur 0
  = if Ascii.eqb c d
    then cur :: split_go (String c EmptyString) s EmptyString 0
    else split_go (String c EmptyString) s (cur +:+ String d EmptyString) 0.
Proof. now rewrite split_go_cons, prefix_char. Qed.

(** Up to the first separator the scan only gathers the piece. *)
Lemma split_go_first c b : forall cur rest,
  includes b (String c EmptyString) = false ->
  split_go (String c EmptyString) (b +:+ String c rest) cur 0
  = (cur +:+ b) :: split_go (String c EmptyString) rest EmptyString 0.
Proof.
  induction b as [|d b IH]; intros cur rest H.
  - rewrite string_app_nil_l, split_go_char, Ascii.eqb_refl.
    now rewrite string_app_nil_r.
  - rewrite includes_char_cons in H. apply orb_false_iff in H as [Hd Hb].
    rewrite string_app_cons, split_go_char, Hd, IH by assumption.
    now rewrite string_app_assoc.
Qed.

Lemma split_go_single c b : forall cur,
  includes b (String c EmptyString) = false ->
  split_go (String c EmptyString) b cur 0 = [cur +:+ b].
Proof.
  induction b as [|d b IH]; intros cur H.
  - simpl. now rewrite string_app_nil_r.
  - rewrite includes_char_cons in H. apply orb_false_iff in H as [Hd Hb].
    rewrite split_go_char, Hd, IH by assumption.
    now rewrite string_app_assoc.
Qed.

(** The first piece holds no separator. *)
Lemma split_go_head c s : forall cur h t,
  includes cur (String c EmptyString) = false ->
  split_go (String c EmptyString) s cur 0 = h :: t ->
  includes h (String c EmptyString) = false.
Proof.
  induction s as [|d s IH]; intros cur h t Hcur.
  - simpl. now intros [= <- _].
  - rewrite split_go_char. destruct (Ascii.eqb c d) eqn:Hd.
    + now intros [= <- _].
    + apply IH. rewrite includes_char_app, Hcur, includes_char_cons, Hd.
      reflexivity.
Qed.

Lemma parseGsUri_gs rest :
  parseGsUri ("gs://" +:+ rest)
  = inr (default EmptyString (head (split rest "/")),
         join "/" (tail (split rest "/"))).
Proof.
  unfold parseGsUri, startsWith.
  now rewrite (prefix_app "gs://" rest).
Qed.

(** X1: a URI written as [gs://], a bucket name without slash, a slash
    and any path is read back as that bucket and that path, whatever
    slashes the path holds; without the slash and the path, as the bucket
    and the empty path. *)
Theorem parseGsUri_reads_bucket_and_path :
  forall bucket path,
    includes bucket "/" = false ->
    parseGsUri ("gs://" +:+ bucket +:+ "/" +:+ path) = inr (bucket, path)
    /\ parseGsUri ("gs://" +:+ bucket) = inr (bucket, EmptyString).
Proof.
  intros bucket path H. rewrite !parseGsUri_gs. unfold split. split.
  - change ("/" +:+ path) with (String "/" path).
    rewrite (split_go_first "/" bucket EmptyString path H).
    cbn [head tail default from_option id]. rewrite string_app_nil_l.
    fold (split path "/"). now rewrite join_split.
  - now rewrite (split_go_single "/" bucket EmptyString H).
Qed.

(** X2: [parseGsUri] refuses exactly the URIs that do not start with
    [gs://]; the bucket it returns holds no slash, and the URI is [gs://],
    the bucket, and then either nothing (the path being empty) or a slash
    and the path. *)
Theorem parseGsUri_result_rebuilds_uri :
  forall uri,
    match parseGsUri uri with
    | inl _ => startsWith uri "gs://" = false
    | inr (bucket, path) =>
        startsWith uri "gs://" = true
        /\ includes bucket "/" = false
        /\ (uri = "gs://" +:+ bucket +:+ "/" +:+ path
            \/ (path = EmptyString /\ uri = "gs://" +:+ bucket))
    end.
Proof.
  intros uri. destruct (startsWith uri "gs://") eqn:Hp.
  - pose proof Hp as Hq. unfold startsWith in Hq.
    apply prefix_inv in Hq as [rest ->].
    rewrite parseGsUri_gs. split; [reflexivity|].
    pose proof (join_split rest "/" ltac:(discriminate)) as Hjoin.
    unfold split in *.
    destruct (split_go "/" rest EmptyString 0) as [|h t] eqn:Hs;
      [now destruct (split_go_nonempty "/" rest EmptyString 0)|].
    cbn [head tail default from_option id].
    split; [exact (split_go_head "/"%char rest EmptyString h t eq_refl Hs)|].
    destruct t as [|h' t'].
    + right. simpl in Hjoin. now subst.
    + left. rewrite join_cons in Hjoin by discriminate. now rewrite Hjoin.
  - unfold parseGsUri. now rewrite Hp.
Qed.

End StorageUris.

(** ** The direct method on responses without text *)

Section ResponsesWithoutText.

Import ExtractKnowledge.

Variable w : World.

Lemma directResponse_skips response acc :
  carriesNoText response -> directResponse response acc = (Normal tt, acc).
Proof.
  intros (fta & Hfta & Hno). unfold directResponse. rewrite Hfta. prog_simpl.
  destruct Hno as [Hf|(text & Htext & Hf)].
  - now rewrite Hf.
  - destruct (truthy fta); [|reflexivity].
    rewrite Htext. prog_simpl. now rewrite Hf.
Qed.

Lemma direct_loop_present responses texts : forall acc,
  Forall2 responseText responses texts ->
  for_of responses directResponse acc
  = (Normal tt, acc +:+ buffer (present texts)).
Proof.
  intros acc H. revert acc.
  induction H as [|r [t|] rs ts Hr _ IH]; intros acc.
  - simpl. prog_simpl. now rewrite string_app_nil_r.
  - destruct Hr as [Hr Ht].
    rewrite for_of_cons, (direct_response_text r t acc Hr Ht), IH.
    unfold present. simpl. now rewrite !string_app_assoc.
  - rewrite for_of_cons, (directResponse_skips r acc Hr), IH. reflexivity.
Qed.

Lemma present_nonempty responses texts :
  Forall2 responseText responses texts ->
  Forall (fun t => t <> EmptyString) (present texts).
Proof.
  induction 1 as [|r [t|] rs ts Hr _ IH]; unfold present; simpl.
  - constructor.
  - constructor; [exact (proj2 Hr) | exact IH].
  - exact IH.
Qed.

(** X3: in the direct method a response without full-text annotation, or
    whose annotation has no text, is passed over: as soon as one response
    of the shard carries a text, the result is the texts that are there,
    in order, separated by blank lines and trimmed, and the page structure
    is not consulted. *)
Theorem direct_path_passes_over_responses_without_text :
  forall shard responses texts tr,
    getProp shard "responses" = inr (JArr responses) ->
    Forall2 responseText responses texts ->
    present texts <> [] ->
    extractTextFromOcrJson w shard tr
    = (Normal (trim (join LFLF (present texts))), tr).
Proof.
  intros shard responses texts tr Hs Hall Hsome.
  unfold extractTextFromOcrJson, extractTextFromOcrJson_try.
  assert (Hd : directPath shard EmptyString
               = (Normal tt, buffer (present texts))).
  { unfold directPath. rewrite Hs. prog_simpl. simpl.
    now rewrite (direct_loop_present responses texts EmptyString Hall). }
  rewrite (bind_normal _ _ _ _ _ Hd).
  pose proof (present_nonempty responses texts Hall) as Hne.
  destruct (present texts) as [|t ts]; [congruence|].
  inversion Hne; subst. unfold structuralWalk.
  rewrite buffer_nonempty by assumption.
  prog_simpl. rewrite buffer_join by discriminate.
  now rewrite trim_app_blank.
Qed.

(** X4: a shard that parses to a value without a usable [responses]
    entry adds nothing to the combined text and is reported as holding no
    text; a shard that parses to [null] is reported as an extraction error
    as well; in both cases the loop goes on with the files that follow. *)
Theorem shard_without_responses_adds_nothing :
  forall (file : GcsFile) rest content json combined tr,
    endsWith (name file) ".json" = true ->
    download file = Some content ->
    JSON_parse w content = Some json ->
    (forall responses,
        getProp json "responses" = inr responses ->
        truthy responses = false ->
        combineShards w (file :: rest) combined tr
        = combineShards w rest combined
            (tr ++ [EvConsole (NoTextInShard (name file))]))
    /\ (json = JNull ->
        combineShards w (file :: rest) combined tr
        = combineShards w rest combined
            (tr ++ [EvConsole OcrJsonError;
                    EvConsole (NoTextInShard (name file))])).
Proof.
  intros file rest content json combined tr Hname Hdl Hparse. split.
  - intros responses Hr Hf.
    cbn [combineShards]. rewrite Hname, Hdl. prog_simpl.
    unfold try_catch, parseJson. rewrite Hparse. prog_simpl.
    unfold extractTextFromOcrJson, extractTextFromOcrJson_try, directPath,
      structuralWalk.
    rewrite Hr. prog_simpl. rewrite Hf. prog_simpl. reflexivity.
  - intros ->.
    cbn [combineShards]. rewrite Hname, Hdl. prog_simpl.
    unfold try_catch, parseJson. rewrite Hparse. prog_simpl.
    change (extractTextFromOcrJson w JNull tr)
      with (Normal EmptyString, tr ++ [EvConsole OcrJsonError]).
    cbn [isEmpty]. cbv beta iota. unfold console_error, emit. prog_simpl.
    now rewrite <- app_assoc.
Qed.

End ResponsesWithoutText.

(** ** The loop over the listed files *)

Section CombinedText.

Import ExtractKnowledge.

Variable w : World.

Lemma console_only_projections logs :
  forallb isConsole logs = true -> payloads logs = [] /\ fileWrites logs = [].
Proof.
  induction logs as [|[] logs IH]; simpl; try discriminate; auto.
Qed.

Lemma console_only_app logs logs' :
  forallb isConsole logs = true -> forallb isConsole logs' = true ->
  forallb isConsole (logs ++ logs') = true.
Proof. intros H H'. now rewrite forallb_app, H, H'. Qed.

Lemma fileWrites_app tr tr' :
  fileWrites (tr ++ tr') = fileWrites tr ++ fileWrites tr'.
Proof. apply omap_app. Qed.

(** The text of a shard does not depend on what was logged before, and
    reading it writes to the console only. *)
Lemma extractTextFromOcrJson_text json tr :
  exists logs,
    extractTextFromOcrJson w json tr = (Normal (ocrText w json), tr ++ logs)
    /\ forallb isConsole logs = true.
Proof.
  unfold extractTextFromOcrJson, ocrText.
  destruct (extractTextFromOcrJson_try w json EmptyString)
    as [[[]|e|code] text]; simpl snd.
  - exists []. now rewrite app_nil_r.
  - now exists [EvConsole OcrJsonError].
  - exists []. now rewrite app_nil_r.
Qed.

(** One file of the listing. *)
Lemma combineShards_step (file : GcsFile) rest combined tr :
  (isJsonFile file = true -> download file <> None) ->
  exists logs,
    combineShards w (file :: rest) combined tr
    = combineShards w rest
        (combined +:+ buffer (omap (shardText w) [file])) (tr ++ logs)
    /\ forallb isConsole logs = true.
Proof.
  intros Hdl.
  assert (Hone : buffer (omap (shardText w) [file])
                 = match shardText w file with
                   | Some t => t +:+ LFLF
                   | None => EmptyString
                   end).
  { cbn [omap list_omap]. destruct (shardText w file); simpl;
      now rewrite ?string_app_nil_r. }
  rewrite Hone. clear Hone.
  cbn [combineShards]. unfold shardText, isJsonFile in *.
  destruct (endsWith (name file) ".json") eqn:Hname; cbn [negb].
  - destruct (download file) as [content|]; [|now destruct Hdl].
    prog_simpl. unfold try_catch, parseJson. cbn [mbind option_bind].
    destruct (JSON_parse w content) as [json|]; prog_simpl;
      cbn [option_bind].
    + destruct (extractTextFromOcrJson_text json tr) as (logs & -> & Hlogs).
      destruct (isEmpty (ocrText w json)) eqn:He.
      * unfold console_error, emit. prog_simpl.
        exists (logs ++ [EvConsole (NoTextInShard (name file))]).
        rewrite app_assoc, string_app_nil_r.
        split; [reflexivity|]. now apply console_only_app.
      * exists logs. auto.
    + unfold console_error, emit. prog_simpl.
      exists [EvConsole (ShardParseError (name file))].
      now rewrite string_app_nil_r.
  - exists []. now rewrite app_nil_r, string_app_nil_r.
Qed.

Lemma combineShards_skip (file : GcsFile) rest combined tr :
  isJsonFile file = false ->
  combineShards w (file :: rest) combined tr
  = combineShards w rest combined tr.
Proof.
  unfold isJsonFile. intros H. cbn [combineShards]. now rewrite H.
Qed.

Lemma buffer_app ts ts' : buffer (ts ++ ts') = buffer ts +:+ buffer ts'.
Proof.
  induction ts as [|t ts IH]; [reflexivity|].
  simpl. now rewrite IH, !string_app_assoc.
Qed.

Lemma combineShards_texts files : forall combined tr,
  downloadsSucceed files ->
  exists logs,
    combineShards w files combined tr
    = (Normal (combined +:+ buffer (omap (shardText w) files)), tr ++ logs)
    /\ forallb isConsole logs = true.
Proof.
  induction files as [|file rest IH]; intros combined tr Hall.
  - exists []. simpl. now rewrite app_nil_r, string_app_nil_r.
  - inversion Hall as [|? ? Hfile Hrest]; subst.
    destruct (combineShards_step file rest combined tr Hfile)
      as (logs1 & -> & H1).
    destruct (IH (combined +:+ buffer (omap (shardText w) [file]))
                (tr ++ logs1) Hrest) as (logs & -> & H).
    exists (logs1 ++ logs). rewrite app_assoc. split.
    + change (file :: rest) with ([file] ++ rest).
      now rewrite omap_app, buffer_app, string_app_assoc.
    + now apply console_only_app.
Qed.

(** X5: when every listed JSON file can be downloaded, the combined text
    is the texts of the files in the order of the listing, each followed
    by a blank line; a file that is not JSON, cannot be parsed or yields
    no text leaves nothing in it, not even the blank line; and the loop
    writes to the console only. *)
Theorem combined_text_is_the_shard_texts_in_order :
  forall files tr,
    downloadsSucceed files ->
    exists logs,
      combineShards w files EmptyString tr
      = (Normal (buffer (omap (shardText w) files)), tr ++ logs)
      /\ forallb isConsole logs = true.
Proof.
  intros files tr H.
  destruct (combineShards_texts files EmptyString tr H) as (logs & E & Hl).
  exists logs. now rewrite string_app_nil_l in E.
Qed.

(** X6: the files of the listing whose name does not end in [.json] are
    never read: the loop does the same, with the same result, on the
    listing with those files removed, so that even one that cannot be
    downloaded changes nothing. *)
Theorem non_json_files_are_never_read :
  forall files combined tr,
    combineShards w files combined tr
    = combineShards w (List.filter isJsonFile files) combined tr.
Proof.
  induction files as [|file rest IH]; intros combined tr; [reflexivity|].
  cbn [List.filter]. unfold isJsonFile at 1.
  destruct (endsWith (name file) ".json") eqn:Hname.
  - cbn [combineShards]. rewrite Hname. cbn [negb].
    prog_unfold.
    destruct (download file) as [content|]; [|reflexivity].
    destruct (try_catch _ _ tr) as [[combined'|e|code] tr1]; try reflexivity.
    apply IH.
  - rewrite combineShards_skip by exact Hname. apply IH.
Qed.

End CombinedText.

(** ** How a run of the extraction ends *)

Section ExtractionRuns.

Import ExtractKnowledge.

Variable w : World.

Lemma adds_refl tr : adds tr tr [] [].
Proof. split; now rewrite app_nil_r. Qed.

Lemma adds_trans tr tr1 tr2 puts files puts' files' :
  adds tr tr1 puts files -> adds tr1 tr2 puts' files' ->
  adds tr tr2 (puts ++ puts') (files ++ files').
Proof.
  intros [Hp Hf] [Hp' Hf']. split.
  - now rewrite Hp', Hp, <- app_assoc.
  - now rewrite Hf', Hf, <- app_assoc.
Qed.

Lemma adds_console tr logs :
  forallb isConsole logs = true -> adds tr (tr ++ logs) [] [].
Proof.
  intros [Hp Hf]%console_only_projections. split.
  - now rewrite payloads_app, Hp.
  - now rewrite fileWrites_app, Hf.
Qed.

Lemma adds_write tr step data :
  adds tr (tr ++ [EvWriteFile step data]) [] [(step, data)].
Proof.
  split.
  - now rewrite payloads_write, app_nil_r.
  - now rewrite fileWrites_app.
Qed.

Lemma updateContractStatus_adds contractId status clauses tr :
  exists tr',
    updateContractStatus w contractId status clauses tr = (Normal tt, tr')
    /\ adds tr tr' [payloadOf status clauses] [].
Proof.
  rewrite updateContractStatus_run. cbv zeta. eexists. split; [reflexivity|].
  split.
  - rewrite payloads_app. simpl. now destruct (axios_put_ok w _).
  - rewrite fileWrites_app. simpl.
    destruct (axios_put_ok w _); simpl; now rewrite app_nil_r.
Qed.

Lemma onExtractionError_adds id e tr :
  exists tr',
    onExtractionError w id e tr = (Exit 1, tr')
    /\ adds tr tr' [statusOnly "failed"] [].
Proof.
  unfold onExtractionError, console_error, emit. prog_simpl.
  destruct (updateContractStatus_adds id "failed" None
              (tr ++ [EvConsole ExtractionError])) as (tr' & -> & H).
  exists tr'. split; [reflexivity|].
  exact (adds_trans _ _ _ [] [] _ _
           (adds_console tr [EvConsole ExtractionError] eq_refl) H).
Qed.

(** The clauses the extractor gives do not depend on what was logged
    before, and the extractor writes to the console only. *)
Lemma extractClausesWithAI_clauses text tr :
  exists clauses logs,
    extractClausesWithAI w text tr = (Normal clauses, tr ++ logs)
    /\ fst (extractClausesWithAI w text []) = Normal clauses
    /\ forallb isConsole logs = true
    /\ truthy (indemnificationText clauses) = true
    /\ truthy (terminationText clauses) = true.
Proof.
  destruct (keywords_truthy text) as [Ki Kt].
  assert (Fallback : forall line,
    exists clauses logs,
      (Normal (asValues (extractClausesWithKeywords text)),
       tr ++ [EvConsole line]) = (Normal clauses, tr ++ logs)
      /\ @fst (Outcome (Clauses JsValue)) Trace
           (Normal (asValues (extractClausesWithKeywords text)),
            [] ++ [EvConsole line]) = Normal clauses
      /\ forallb isConsole logs = true
      /\ truthy (indemnificationText clauses) = true
      /\ truthy (terminationText clauses) = true).
  { intros line. eexists _, [EvConsole line].
    repeat (split; [reflexivity|]). auto. }
  unfold extractClausesWithAI, try_catch.
  destruct (openai_complete w (substringTo PROMPT_LIMIT text))
    as [|[[|c content]|]]; try apply Fallback.
  destruct (parseAiResponse w (String c content)) as [e|parsed];
    prog_simpl; [apply Fallback|].
  destruct (getProp parsed "indemnificationText") as [e|i];
    prog_simpl; [apply Fallback|].
  destruct (getProp parsed "terminationText") as [e|t];
    prog_simpl; [apply Fallback|].
  exists (fromParsed i t), []. rewrite app_nil_r.
  repeat (split; [reflexivity|]). split; apply js_or_truthy; reflexivity.
Qed.

Lemma downloads_succeed_or_not files :
  downloadsSucceed files
  \/ exists file,
       In file files /\ isJsonFile file = true /\ download file = None.
Proof.
  unfold downloadsSucceed.
  induction files as [|file rest [IH|(bad & Hin & Hbad)]].
  - left. constructor.
  - destruct (isJsonFile file) eqn:Hj.
    + destruct (download file) as [content|] eqn:Hd.
      * left. constructor; [congruence | exact IH].
      * right. exists file. split; [now left | auto].
    + left. constructor; [unfold isJsonFile in Hj; congruence | exact IH].
  - right. exists bad. split; [now right | exact Hbad].
Qed.

(** A file that cannot be downloaded ends the loop by an exception. *)
Lemma combineShards_download_failure files : forall combined tr,
  (exists file,
      In file files /\ isJsonFile file = true /\ download file = None) ->
  exists e tr',
    combineShards w files combined tr = (Throw e, tr')
    /\ adds tr tr' [] [].
Proof.
  induction files as [|file rest IH]; intros combined tr (bad & Hin & Hj & Hd);
    [destruct Hin|].
  destruct (isJsonFile file) eqn:Hjson.
  - destruct (download file) as [content|] eqn:Hdl.
    + destruct (combineShards_step w file rest combined tr) as (l1 & -> & H1);
        [congruence|].
      destruct (IH (combined +:+ buffer (omap (shardText w) [file]))
                  (tr ++ l1)) as (e & tr' & -> & H).
      { exists bad. destruct Hin as [->|Hin]; [congruence | auto]. }
      exists e, tr'. split; [reflexivity|].
      exact (adds_trans _ _ _ [] [] _ _ (adds_console tr l1 H1) H).
    + cbn [combineShards]. unfold isJsonFile in Hjson.
      rewrite Hjson, Hdl. cbn [negb]. prog_simpl.
      exists (Error "download failed"), tr. split; [reflexivity|].
      apply adds_refl.
  - rewrite combineShards_skip by exact Hjson. apply IH.
    exists bad. destruct Hin as [->|Hin]; [congruence | auto].
Qed.

Lemma extraction_fails id e tr tr1 files :
  adds tr tr1 [statusOnly "extracting"] files ->
  exists tr',
    onExtractionError w id e tr1 = (Exit 1, tr')
    /\ adds tr tr' [statusOnly "extracting"; statusOnly "failed"] files.
Proof.
  intros H1. destruct (onExtractionError_adds id e tr1) as (tr' & -> & H).
  exists tr'. split; [reflexivity|].
  pose proof (adds_trans _ _ _ _ _ _ _ H1 H) as Ht.
  now rewrite app_nil_r in Ht.
Qed.

(** X7: [extractKnowledge] never raises.  When it ends normally, the URI
    was a storage URI, the listing and every download of a JSON file
    succeeded and every local file operation too; the combined text
    written is the texts of the listed shards in order, the two clause
    files hold the clauses extracted from that text, and the same two
    clauses have been sent with the status [completed], after
    [extracting].  Otherwise it exits with code 1, [extracting] and then
    [failed] having been sent. *)
Theorem extraction_ends_completed_or_failed :
  forall gsUri id tr,
    match extractKnowledge w gsUri id tr with
    | (Normal _, tr') =>
        exists bucket sourcePath files clauses,
          parseGsUri gsUri = inr (bucket, sourcePath)
          /\ storage_getFiles w bucket sourcePath = Some files
          /\ downloadsSucceed files
          /\ (forall step, fs_ok w step = true)
          /\ fst (extractClausesWithAI w
                    (buffer (omap (shardText w) files)) [])
             = Normal clauses
          /\ adds tr tr'
               [statusOnly "extracting";
                withClauses "completed" (indemnificationText clauses)
                  (terminationText clauses)]
               [(WriteCombinedText,
                 JStr (buffer (omap (shardText w) files)));
                (WriteIndemnificationClause, indemnificationText clauses);
                (WriteTerminationClause, terminationText clauses)]
    | (Exit code, tr') =>
        code = 1%Z
        /\ payloads tr'
           = payloads tr ++ [statusOnly "extracting"; statusOnly "failed"]
    | (Throw _, _) => False
    end.
Proof.
  intros gsUri id tr.
  match goal with |- match ?r with _ => _ end => pattern r end.
  match goal with |- ?P _ => set (Post := P) end.
  assert (Failing : forall e tr1 files,
    adds tr tr1 [statusOnly "extracting"] files ->
    Post (onExtractionError w id e tr1)).
  { intros e tr1 files H1.
    destruct (extraction_fails id e tr tr1 files H1) as (tr' & -> & [Hp _]).
    unfold Post. auto. }
  assert (Completing : forall tr' bucket sourcePath files clauses,
    parseGsUri gsUri = inr (bucket, sourcePath) ->
    storage_getFiles w bucket sourcePath = Some files ->
    downloadsSucceed files ->
    (forall step, fs_ok w step = true) ->
    fst (extractClausesWithAI w (buffer (omap (shardText w) files)) [])
    = Normal clauses ->
    adds tr tr'
      [statusOnly "extracting";
       withClauses "completed" (indemnificationText clauses)
         (terminationText clauses)]
      [(WriteCombinedText, JStr (buffer (omap (shardText w) files)));
       (WriteIndemnificationClause, indemnificationText clauses);
       (WriteTerminationClause, terminationText clauses)] ->
    Post (Normal tt, tr')).
  { intros tr' bucket sourcePath files clauses. unfold Post.
    exists bucket, sourcePath, files, clauses. auto 10. }
  clearbody Post.
  unfold extractKnowledge, try_catch. prog_simpl.
  destruct (updateContractStatus_adds id "extracting" None tr)
    as (tr1 & -> & H1). change (payloadOf "extracting" None)
    with (statusOnly "extracting") in H1.
  destruct (parseGsUri gsUri) as [e|[bucket sourcePath]] eqn:Huri; prog_simpl;
    [now apply (Failing e tr1 [])|].
  destruct (storage_getFiles w bucket sourcePath) as [files|] eqn:Hfiles;
    prog_simpl; [|now apply (Failing _ tr1 [])].
  destruct (downloads_succeed_or_not files) as [Hdl|Hbad].
  2:{ destruct (combineShards_download_failure files EmptyString tr1 Hbad)
        as (e & tr2 & -> & H2).
      apply (Failing e tr2 []).
      pose proof (adds_trans _ _ _ _ _ _ _ H1 H2) as Ht.
      now rewrite !app_nil_r in Ht. }
  destruct (combineShards_texts w files EmptyString tr1 Hdl)
    as (logs & -> & Hlogs).
  rewrite string_app_nil_l.
  set (combinedText := buffer (omap (shardText w) files)).
  assert (H2 : adds tr (tr1 ++ logs) [statusOnly "extracting"] []).
  { pose proof (adds_trans _ _ _ _ _ _ _ H1 (adds_console tr1 logs Hlogs))
      as Ht. now rewrite !app_nil_r in Ht. }
  unfold fs_writeFileSync, fs_step, emit.
  destruct (fs_ok w PrepareOutputDir) eqn:F1; prog_simpl;
    [|now apply (Failing _ _ [])].
  destruct (fs_ok w WriteCombinedText) eqn:F2; prog_simpl;
    [|now apply (Failing _ _ [])].
  set (tr3 := (tr1 ++ logs) ++ _).
  assert (H3 : adds tr tr3 [statusOnly "extracting"]
                 [(WriteCombinedText, JStr combinedText)]).
  { pose proof (adds_trans _ _ _ _ _ _ _ H2
                  (adds_write (tr1 ++ logs) WriteCombinedText
                     (JStr combinedText))) as Ht.
    now rewrite !app_nil_r in Ht. }
  clearbody tr3.
  destruct (extractClausesWithAI_clauses combinedText tr3)
    as (clauses & logs' & -> & Hclauses & Hlogs' & Hi & Ht).
  assert (H4 : adds tr (tr3 ++ logs') [statusOnly "extracting"]
                 [(WriteCombinedText, JStr combinedText)]).
  { pose proof (adds_trans _ _ _ _ _ _ _ H3 (adds_console tr3 logs' Hlogs'))
      as Hx. now rewrite !app_nil_r in Hx. }
  destruct (fs_ok w WriteIndemnificationClause) eqn:F3; prog_simpl;
    [|now apply (Failing _ _ [(WriteCombinedText, JStr combinedText)])].
  set (tr5 := (tr3 ++ logs') ++ _).
  assert (H5 : adds tr tr5 [statusOnly "extracting"]
                 [(WriteCombinedText, JStr combinedText);
                  (WriteIndemnificationClause, indemnificationText clauses)]).
  { pose proof (adds_trans _ _ _ _ _ _ _ H4
                  (adds_write (tr3 ++ logs') WriteIndemnificationClause
                     (indemnificationText clauses))) as Hx.
    now rewrite !app_nil_r in Hx. }
  clearbody tr5.
  destruct (fs_ok w WriteTerminationClause) eqn:F4; prog_simpl;
    [|now apply (Failing _ _
                   [(WriteCombinedText, JStr combinedText);
                    (WriteIndemnificationClause,
                     indemnificationText clauses)])].
  set (tr6 := tr5 ++ _).
  assert (H6 : adds tr tr6 [statusOnly "extracting"]
                 [(WriteCombinedText, JStr combinedText);
                  (WriteIndemnificationClause, indemnificationText clauses);
                  (WriteTerminationClause, terminationText clauses)]).
  { pose proof (adds_trans _ _ _ _ _ _ _ H5
                  (adds_write tr5 WriteTerminationClause
                     (terminationText clauses))) as Hx.
    now rewrite !app_nil_r in Hx. }
  clearbody tr6.
  destruct (updateContractStatus_adds id "completed" (Some clauses) tr6)
    as (tr7 & -> & H7).
  apply (Completing tr7 bucket sourcePath files clauses);
    try assumption; try reflexivity; [now intros []|].
  pose proof (adds_trans _ _ _ _ _ _ _ H6 H7) as Hx.
  rewrite !app_nil_r in Hx. cbn [payloadOf] in Hx.
  unfold truthyField in Hx. rewrite Hi, Ht in Hx. exact Hx.
Qed.

(** X8: a failure before the text is assembled (a URI that is no storage
    URI, a listing that fails, a JSON file that cannot be downloaded)
    ends the run with code 1 after [extracting] and [failed], no local
    file having been written. *)
Theorem early_failure_writes_no_local_file :
  forall gsUri id tr,
    (startsWith gsUri "gs://" = false
     \/ exists bucket sourcePath,
          parseGsUri gsUri = inr (bucket, sourcePath)
          /\ (storage_getFiles w bucket sourcePath = None
              \/ exists files file,
                   storage_getFiles w bucket sourcePath = Some files
                   /\ In file files
                   /\ isJsonFile file = true
                   /\ download file = None)) ->
    exists tr',
      extractKnowledge w gsUri id tr = (Exit 1, tr')
      /\ adds tr tr' [statusOnly "extracting"; statusOnly "failed"] [].
Proof.
  intros gsUri id tr H.
  unfold extractKnowledge, try_catch. prog_simpl.
  destruct (updateContractStatus_adds id "extracting" None tr)
    as (tr1 & -> & H1). change (payloadOf "extracting" None)
    with (statusOnly "extracting") in H1.
  destruct H as [Hno|(bucket & sourcePath & Huri & H)].
  - unfold parseGsUri. rewrite Hno. prog_simpl.
    now apply extraction_fails.
  - rewrite Huri. prog_simpl. destruct H as [Hnone|(files & bad & Hsome & H)].
    + rewrite Hnone. prog_simpl. now apply extraction_fails.
    + rewrite Hsome. prog_simpl.
      destruct (combineShards_download_failure files EmptyString tr1)
        as (e & tr2 & -> & H2); [now exists bad|].
      apply extraction_fails.
      pose proof (adds_trans _ _ _ _ _ _ _ H1 H2) as Ht.
      now rewrite !app_nil_r in Ht.
Qed.

End ExtractionRuns.

(** ** How the two scripts end *)

Section ExitCodes.

Import ExtractKnowledge.

Variable w : World.

(** X9: the extraction script, run with its arguments, never lets an
    exception escape.  With fewer than two arguments it prints its usage
    and exits with code 1, no update having been issued; with two or more
    (the others being ignored) it ends normally exactly when the status
    [completed] has been sent with both clauses, and exits with code 1
    when [failed] has been.  The processing script, which runs it as a
    child and awaits its exit code, goes on in the first case and in the
    second logs the code and raises. *)
Theorem extraction_script_exit_code :
  forall args tr,
    match script w args tr with
    | (Normal _, tr') =>
        exists id gsUri rest i t,
          args = id :: gsUri :: rest
          /\ payloads tr'
             = payloads tr
                 ++ [statusOnly "extracting"; withClauses "completed" i t]
    | (Exit code, tr') =>
        code = 1%Z
        /\ ((List.length args < 2 /\ tr' = tr ++ [EvConsole UsageError])
            \/ exists id gsUri rest,
                 args = id :: gsUri :: rest
                 /\ payloads tr'
                    = payloads tr
                        ++ [statusOnly "extracting"; statusOnly "failed"])
    | (Throw _, _) => False
    end
    /\ forall id gcsUri,
         match script w [id; gcsUri] tr with
         | (Normal _, tr') =>
             ProcessDocument.runExtractKnowledge w id gcsUri tr
             = (Normal tt, tr')
         | (_, tr') =>
             ProcessDocument.runExtractKnowledge w id gcsUri tr
             = (Throw (Error "Knowledge extraction failed"),
                tr' ++ [EvConsole (ExtractionExitCode 1)])
         end.
Proof.
  intros args tr. split.
  - destruct args as [|id [|gsUri rest]]; unfold script;
      try (unfold console_error, emit; prog_simpl;
           split; [reflexivity|]; left; split; [simpl; lia | reflexivity]).
    unfold try_catch.
    destruct (extractKnowledge_writes w gsUri id tr)
      as [(i & t & tr' & -> & H)|(tr' & -> & H)].
    + now exists id, gsUri, rest, i, t.
    + split; [reflexivity|]. right. now exists id, gsUri, rest.
  - intros id gcsUri. unfold ProcessDocument.runExtractKnowledge.
    destruct (script_writes w id gcsUri tr)
      as [(i & t & tr' & -> & H)|(tr' & -> & H)]; reflexivity.
Qed.

Lemma pd_updateContractStatus_payloads contractId status tr :
  exists tr',
    ProcessDocument.updateContractStatus w contractId status tr
    = (Normal tt, tr')
    /\ payloads tr' = payloads tr ++ [statusOnly status].
Proof.
  rewrite pd_updateContractStatus_run. cbv zeta. eexists.
  split; [reflexivity|]. rewrite payloads_app. simpl.
  now destruct (axios_put_ok w _).
Qed.

(** X10: the processing script ends with code 1 only for want of its
    arguments, having printed its usage and issued no update; with both
    arguments it ends normally in every world, whether the document was
    completed or failed, and never lets an exception escape: the failure
    of a run shows in the status sent and not in the way the script
    ends. *)
Theorem processing_script_exit_code :
  forall argv tr,
    match ProcessDocument.main w argv tr with
    | (Normal _, tr') =>
        exists id gcsUri rest,
          argv !! 2 = Some id /\ argv !! 3 = Some gcsUri
          /\ id <> EmptyString /\ gcsUri <> EmptyString
          /\ payloads tr' = payloads tr ++ statusOnly "processing" :: rest
          /\ (finalStatus tr' = Some "completed"
              \/ finalStatus tr' = Some "failed")
    | (Exit code, tr') =>
        code = 1%Z
        /\ tr' = tr ++ [EvConsole UsageError]
        /\ (argv !! 2 = None \/ argv !! 3 = None
            \/ argv !! 2 = Some EmptyString \/ argv !! 3 = Some EmptyString)
    | (Throw _, _) => False
    end.
Proof.
  intros argv tr. unfold ProcessDocument.main.
  destruct (argv !! 2) as [id|] eqn:H2;
    [|unfold console_error, emit; prog_simpl; auto].
  destruct (argv !! 3) as [gcsUri|] eqn:H3;
    [|unfold console_error, emit; prog_simpl; auto].
  destruct id as [|c id];
    [unfold console_error, emit; prog_simpl; auto 6|].
  destruct gcsUri as [|d gcsUri];
    [unfold console_error, emit; prog_simpl; auto 6|].
  cbn [isEmpty orb]. unfold try_catch. prog_simpl.
  destruct (pd_updateContractStatus_payloads (String c id) "processing" tr)
    as (tr1 & -> & H1).
  unfold ProcessDocument.extractTextFromPDF.
  destruct (vision_ocr w _ _); prog_simpl.
  - destruct (runExtractKnowledge_writes w (String c id)
                (ProcessDocument.outputUri w (String c id)) tr1)
      as [(i & t & tr' & -> & H)|(e & tr' & -> & H)].
    + exists (String c id), (String d gcsUri).
      exists [statusOnly "extracting"; withClauses "completed" i t].
      repeat (split; [reflexivity || discriminate|]).
      rewrite H, H1, <- app_assoc. split; [reflexivity|].
      left. unfold finalStatus. rewrite H, last_app. reflexivity.
    + unfold ProcessDocument.onProcessingError, console_error, emit.
      prog_simpl.
      destruct (pd_updateContractStatus_payloads (String c id) "failed"
                  (tr' ++ [EvConsole ProcessingError])) as (tr2 & -> & H2').
      rewrite payloads_console, H, H1, <- !app_assoc in H2'.
      exists (String c id), (String d gcsUri).
      exists [statusOnly "extracting"; statusOnly "failed";
              statusOnly "failed"].
      repeat (split; [reflexivity || discriminate|]).
      split; [exact H2'|]. right. unfold finalStatus.
      rewrite H2', last_app. reflexivity.
  - unfold ProcessDocument.onProcessingError, console_error, emit.
    prog_simpl.
    destruct (pd_updateContractStatus_payloads (String c id) "failed"
                (tr1 ++ [EvConsole ProcessingError])) as (tr2 & -> & H2').
    rewrite payloads_console, H1, <- !app_assoc in H2'.
    exists (String c id), (String d gcsUri), [statusOnly "failed"].
    repeat (split; [reflexivity || discriminate|]).
    split; [exact H2'|]. right. unfold finalStatus.
    rewrite H2', last_app. reflexivity.
Qed.


End ExitCodes.

(** ** What the keyword extractor returns *)

Section KeywordResults.

Import ExtractKnowledge KeywordSpec.

Implicit Types s m x y : string.

Lemma isWhiteSpace_toLowerChar c :
  isWhiteSpace (toLowerChar c) = isWhiteSpace c.
Proof.
  destruct c as [[] [] [] [] [] [] [] []]; vm_compute; reflexivity.
Qed.

Lemma blank_toLowerCase s : blank (toLowerCase s) = blank s.
Proof.
  induction s as [|c s IH]; [reflexivity|].
  simpl. now rewrite isWhiteSpace_toLowerChar, IH.
Qed.

Lemma blank_app s (t : string) : blank (s +:+ t) = blank s && blank t.
Proof.
  induction s as [|c s IH]; [reflexivity|].
  rewrite string_app_cons. simpl. now rewrite IH, andb_assoc.
Qed.

(** Text made of white space includes only such text. *)
Lemma blank_includes s needle :
  blank s = true -> includes s needle = true -> blank needle = true.
Proof.
  intros Hs [a [b ->]]%includes_spec.
  rewrite !blank_app in Hs.
  now apply andb_true_iff in Hs as [_ [H _]%andb_true_iff].
Qed.

Lemma trimStart_nonblank s : blank s = false -> trimStart s <> EmptyString.
Proof.
  induction s as [|c s IH]; simpl; [discriminate|].
  destruct (isWhiteSpace c); [exact IH | discriminate].
Qed.

Lemma trimEnd_blank_inv s : trimEnd s = EmptyString -> blank s = true.
Proof.
  induction s as [|c s IH]; [reflexivity|]. simpl.
  destruct (trimEnd s) as [|d r]; [|discriminate].
  destruct (isWhiteSpace c); [auto | discriminate].
Qed.

Lemma trimStart_head s c r :
  trimStart s = String c r -> isWhiteSpace c = false.
Proof.
  induction s as [|d s IH]; simpl; [discriminate|].
  destruct (isWhiteSpace d) eqn:E; [exact IH|]. now intros [= <- _].
Qed.

Lemma trimStart_fixed c r :
  isWhiteSpace c = false -> trimStart (String c r) = String c r.
Proof. simpl. now intros ->. Qed.

Lemma trimEnd_cons c s :
  trimEnd (String c s)
  = if isEmpty (trimEnd s)
    then (if isWhiteSpace c then EmptyString else String c EmptyString)
    else String c (trimEnd s).
Proof. simpl. now destruct (trimEnd s). Qed.

Lemma trimEnd_app s (t : string) :
  trimEnd (s +:+ t)
  = if isEmpty (trimEnd t) then trimEnd s else s +:+ trimEnd t.
Proof.
  induction s as [|c s IH].
  - rewrite !string_app_nil_l. now destruct (trimEnd t).
  - rewrite string_app_cons, !trimEnd_cons, IH.
    destruct (trimEnd t) as [|d r]; [reflexivity|].
    cbn [isEmpty]. now destruct s.
Qed.

Lemma trimEnd_idem s : trimEnd (trimEnd s) = trimEnd s.
Proof.
  induction s as [|c s IH]; [reflexivity|].
  rewrite trimEnd_cons. destruct (trimEnd s) as [|d r] eqn:E.
  - cbn [isEmpty]. destruct (isWhiteSpace c) eqn:Hc; [reflexivity|].
    simpl. now rewrite Hc.
  - cbn [isEmpty]. rewrite trimEnd_cons, IH. reflexivity.
Qed.

(** A text is its trimmed text with white space around it. *)
Lemma trimStart_split s :
  exists l, blank l = true /\ s = l +:+ trimStart s.
Proof.
  induction s as [|c s (l & Hl & IH)]; [now exists EmptyString|].
  simpl. destruct (isWhiteSpace c) eqn:Hc.
  - exists (String c l). simpl. rewrite Hc, Hl. split; [reflexivity|].
    now rewrite string_app_cons, <- IH.
  - now exists EmptyString.
Qed.

Lemma trimEnd_split s :
  exists r, blank r = true /\ s = trimEnd s +:+ r.
Proof.
  induction s as [|c s (r & Hr & IH)]; [now exists EmptyString|].
  rewrite trimEnd_cons. destruct (trimEnd s) as [|d q] eqn:E.
  - cbn [isEmpty]. rewrite string_app_nil_l in IH. subst s.
    destruct (isWhiteSpace c) eqn:Hc.
    + exists (String c r). simpl. now rewrite Hc, Hr.
    + exists r. auto.
  - cbn [isEmpty]. exists r. split; [exact Hr|].
    now rewrite string_app_cons, <- IH.
Qed.

Lemma trim_nonblank s : blank s = false -> trim s <> EmptyString.
Proof.
  intros H E. unfold trim in E. apply trimEnd_blank_inv in E.
  destruct (trimStart_split s) as (l & Hl & Hs).
  rewrite Hs, blank_app, Hl, E in H. discriminate.
Qed.

(** A trimmed text that is not empty stays whole when the text around it
    is trimmed. *)
Lemma trim_keeps_trimmed x m y :
  trim m = m -> m <> EmptyString ->
  exists x' y', trim (x +:+ m +:+ y) = x' +:+ m +:+ y'.
Proof.
  intros Hm Hne.
  assert (Hstart : trimStart m = m).
  { destruct (trimStart m) as [|c r] eqn:E.
    - unfold trim in Hm. rewrite E in Hm. simpl in Hm. congruence.
    - pose proof (trimStart_head m c r E) as Hc.
      assert (Hhead : exists q, m = String c q).
      { unfold trim in Hm. rewrite E, trimEnd_cons in Hm.
        destruct (isEmpty (trimEnd r)); [rewrite Hc in Hm|]; eauto. }
      destruct Hhead as [q ->]. rewrite <- E. now apply trimStart_fixed. }
  assert (Hend : trimEnd m = m).
  { unfold trim in Hm. rewrite Hstart in Hm. exact Hm. }
  assert (Hmy : exists y', trimEnd (m +:+ y) = m +:+ y').
  { rewrite trimEnd_app. destruct (isEmpty (trimEnd y)).
    - exists EmptyString. now rewrite Hend, string_app_nil_r.
    - now exists (trimEnd y). }
  destruct Hmy as (y' & Hy').
  assert (Hx : exists x', trimStart (x +:+ m +:+ y) = x' +:+ m +:+ y).
  { rewrite trimStart_app. destruct (isEmpty (trimStart x)).
    - exists EmptyString. rewrite trimStart_app, Hstart.
      destruct m; [congruence | reflexivity].
    - now exists (trimStart x). }
  destruct Hx as (x' & Hx').
  exists x', y'. unfold trim. rewrite Hx', trimEnd_app, Hy'.
  destruct m; [congruence | reflexivity].
Qed.

Lemma trim_idem s : trim (trim s) = trim s.
Proof.
  unfold trim at 2 3. destruct (trimEnd (trimStart s)) as [|c r] eqn:E;
    [reflexivity|].
  assert (Hc : isWhiteSpace c = false).
  { destruct (trimStart s) as [|d q] eqn:Es; [discriminate|].
    pose proof (trimStart_head s d q Es) as Hd.
    rewrite trimEnd_cons in E.
    destruct (isEmpty (trimEnd q)); [rewrite Hd in E|]; now injection E as <-. }
  unfold trim. rewrite (trimStart_fixed c r Hc), <- E. apply trimEnd_idem.
Qed.

(** A paragraph that passes a test is not made of white space. *)
Lemma holds_nonblank p term :
  blank term = false -> holds p term = true -> blank p = false.
Proof.
  unfold holds. intros Hterm H. destruct (blank p) eqn:E; [|reflexivity].
  rewrite <- blank_toLowerCase in E.
  now rewrite (blank_includes _ _ E H) in Hterm.
Qed.

Lemma indemnificationParagraph_nonblank p :
  indemnificationParagraph p = true -> blank p = false.
Proof.
  unfold indemnificationParagraph. intros (term & Hin & H)%existsb_exists.
  apply (holds_nonblank p term); [|exact H].
  simpl in Hin. destruct Hin as [<-|[<-|[<-|[<-|[]]]]]; reflexivity.
Qed.

Lemma terminationParagraph_nonblank p :
  terminationParagraph p = true -> blank p = false.
Proof.
  unfold terminationParagraph. intros [H _]%andb_true_iff.
  now apply (holds_nonblank p "terminat").
Qed.

Lemma filter_none {A} (test : A -> bool) (l : list A) :
  (forall a, In a l -> test a = false) -> List.filter test l = [].
Proof.
  induction l as [|a l IH]; intros H; [reflexivity|]. simpl.
  rewrite (H a) by now left. apply IH. intros b Hb. apply H. now right.
Qed.

(** One field of the result, for a test no blank paragraph passes. *)
Lemma keyword_field (test : string -> bool) ps sentinel :
  (forall p, test p = true -> blank p = false) ->
  ((forall p, In p ps -> test p = false) ->
   orElse (trim (buffer (List.filter test ps))) sentinel = sentinel)
  /\ (forall p, In p ps -> test p = true ->
      orElse (trim (buffer (List.filter test ps))) sentinel
      = trim (buffer (List.filter test ps))
      /\ trim (buffer (List.filter test ps)) <> EmptyString
      /\ includes (trim (buffer (List.filter test ps))) (trim p) = true).
Proof.
  intros Hnb. split.
  - intros Hnone. now rewrite filter_none.
  - intros p Hin Hp.
    destruct (buffer_member test p ps Hin Hp) as (a & b & ->).
    destruct (trimStart_split p) as (l & _ & Hl).
    destruct (trimEnd_split (trimStart p)) as (r & _ & Hr).
    fold (trim p) in Hr.
    pose proof (trim_nonblank p (Hnb p Hp)) as Hne.
    assert (E : a +:+ p +:+ LFLF +:+ b
                = (a +:+ l) +:+ trim p +:+ (r +:+ LFLF +:+ b)).
    { rewrite Hl at 1. rewrite Hr at 1. now rewrite !string_app_assoc. }
    rewrite E.
    destruct (trim_keeps_trimmed (a +:+ l) (trim p) (r +:+ LFLF +:+ b)
                (trim_idem p) Hne) as (x' & y' & ->).
    split; [|split].
    + unfold orElse. destruct x'; [|reflexivity].
      rewrite string_app_nil_l. now destruct (trim p).
    + destruct x'; [|discriminate]. rewrite string_app_nil_l.
      now destruct (trim p).
    + apply includes_spec. now exists x', y'.
Qed.

(** X12: each field of the keyword extractor is its sentinel when no
    paragraph of the text passes the test of the field; as soon as one
    does, the field is the trimmed buffer, which is not empty and in which
    each paragraph that passes the test occurs, trimmed. *)
Theorem keyword_fields_sentinel_or_paragraphs :
  forall text,
    ((forall p, In p (paragraphs text) -> indemnificationParagraph p = false) ->
     indemnificationText (extractClausesWithKeywords text)
     = NO_INDEMNIFICATION)
    /\ ((forall p, In p (paragraphs text) -> terminationParagraph p = false) ->
        terminationText (extractClausesWithKeywords text) = NO_TERMINATION)
    /\ (forall p,
          In p (paragraphs text) -> indemnificationParagraph p = true ->
          indemnificationText (extractClausesWithKeywords text)
          = trim (indemnificationBuffer text)
          /\ indemnificationText (extractClausesWithKeywords text)
             <> EmptyString
          /\ includes (indemnificationText (extractClausesWithKeywords text))
               (trim p) = true)
    /\ (forall p,
          In p (paragraphs text) -> terminationParagraph p = true ->
          terminationText (extractClausesWithKeywords text)
          = trim (terminationBuffer text)
          /\ terminationText (extractClausesWithKeywords text) <> EmptyString
          /\ includes (terminationText (extractClausesWithKeywords text))
               (trim p) = true).
Proof.
  intros text.
  assert (Hres : extractClausesWithKeywords text
                 = {| indemnificationText :=
                        orElse (trim (indemnificationBuffer text))
                          NO_INDEMNIFICATION;
                      terminationText :=
                        orElse (trim (terminationBuffer text))
                          NO_TERMINATION |}).
  { unfold extractClausesWithKeywords, keywordBuffers.
    now rewrite keyword_fold. }
  rewrite Hres. cbn [indemnificationText terminationText].
  unfold indemnificationBuffer, terminationBuffer.
  destruct (keyword_field indemnificationParagraph (paragraphs text)
              NO_INDEMNIFICATION indemnificationParagraph_nonblank)
    as [Hi0 Hi1].
  destruct (keyword_field terminationParagraph (paragraphs text)
              NO_TERMINATION terminationParagraph_nonblank)
    as [Ht0 Ht1].
  split; [exact Hi0|]. split; [exact Ht0|]. split.
  - intros p Hin Hp. destruct (Hi1 p Hin Hp) as (E & Hne & Hinc).
    rewrite E. auto.
  - intros p Hin Hp. destruct (Ht1 p Hin Hp) as (E & Hne & Hinc).
    rewrite E. auto.
Qed.

End KeywordResults.

(** ** Reading the answer of the completion service *)

Section CompletionAnswers.

Import ExtractKnowledge.

Variable w : World.

Lemma upToLastBrace_none s :
  includes s "}" = false -> upToLastBrace s = None.
Proof.
  induction s as [|c s IH]; [reflexivity|].
  rewrite includes_char_cons. intros [Hc Hs]%orb_false_iff.
  cbn [upToLastBrace]. rewrite (IH Hs).
  rewrite Ascii.eqb_sym in Hc. now rewrite Hc.
Qed.

Lemma upToLastBrace_last mid after :
  includes after "}" = false ->
  upToLastBrace (mid +:+ "}" +:+ after) = Some (mid +:+ "}").
Proof.
  intros H. induction mid as [|c mid IH].
  - change (upToLastBrace (String "}" after) = Some "}").
    cbn [upToLastBrace]. now rewrite (upToLastBrace_none after H).
  - change (String c mid +:+ "}" +:+ after)
      with (String c (mid +:+ "}" +:+ after)).
    cbn [upToLastBrace]. now rewrite IH.
Qed.

Lemma upToLastBrace_inv s r :
  upToLastBrace s = Some r ->
  exists mid after,
    r = mid +:+ "}" /\ s = r +:+ after /\ includes after "}" = false.
Proof.
  revert r. induction s as [|c s IH]; intros r H; [discriminate|].
  cbn [upToLastBrace] in H. destruct (upToLastBrace s) as [r'|] eqn:E.
  - injection H as <-. destruct (IH r' eq_refl) as (mid & after & -> & Hs & Ha).
    exists (String c mid), after. split; [reflexivity|].
    split; [|exact Ha]. rewrite string_app_cons. now f_equal.
  - destruct (Ascii.eqb_spec c "}") as [->|]; [|discriminate].
    injection H as <-. exists EmptyString, s. split; [reflexivity|].
    split; [reflexivity|].
    clear IH. induction s as [|d s IH]; [reflexivity|].
    cbn [upToLastBrace] in E.
    destruct (upToLastBrace s); [discriminate|].
    destruct (Ascii.eqb d "}") eqn:Hd; [discriminate|].
    rewrite includes_char_cons, Ascii.eqb_sym, Hd. now apply IH.
Qed.

Lemma matchJsonObject_first before rest :
  includes before "{" = false ->
  matchJsonObject (before +:+ "{" +:+ rest)
  = String "{" <$> upToLastBrace rest.
Proof.
  induction before as [|c before IH]; [reflexivity|].
  rewrite includes_char_cons. intros [Hc Hb]%orb_false_iff.
  rewrite string_app_cons. cbn [matchJsonObject].
  rewrite Ascii.eqb_sym in Hc. rewrite Hc. now apply IH.
Qed.

Lemma matchJsonObject_inv s m :
  matchJsonObject s = Some m ->
  exists before mid after,
    s = before +:+ m +:+ after
    /\ m = "{" +:+ mid +:+ "}"
    /\ includes before "{" = false
    /\ includes after "}" = false.
Proof.
  revert m. induction s as [|c s IH]; intros m H; [discriminate|].
  cbn [matchJsonObject] in H. destruct (Ascii.eqb c "{") eqn:Hc.
  - apply Ascii.eqb_eq in Hc as ->.
    destruct (upToLastBrace s) as [r|] eqn:E; [|discriminate].
    injection H as <-.
    destruct (upToLastBrace_inv s r E) as (mid & after & -> & Hs & Ha).
    exists EmptyString, mid, after.
    split; [rewrite string_app_nil_l, string_app_cons; now f_equal|].
    auto.
  - destruct (IH m H) as (before & mid & after & -> & Hm & Hb & Ha).
    exists (String c before), mid, after. split; [reflexivity|].
    split; [exact Hm|]. split; [|exact Ha].
    now rewrite includes_char_cons, Ascii.eqb_sym, Hc.
Qed.

(** X13: the pattern applied to the answer matches from the first
    opening brace to the last closing brace: it gives [m] exactly when
    the answer is [m] between a text without opening brace and a text
    without closing brace, [m] opening and closing with a brace; and it
    gives nothing exactly when no opening brace of the answer is followed
    by a closing one. *)
Theorem brace_pattern_first_to_last_brace :
  forall response,
    (forall m,
        matchJsonObject response = Some m
        <-> exists before mid after,
              response = before +:+ m +:+ after
              /\ m = "{" +:+ mid +:+ "}"
              /\ includes before "{" = false
              /\ includes after "}" = false)
    /\ (matchJsonObject response = None
        <-> forall before mid after,
              response <> before +:+ "{" +:+ mid +:+ "}" +:+ after).
Proof.
  intros response. split.
  - intros m. split; [apply matchJsonObject_inv|].
    intros (before & mid & after & -> & -> & Hb & Ha).
    rewrite !string_app_assoc.
    change ("{" +:+ mid +:+ "}" +:+ after)
      with ("{" +:+ (mid +:+ "}" +:+ after)).
    rewrite (matchJsonObject_first before _ Hb).
    now rewrite (upToLastBrace_last mid after Ha).
  - split.
    + intros Hnone before mid after ->.
      now apply (matchJsonObject_complete before mid after).
    + intros Hno. destruct (matchJsonObject response) as [m|] eqn:E;
        [|reflexivity].
      destruct (matchJsonObject_sound response m E)
        as (before & mid & after & -> & Hs).
      destruct (Hno before mid after).
      now rewrite Hs, !string_app_assoc.
Qed.

(** X14: what the extractor makes of an answer that is read as JSON
    depends on the value alone.  An object gives each field it holds with
    a truthy value, and the sentinel for a field that is absent or falsy;
    a number, a truth value, a string or an array gives both sentinels,
    the keyword extractor not being consulted whatever the text holds;
    only [null] falls back on the keyword extractor, with a warning. *)
Theorem answer_value_decides_the_result :
  forall text tr c response parsed,
    openai_complete w (substringTo PROMPT_LIMIT text)
    = CompletionContent (Some (String c response)) ->
    parseAiResponse w (String c response) = inr parsed ->
    extractClausesWithAI w text tr
    = match parsed with
      | JUndefined | JNull =>
          (Normal (asValues (extractClausesWithKeywords text)),
           tr ++ [EvConsole AiResponseNotJson])
      | JObj fields =>
          (Normal
             (fromParsed
                (default JUndefined (assoc "indemnificationText" fields))
                (default JUndefined (assoc "terminationText" fields))),
           tr)
      | _ =>
          (Normal {| indemnificationText := JStr NO_INDEMNIFICATION;
                     terminationText := JStr NO_TERMINATION |},
           tr)
      end.
Proof.
  intros text tr c response parsed Hc Hp.
  unfold extractClausesWithAI, try_catch. rewrite Hc, Hp.
  destruct parsed; reflexivity.
Qed.

Lemma trace_grew (tr : Trace) e : tr ++ [e] <> tr.
Proof.
  intros H. apply (f_equal (@List.length Event)) in H.
  rewrite length_app in H. simpl in H. lia.
Qed.

(** X15: the completion service is shown the first 15000 characters of
    the text and nothing else: of two texts that agree on them, either
    both are answered by the service, with the same result, or both fall
    back on the keyword extractor, which reads each text whole. *)
Theorem completion_sees_the_first_15000_characters :
  forall text text' tr,
    substringTo PROMPT_LIMIT text = substringTo PROMPT_LIMIT text' ->
    (snd (extractClausesWithAI w text tr) = tr ->
     extractClausesWithAI w text' tr = extractClausesWithAI w text tr)
    /\ (snd (extractClausesWithAI w text tr) <> tr ->
        exists line,
          extractClausesWithAI w text tr
          = (Normal (asValues (extractClausesWithKeywords text)),
             tr ++ [EvConsole line])
          /\ extractClausesWithAI w text' tr
             = (Normal (asValues (extractClausesWithKeywords text')),
                tr ++ [EvConsole line])).
Proof.
  intros text text' tr Hprefix.
  assert (Fallback : forall line,
    (snd (@Normal (Clauses JsValue)
            (asValues (extractClausesWithKeywords text)),
          tr ++ [EvConsole line]) = tr ->
     (@Normal (Clauses JsValue)
        (asValues (extractClausesWithKeywords text')),
      tr ++ [EvConsole line])
     = (Normal (asValues (extractClausesWithKeywords text)),
        tr ++ [EvConsole line]))
    /\ (snd (@Normal (Clauses JsValue)
               (asValues (extractClausesWithKeywords text)),
             tr ++ [EvConsole line]) <> tr ->
        exists line',
          (@Normal (Clauses JsValue)
             (asValues (extractClausesWithKeywords text)),
           tr ++ [EvConsole line])
          = (Normal (asValues (extractClausesWithKeywords text)),
             tr ++ [EvConsole line'])
          /\ (@Normal (Clauses JsValue)
                (asValues (extractClausesWithKeywords text')),
              tr ++ [EvConsole line])
             = (Normal (asValues (extractClausesWithKeywords text')),
                tr ++ [EvConsole line']))).
  { clear Hprefix. intros line. split.
    - cbn [snd]. intros H. destruct (trace_grew tr (EvConsole line) H).
    - intros _. exists line. split; reflexivity. }
  unfold extractClausesWithAI, try_catch. rewrite <- Hprefix.
  destruct (openai_complete w (substringTo PROMPT_LIMIT text))
    as [|[[|c content]|]].
  - apply Fallback.
  - apply Fallback.
  - destruct (parseAiResponse w (String c content)) as [e|parsed];
      prog_simpl; [apply Fallback|].
    destruct (getProp parsed "indemnificationText") as [e|i];
      prog_simpl; [apply Fallback|].
    destruct (getProp parsed "terminationText") as [e|t];
      prog_simpl; [apply Fallback|].
    split; [reflexivity|]. intros H. exfalso. apply H. reflexivity.
  - apply Fallback.
Qed.

End CompletionAnswers.

(** ** Reading a record back *)

Section RecordReads.

Import ContractsRoute.

(** What the update does when it goes through. *)
Lemma prisma_update_cases st contractId data :
  (exists e, prisma_contract_update st contractId data = (inl e, st))
  \/ exists c newStatus setI setT,
       data_status data = JStr newStatus
       /\ db_available st = true
       /\ contracts st !! contractId = Some c
       /\ clauseUpdate (data_indemnificationText data) = Some setI
       /\ clauseUpdate (data_terminationText data) = Some setT
       /\ exists s,
            statusOfString newStatus = Some s
            /\ let c' :=
                 {| id := id c; fileName := fileName c;
                    uploadedAt := uploadedAt c;
                    indemnificationText := setI (indemnificationText c);
                    terminationText := setT (terminationText c);
                    status := s;
                    progress := progress c |} in
               prisma_contract_update st contractId data
               = (inr c',
                  {| contracts := <[contractId := c']> (contracts st);
                     db_available := true |}).
Proof.
  unfold prisma_contract_update.
  destruct (data_status data) as [| | | |s| |]; try (left; eauto; fail).
  destruct (statusOfString s) as [newStatus|] eqn:Hs; [|left; eauto].
  destruct (clauseUpdate (data_indemnificationText data)) as [setI|] eqn:Hi;
    [|left; eauto].
  destruct (clauseUpdate (data_terminationText data)) as [setT|] eqn:Ht;
    [|left; eauto].
  destruct (db_available st) eqn:Hdb; [|left; eauto].
  destruct (contracts st !! contractId) as [c|] eqn:Hc; [|left; eauto].
  right. exists c, s, setI, setT. repeat (split; [reflexivity|]).
  exists newStatus. split; [exact Hs | reflexivity].
Qed.

(** A clause update applied twice is the update applied once. *)
Lemma clauseUpdate_idem v set old :
  clauseUpdate v = Some set -> set (set old) = set old.
Proof.
  destruct v as [[]|]; simpl; try discriminate; now intros [= <-].
Qed.

(** The handler answers 200 exactly when the update goes through, with
    the record the update returns. *)
Lemma PUT_ok st contractId body c' :
  fst (PUT st contractId body) = Json 200 (Some c') ->
  exists data dataStatus i t,
    body = Some data
    /\ getProp data "status" = inr dataStatus
    /\ truthy dataStatus = true
    /\ getProp data "indemnificationText" = inr i
    /\ getProp data "terminationText" = inr t
    /\ prisma_contract_update st contractId
         {| data_status := dataStatus;
            data_indemnificationText := truthyField i;
            data_terminationText := truthyField t |}
       = (inr c', snd (PUT st contractId body)).
Proof.
  unfold PUT. destruct body as [data|]; [|discriminate].
  destruct (getProp data "status") as [e|dataStatus] eqn:Hs; [discriminate|].
  destruct (truthy dataStatus) eqn:Ht; [|discriminate]. cbn [negb].
  destruct (getProp data "indemnificationText") as [e|i] eqn:Hi;
    [discriminate|].
  destruct (getProp data "terminationText") as [e|t] eqn:Htt; [discriminate|].
  destruct (prisma_contract_update st contractId _) as [[[]|c] st'] eqn:Hu;
    try discriminate.
  cbn [fst snd]. intros [= <-]. now exists data, dataStatus, i, t.
Qed.

Lemma PUT_not_ok st contractId body :
  httpStatus (fst (PUT st contractId body)) <> 200%Z ->
  snd (PUT st contractId body) = st.
Proof.
  destruct (PUT_cases st contractId body)
    as [H|(data & dataStatus & i & t & r & -> & Hs & Ht & Hi & Htt & Hu)];
    [auto|].
  revert Hu. unfold PUT. rewrite Hs, Ht, Hi, Htt. cbn [negb].
  destruct (prisma_update_cases st contractId
              {| data_status := dataStatus;
                 data_indemnificationText := truthyField i;
                 data_terminationText := truthyField t |})
    as [(e & ->)|(c & ns & setI & setT & _ & _ & _ & _ & _ & s & _ & ->)].
  - now destruct e.
  - cbn [fst snd httpStatus]. congruence.
Qed.

Lemma PUT_frame st contractId body :
  db_available (snd (PUT st contractId body)) = db_available st
  /\ forall other, other <> contractId ->
       contracts (snd (PUT st contractId body)) !! other
       = contracts st !! other.
Proof.
  destruct (PUT_cases st contractId body)
    as [->|(data & dataStatus & i & t & r & _ & _ & _ & _ & _ & Hu)];
    [auto|].
  destruct (prisma_update_frame _ _ _ _ _ Hu) as (Hdb & Hother & _). auto.
Qed.

(** X16: a record update answered with 200 is read back by [GET] on the
    same id: the answer is 200 with the very record the update returned;
    an update answered otherwise leaves the store as it was; and no
    update changes what [GET] answers for another id. *)
Theorem get_reads_back_the_update :
  forall st contractId body,
    let response := fst (PUT st contractId body) in
    let st' := snd (PUT st contractId body) in
    (forall c, response = Json 200 (Some c) -> GET st' contractId = response)
    /\ (httpStatus response <> 200%Z -> st' = st)
    /\ (forall other, other <> contractId -> GET st' other = GET st other).
Proof.
  intros st contractId body response st'. split; [|split].
  - intros c Hr. unfold response in Hr.
    destruct (PUT_ok st contractId body c Hr)
      as (data & ds & i & t & _ & _ & _ & _ & _ & Hu).
    fold st' in Hu. fold response in Hr. rewrite Hr.
    destruct (prisma_update_cases st contractId
                {| data_status := ds;
                   data_indemnificationText := truthyField i;
                   data_terminationText := truthyField t |})
      as [(e & He)|(c0 & ns & setI & setT & _ & _ & _ & _ & _ & s & _ & He)];
      cbv zeta in He; rewrite He in Hu; [discriminate|].
    injection Hu as <- <-.
    unfold GET, prisma_contract_findUnique. cbn [db_available contracts].
    now rewrite lookup_insert_eq.
  - apply PUT_not_ok.
  - intros other Hne.
    destruct (PUT_frame st contractId body) as (Hdb & Hother).
    fold st' in Hdb, Hother.
    unfold GET, prisma_contract_findUnique.
    now rewrite Hdb, (Hother other Hne).
Qed.

Lemma PUT_ok_body st contractId body :
  httpStatus (fst (PUT st contractId body)) = 200%Z ->
  exists c', fst (PUT st contractId body) = Json 200 (Some c').
Proof.
  unfold PUT. destruct body as [data|]; [|discriminate].
  destruct (getProp data "status") as [e|dataStatus]; [discriminate|].
  destruct (negb (truthy dataStatus)); [discriminate|].
  destruct (getProp data "indemnificationText") as [e|i]; [discriminate|].
  destruct (getProp data "terminationText") as [e|t]; [discriminate|].
  destruct (prisma_contract_update st contractId _) as [[[]|c] st'];
    try discriminate.
  intros _. now exists c.
Qed.

(** X17: the record update is idempotent: the same request made again
    on the store it left gets the same answer and leaves the same
    store. *)
Theorem put_is_idempotent :
  forall st contractId body,
    PUT (snd (PUT st contractId body)) contractId body
    = PUT st contractId body.
Proof.
  intros st contractId body.
  destruct (decide (httpStatus (fst (PUT st contractId body)) = 200%Z))
    as [Hok|Hno].
  - destruct (PUT_ok_body st contractId body Hok) as (c' & Hr).
    destruct (PUT_ok st contractId body c' Hr)
      as (data & ds & i & t & -> & Hs & Ht & Hi & Htt & Hu).
    destruct (PUT st contractId (Some data)) as [r st'] eqn:E.
    cbn [fst snd] in *. subst r.
    destruct (prisma_update_cases st contractId
                {| data_status := ds;
                   data_indemnificationText := truthyField i;
                   data_terminationText := truthyField t |})
      as [(e & He)|(c & ns & setI & setT & Hds & Hdb & Hc & HsetI & HsetT
                    & s & Hstatus & He)];
      cbv zeta in He; rewrite He in Hu; [discriminate|].
    injection Hu as <- <-.
    unfold PUT. rewrite Hs, Ht, Hi, Htt. cbn [negb].
    unfold prisma_contract_update.
    cbn [data_status data_indemnificationText data_terminationText
         db_available contracts] in *.
    rewrite Hds, Hstatus, HsetI, HsetT, lookup_insert_eq.
    cbn [id fileName uploadedAt indemnificationText terminationText
         status progress].
    rewrite (clauseUpdate_idem _ setI _ HsetI),
      (clauseUpdate_idem _ setT _ HsetT), insert_insert_eq.
    reflexivity.
  - rewrite (PUT_not_ok st contractId body Hno).
    reflexivity.
Qed.

(** X18: the two handlers of a record agree on whether it is there: an
    update answered 200 is on a record that [GET] finds, an update
    answered 404 on one that [GET] does not find either; when [GET]
    cannot reach the store, no update goes through; and an update is
    answered 200, 400, 404 or 500. *)
Theorem put_and_get_agree_on_the_record :
  forall st contractId body,
    let code := httpStatus (fst (PUT st contractId body)) in
    (code = 200%Z -> exists c, GET st contractId = Json 200 (Some c))
    /\ (code = 404%Z -> GET st contractId = Json 404 None)
    /\ (httpStatus (GET st contractId) = 500%Z ->
        code = 400%Z \/ code = 500%Z)
    /\ (code = 200 \/ code = 400 \/ code = 404 \/ code = 500)%Z.
Proof.
  intros st contractId body. cbv zeta.
  unfold PUT, GET, prisma_contract_findUnique, prisma_contract_update.
  assert (Leaf : forall (code : Z) (r : Response),
    (code = 200 -> exists c, r = Json 200 (Some c))%Z ->
    (code = 404 -> r = Json 404 None)%Z ->
    (httpStatus r = 500 -> code = 400 \/ code = 500)%Z ->
    (code = 200 \/ code = 400 \/ code = 404 \/ code = 500)%Z ->
    (code = 200 -> exists c, r = Json 200 (Some c))%Z
    /\ (code = 404 -> r = Json 404 None)%Z
    /\ (httpStatus r = 500 -> code = 400 \/ code = 500)%Z
    /\ (code = 200 \/ code = 400 \/ code = 404 \/ code = 500)%Z) by auto.
  destruct body as [data|];
    [|apply Leaf; cbn; try discriminate; auto].
  destruct (getProp data "status") as [e|dataStatus];
    [apply Leaf; cbn; try discriminate; auto|].
  destruct (negb (truthy dataStatus));
    [apply Leaf; cbn; try discriminate; auto|].
  destruct (getProp data "indemnificationText") as [e|i];
    [apply Leaf; cbn; try discriminate; auto|].
  destruct (getProp data "terminationText") as [e|t];
    [apply Leaf; cbn; try discriminate; auto|].
  cbn [data_status data_indemnificationText data_terminationText].
  destruct dataStatus as [| | | |s| |];
    try (apply Leaf; cbn; try discriminate; auto; fail).
  destruct (statusOfString s) as [newStatus|];
    [|apply Leaf; cbn; try discriminate; auto].
  destruct (clauseUpdate (truthyField i)) as [setI|];
    [|apply Leaf; cbn; try discriminate; auto].
  destruct (clauseUpdate (truthyField t)) as [setT|];
    [|apply Leaf; cbn; try discriminate; auto].
  destruct (db_available st);
    [|apply Leaf; cbn; try discriminate; auto].
  destruct (contracts st !! contractId) as [record|];
    apply Leaf; cbn; try discriminate; eauto.
Qed.

End RecordReads.

(** ** The updates of a run, as the route takes them *)

Section UpdatesAtTheRoute.

Import ContractsRoute.

Lemma PUT_status_only st contractId c (statusText : string) s :
  db_available st = true ->
  contracts st !! contractId = Some c ->
  statusOfString statusText = Some s ->
  let c' :=
    {| id := id c; fileName := fileName c; uploadedAt := uploadedAt c;
       indemnificationText := indemnificationText c;
       terminationText := terminationText c;
       status := s; progress := progress c |} in
  PUT st contractId (Some (payloadJson (statusOnly statusText)))
  = (Json 200 (Some c'),
     {| contracts := <[contractId := c']> (contracts st);
        db_available := true |}).
Proof.
  intros Hdb Hc Hs. cbv zeta. unfold PUT, payloadJson, statusOnly.
  cbn [payload_status payload_indemnificationText payload_terminationText
       app getProp assoc String.eqb Ascii.eqb Bool.eqb andb default
       from_option Datatypes.id].
  assert (Ht : truthy (JStr statusText) = true).
  { destruct statusText; [discriminate Hs | reflexivity]. }
  rewrite Ht. cbn [negb truthyField truthy]. unfold prisma_contract_update.
  cbn [data_status data_indemnificationText data_terminationText
       clauseUpdate].
  now rewrite Hs, Hdb, Hc.
Qed.

Lemma PUT_with_clauses st contractId c (statusText : string) s i t :
  db_available st = true ->
  contracts st !! contractId = Some c ->
  statusOfString statusText = Some s ->
  i <> EmptyString -> t <> EmptyString ->
  PUT st contractId
    (Some (payloadJson (withClauses statusText (JStr i) (JStr t))))
  = (Json 200 (Some (recordWithClauses s i t c)),
     {| contracts := <[contractId := recordWithClauses s i t c]> (contracts st);
        db_available := true |}).
Proof.
  intros Hdb Hc Hs Hi Ht. unfold PUT, payloadJson, withClauses.
  cbn [payload_status payload_indemnificationText payload_terminationText
       app getProp assoc String.eqb Ascii.eqb Bool.eqb andb default
       from_option Datatypes.id].
  assert (Hst : truthy (JStr statusText) = true).
  { destruct statusText; [discriminate Hs | reflexivity]. }
  rewrite Hst. cbn [negb]. unfold truthyField.
  rewrite (truthy_nonempty i Hi), (truthy_nonempty t Ht).
  unfold prisma_contract_update.
  cbn [data_status data_indemnificationText data_terminationText
       clauseUpdate].
  now rewrite Hs, Hdb, Hc.
Qed.

(** X19: every update that a run of the processing script issues names a
    status of the enumeration of the schema; and every update it issues
    without clauses ([processing], [extracting], [failed]) is taken by
    the route, on a reachable store that holds the record, with the
    answer 200: the status of the record is set and nothing else of it
    changes. *)
Theorem updates_of_a_run_are_accepted :
  forall w argv p,
    In p (payloads (snd (ProcessDocument.main w argv []))) ->
    exists s,
      statusOfString (payload_status p) = Some s
      /\ (carriesNoClause p ->
          forall st contractId c,
            db_available st = true ->
            contracts st !! contractId = Some c ->
            let c' :=
              {| id := id c; fileName := fileName c;
                 uploadedAt := uploadedAt c;
                 indemnificationText := indemnificationText c;
                 terminationText := terminationText c;
                 status := s; progress := progress c |} in
            PUT st contractId (Some (payloadJson p))
            = (Json 200 (Some c'),
               {| contracts := <[contractId := c']> (contracts st);
                  db_available := true |})).
Proof.
  intros w argv p Hin.
  assert (Plain : forall statusText s,
    statusOfString statusText = Some s ->
    exists s',
      statusOfString (payload_status (statusOnly statusText)) = Some s'
      /\ (carriesNoClause (statusOnly statusText) ->
          forall st contractId c,
            db_available st = true ->
            contracts st !! contractId = Some c ->
            let c' :=
              {| id := id c; fileName := fileName c;
                 uploadedAt := uploadedAt c;
                 indemnificationText := indemnificationText c;
                 terminationText := terminationText c;
                 status := s'; progress := progress c |} in
            PUT st contractId (Some (payloadJson (statusOnly statusText)))
            = (Json 200 (Some c'),
               {| contracts := <[contractId := c']> (contracts st);
                  db_available := true |}))).
  { intros statusText s Hs. exists s. split; [exact Hs|].
    intros _ st contractId c Hdb Hc. now apply PUT_status_only. }
  destruct (main_writes w argv)
    as [H|[(id0 & gcsUri & _ & _ & _ & H)|[(i & t & H)|H]]];
    cbv zeta in H; rewrite H in Hin; simpl in Hin.
  - destruct Hin.
  - destruct Hin as [<-|[<-|[]]]; now eapply Plain.
  - destruct Hin as [<-|[<-|[<-|[]]]]; try (now eapply Plain).
    exists completed. split; [reflexivity|]. intros [Hi _]. discriminate.
  - destruct Hin as [<-|[<-|[<-|[<-|[]]]]]; now eapply Plain.
Qed.

(** X20: an update that carries a status of the enumeration and two
    clauses that are non-empty strings is stored as sent, on a reachable
    store that holds the record: the answer is 200 with the record whose
    status and clauses are those of the request, the rest of it being as
    before. *)
Theorem update_with_clauses_is_stored_as_sent :
  forall st contractId c statusText s i t,
    db_available st = true ->
    contracts st !! contractId = Some c ->
    statusOfString statusText = Some s ->
    i <> EmptyString -> t <> EmptyString ->
    let c' :=
      {| id := id c; fileName := fileName c; uploadedAt := uploadedAt c;
         indemnificationText := Some i;
         terminationText := Some t;
         status := s; progress := progress c |} in
    PUT st contractId
      (Some (payloadJson (withClauses statusText (JStr i) (JStr t))))
    = (Json 200 (Some c'),
       {| contracts := <[contractId := c']> (contracts st);
          db_available := true |})
    /\ GET (snd (PUT st contractId
                   (Some (payloadJson
                            (withClauses statusText (JStr i) (JStr t))))))
         contractId
       = Json 200 (Some c').
Proof.
  intros st contractId c statusText s i t Hdb Hc Hs Hi Ht. cbv zeta.
  rewrite (PUT_with_clauses st contractId c statusText s i t Hdb Hc Hs Hi Ht).
  split; [reflexivity|].
  unfold GET, prisma_contract_findUnique. cbn [snd db_available contracts].
  now rewrite lookup_insert_eq.
Qed.

End UpdatesAtTheRoute.

(** ** The upload route and the AI service *)

Section Uploads.

Import ContractsRoute UploadRoute.

Lemma prisma_create_cases env st newFileName newStatus :
  (exists e, prisma_contract_create env st newFileName newStatus = (inl e, st)
             /\ (db_available st = false
                 \/ contracts st !! next_uuid env <> None))
  \/ (db_available st = true
      /\ contracts st !! next_uuid env = None
      /\ let c :=
           {| id := next_uuid env; fileName := newFileName;
              uploadedAt := next_now env;
              indemnificationText := None; terminationText := None;
              status := newStatus; progress := 0 |} in
         prisma_contract_create env st newFileName newStatus
         = (inr c,
            {| contracts := <[next_uuid env := c]> (contracts st);
               db_available := true |})).
Proof.
  unfold prisma_contract_create. destruct (db_available st) eqn:Hdb.
  - destruct (contracts st !! next_uuid env) as [c|] eqn:Hc.
    + left. exists UniqueConstraintFailed. split; [reflexivity|]. now right.
    + right. auto.
  - left. exists StoreUnreachable. auto.
Qed.

(** X21: the upload route answers 200 exactly when it has saved the
    file, created the record and sent one request to the AI service, in
    that order: the record is new, [pending], without clauses, under the
    raw file name; the object is saved under [input/], the time and the
    file name; the request names the id of the record and the storage
    URI of the object.  Any other answer is 400 or 500 and leaves the
    record store and the requests as they were, 400 leaving everything
    as it was; a 500 may leave the object saved when it is the record
    store that failed. *)
Theorem upload_answers_200_when_recorded :
  forall env formData st,
    match POST env formData st with
    | (Uploaded contractId fileUrl, st') =>
        exists file,
          formData = Some (Some (FormFile file))
          /\ contractId = next_uuid env
          /\ fileUrl = publicUrl env file
          /\ contracts (store st) !! contractId = None
          /\ contracts (store st')
             = <[contractId := pendingContract env file]>
                 (contracts (store st))
          /\ objects st' = objects st ++ [(filePath env file, file)]
          /\ requests st'
             = requests st ++ [processRequest contractId (gsUri env file)]
    | (Failure code, st') =>
        (code = 400 \/ code = 500)%Z
        /\ store st' = store st
        /\ requests st' = requests st
        /\ (code = 400%Z -> st' = st)
        /\ (objects st' = objects st
            \/ exists file,
                 formData = Some (Some (FormFile file))
                 /\ objects st' = objects st ++ [(filePath env file, file)]
                 /\ (db_available (store st) = false
                     \/ contracts (store st) !! next_uuid env <> None))
    end.
Proof.
  intros env [[[value|file]|]|] st; unfold POST.
  - destruct (isEmpty value); cbn;
      repeat (split; [auto; discriminate|]); auto; discriminate.
  - destruct (gcs_save_ok env (filePath env file)).
    + cbn [store].
      destruct (prisma_create_cases env (store st) (file_name file) pending)
        as [(e & -> & Hwhy)|(Hdb & Hfree & ->)].
      * cbn. split; [now right|]. split; [reflexivity|].
        split; [reflexivity|]. split; [discriminate|].
        right. now exists file.
      * cbn [id]. exists file. split; [reflexivity|]. split; [reflexivity|].
        split; [reflexivity|]. split; [exact Hfree|].
        destruct (fetch_ai_service env _) as [[]|]; cbn; auto.
    + cbn. split; [now right|]. split; [reflexivity|].
      split; [reflexivity|]. split; [discriminate|]. now left.
  - cbn. split; [now left|]. auto.
  - cbn. split; [now right|]. split; [reflexivity|].
    split; [reflexivity|]. split; [discriminate|]. now left.
Qed.

(** X22: what the AI service answers, or whether it can be reached at
    all, changes nothing of an upload but the error console: the answer
    of the route, the record store, the saved objects and the requests
    sent are the same. *)
Theorem upload_does_not_depend_on_the_ai_service :
  forall env answer formData st,
    let r := POST env formData st in
    let r' := POST (withAiService answer env) formData st in
    fst r' = fst r
    /\ store (snd r') = store (snd r)
    /\ objects (snd r') = objects (snd r)
    /\ requests (snd r') = requests (snd r).
Proof.
  intros env answer [[[value|file]|]|] st; cbv zeta; unfold POST;
    try (destruct (isEmpty value)); auto.
  change (filePath (withAiService answer env) file) with (filePath env file).
  change (gcs_save_ok (withAiService answer env)) with (gcs_save_ok env).
  destruct (gcs_save_ok env (filePath env file)); [|auto].
  change (prisma_contract_create (withAiService answer env))
    with (prisma_contract_create env).
  destruct (prisma_contract_create env _ _ _) as [[e|c] store']; [auto|].
  change (gsUri (withAiService answer env) file) with (gsUri env file).
  change (publicUrl (withAiService answer env) file)
    with (publicUrl env file).
  cbn [fetch_ai_service withAiService].
  destruct (answer _) as [[]|], (fetch_ai_service env _) as [[]|];
    cbn; auto.
Qed.

(** X23: the request that a successful upload sends passes the
    validation of the AI service whenever the id of the record is not
    empty: the service answers 200 and then starts the processing script
    with that id and, between quotes, the storage URI of the saved
    object, which is [gs://], the bucket, [/input/], the upload time, a
    dash and the raw file name. *)
Theorem upload_request_starts_the_processing :
  forall env file st scriptPath,
    responseStatus (fst (POST env (Some (Some (FormFile file))) st)) = 200%Z ->
    next_uuid env <> EmptyString ->
    last (requests (snd (POST env (Some (Some (FormFile file))) st)))
    = Some (processRequest (next_uuid env) (gsUri env file))
    /\ Server.processDocument scriptPath
         (processRequest (next_uuid env) (gsUri env file))
       = [Server.Respond 200;
          Server.Exec
            (Server.command scriptPath (next_uuid env)
               ("gs://" +:+ bucketName env +:+ "/input/"
                +:+ decimal (Date_now env) +:+ "-" +:+ file_name file))].
Proof.
  intros env file st scriptPath Hok Hid. split.
  - revert Hok. unfold POST.
    destruct (gcs_save_ok env (filePath env file)); [|discriminate].
    cbn [store].
    destruct (prisma_create_cases env (store st) (file_name file) pending)
      as [(e & -> & _)|(_ & _ & ->)]; [discriminate|].
    intros _. cbn [id].
    destruct (fetch_ai_service env _) as [[]|]; cbn [snd logError requests];
      now rewrite last_app.
  - unfold Server.processDocument, processRequest.
    cbn [getProp assoc String.eqb Ascii.eqb Bool.eqb andb default
         from_option Datatypes.id].
    rewrite (truthy_nonempty _ Hid).
    assert (Huri : truthy (JStr (gsUri env file)) = true) by reflexivity.
    rewrite Huri. cbn [negb orb ToString].
    unfold gsUri, filePath, storedFileName. reflexivity.
Qed.

(** X26: a record that an upload has created is read back by [GET]
    on the id the upload returned: the answer is 200 with the new record,
    [pending], without clauses, under the raw file name; and what [GET]
    answers for any other id is what it answered before the upload. *)
Theorem uploaded_record_is_read_back :
  forall env formData st contractId fileUrl,
    fst (POST env formData st) = Uploaded contractId fileUrl ->
    exists file,
      formData = Some (Some (FormFile file))
      /\ GET (store (snd (POST env formData st))) contractId
         = Json 200 (Some (pendingContract env file))
      /\ forall other, other <> contractId ->
           GET (store (snd (POST env formData st))) other
           = GET (store st) other.
Proof.
  intros env [[[value|file]|]|] st contractId fileUrl; unfold POST;
    try discriminate; [destruct (isEmpty value); discriminate|].
  destruct (gcs_save_ok env (filePath env file)); [|discriminate].
  cbn [store].
  destruct (prisma_create_cases env (store st) (file_name file) pending)
    as [(e & -> & _)|(Hdb & Hfree & ->)]; [discriminate|].
  cbn [fst id]. intros [= <- _]. exists file. split; [reflexivity|].
  assert (Hstore : forall st3,
    store st3
    = {| contracts :=
           <[next_uuid env := pendingContract env file]> (contracts (store st));
         db_available := true |} ->
    GET (store st3) (next_uuid env)
    = Json 200 (Some (pendingContract env file))
    /\ forall other, other <> next_uuid env ->
         GET (store st3) other = GET (store st) other).
  { intros st3 ->. unfold GET, prisma_contract_findUnique.
    cbn [db_available contracts]. rewrite Hdb, lookup_insert_eq.
    split; [reflexivity|]. intros other Hne.
    now rewrite lookup_insert_ne by congruence. }
  apply Hstore. cbn [snd].
  destruct (fetch_ai_service env _) as [[]|]; reflexivity.
Qed.

End Uploads.

(** ** The structural walk over a page structure with parts missing *)

Section SparseWalk.

Import ExtractKnowledge SparseLayout.

Variable w : World.

Lemma sparse_symbol symbol acc :
  walkSymbol (symbolJson symbol) acc = (Normal tt, acc +:+ symbolText symbol).
Proof.
  unfold walkSymbol, symbolJson, part, appendValue.
  destruct symbol as [[|c t]|]; prog_simpl; rewrite append_run;
    now rewrite ?string_app_nil_r.
Qed.

Lemma sparse_symbols symbols : forall acc,
  for_of (symbolJson <$> symbols) walkSymbol acc
  = (Normal tt, acc +:+ OcrLayout.cat (symbolText <$> symbols)).
Proof.
  induction symbols as [|x l IH]; intros acc.
  - simpl. prog_simpl. now rewrite string_app_nil_r.
  - rewrite !fmap_cons, for_of_cons, sparse_symbol, IH.
    simpl OcrLayout.cat. now rewrite string_app_assoc.
Qed.

Lemma sparse_word word acc :
  walkWord (wordJson word) acc = (Normal tt, acc +:+ wordText word).
Proof.
  unfold walkWord, wordJson, part. destruct word as [symbols|]; prog_simpl.
  - rewrite sparse_symbols, append_run. unfold wordText.
    now rewrite string_app_assoc.
  - now rewrite string_app_nil_r.
Qed.

Lemma sparse_words words : forall acc,
  for_of (wordJson <$> words) walkWord acc
  = (Normal tt, acc +:+ OcrLayout.cat (wordText <$> words)).
Proof.
  induction words as [|x l IH]; intros acc.
  - simpl. prog_simpl. now rewrite string_app_nil_r.
  - rewrite !fmap_cons, for_of_cons, sparse_word, IH.
    simpl OcrLayout.cat. now rewrite string_app_assoc.
Qed.

Lemma sparse_paragraph paragraph acc :
  walkParagraph (paragraphJson paragraph) acc
  = (Normal tt, acc +:+ paragraphText paragraph).
Proof.
  unfold walkParagraph, paragraphJson, part.
  destruct paragraph as [words|]; prog_simpl.
  - rewrite sparse_words, append_run. unfold paragraphText.
    now rewrite string_app_assoc.
  - now rewrite append_run.
Qed.

Lemma sparse_paragraphs paragraphs : forall acc,
  for_of (paragraphJson <$> paragraphs) walkParagraph acc
  = (Normal tt, acc +:+ OcrLayout.cat (paragraphText <$> paragraphs)).
Proof.
  induction paragraphs as [|x l IH]; intros acc.
  - simpl. prog_simpl. now rewrite string_app_nil_r.
  - rewrite !fmap_cons, for_of_cons, sparse_paragraph, IH.
    simpl OcrLayout.cat. now rewrite string_app_assoc.
Qed.

Lemma sparse_block block acc :
  walkBlock (blockJson block) acc = (Normal tt, acc +:+ blockText block).
Proof.
  unfold walkBlock, blockJson, part. destruct block as [paragraphs|];
    prog_simpl.
  - apply sparse_paragraphs.
  - now rewrite string_app_nil_r.
Qed.

Lemma sparse_blocks blocks : forall acc,
  for_of (blockJson <$> blocks) walkBlock acc
  = (Normal tt, acc +:+ OcrLayout.cat (blockText <$> blocks)).
Proof.
  induction blocks as [|x l IH]; intros acc.
  - simpl. prog_simpl. now rewrite string_app_nil_r.
  - rewrite !fmap_cons, for_of_cons, sparse_block, IH.
    simpl OcrLayout.cat. now rewrite string_app_assoc.
Qed.

Lemma sparse_page page acc :
  walkPage (pageJson page) acc = (Normal tt, acc +:+ pageText page).
Proof.
  unfold walkPage, pageJson, part. destruct page as [blocks|]; prog_simpl.
  - rewrite sparse_blocks, append_run. unfold pageText.
    now rewrite string_app_assoc.
  - now rewrite string_app_nil_r.
Qed.

Lemma sparse_pages pages : forall acc,
  for_of (pageJson <$> pages) walkPage acc
  = (Normal tt, acc +:+ documentText pages).
Proof.
  unfold documentText. induction pages as [|x l IH]; intros acc.
  - simpl. prog_simpl. now rewrite string_app_nil_r.
  - rewrite !fmap_cons, for_of_cons, sparse_page, IH.
    simpl OcrLayout.cat. now rewrite string_app_assoc.
Qed.

(** X24: the structural walk tolerates missing parts.  When the direct
    method has found no text and the first response holds pages, a page
    without blocks gives nothing, not even the blank line; a block
    without paragraphs nothing; a paragraph without words its newline
    alone; a word without symbols nothing, not even the space; a symbol
    without text nothing; and the result is the text of the parts that
    are there, trimmed, with no error logged. *)
Theorem structural_walk_tolerates_missing_parts :
  forall shard first rest fullTextAnnotation pages tr,
    getProp shard "responses" = inr (JArr (first :: rest)) ->
    directPath shard EmptyString = (Normal tt, EmptyString) ->
    getProp first "fullTextAnnotation" = inr fullTextAnnotation ->
    truthy fullTextAnnotation = true ->
    getProp fullTextAnnotation "pages" = inr (JArr (pageJson <$> pages)) ->
    extractTextFromOcrJson w shard tr
    = (Normal (trim (documentText pages)), tr).
Proof.
  intros shard first rest fta pages tr Hs Hd Hf Hfta Hpages.
  unfold extractTextFromOcrJson, extractTextFromOcrJson_try.
  rewrite (bind_normal _ _ _ _ _ Hd).
  unfold structuralWalk. rewrite Hs. prog_simpl.
  assert (Hfirst : truthy first = true).
  { destruct first; try reflexivity; simpl in Hf; try discriminate;
      injection Hf as <-; discriminate. }
  rewrite Hfirst, Hf. prog_simpl. rewrite Hfta, Hpages. prog_simpl.
  rewrite pagesLoop_array by (simpl; lia).
  unfold skipn. rewrite sparse_pages. reflexivity.
Qed.

End SparseWalk.

(** ** The record store behind a run *)

Section StoreBehindARun.

Import ExtractKnowledge ContractsRoute.

Variable w : World.

Lemma addressedTo_app contractId tr tr' :
  addressedTo contractId tr -> addressedTo contractId tr' ->
  addressedTo contractId (tr ++ tr').
Proof. apply Forall_app_2. Qed.

Lemma addressedTo_no_put contractId logs :
  payloads logs = [] -> addressedTo contractId logs.
Proof.
  unfold addressedTo. induction logs as [|[] logs IH]; simpl; intros H;
    try discriminate; constructor; auto.
Qed.

Lemma sends_ret {A} contractId (a : A) : sends contractId (mret a).
Proof. now intros tr H. Qed.

Lemma sends_throw {A} contractId e : sends contractId (@throw Trace A e).
Proof. now intros tr H. Qed.

Lemma sends_exit {A} contractId code :
  sends contractId (@process_exit Trace A code).
Proof. now intros tr H. Qed.

Lemma sends_lift {A} contractId (r : Exn + A) : sends contractId (lift r).
Proof. destruct r; [apply sends_throw | apply sends_ret]. Qed.

Lemma sends_console contractId line : sends contractId (console_error line).
Proof.
  intros tr H. apply addressedTo_app; [exact H|]. now repeat constructor.
Qed.

Lemma sends_write contractId step data :
  sends contractId (emit (EvWriteFile step data)).
Proof.
  intros tr H. apply addressedTo_app; [exact H|]. now repeat constructor.
Qed.

Lemma sends_bind {A B} contractId (c : Prog Trace A) (k : A -> Prog Trace B) :
  sends contractId c -> (forall a, sends contractId (k a)) ->
  sends contractId (c ≫= k).
Proof.
  intros Hc Hk tr H. specialize (Hc tr H).
  unfold mbind, prog_mbind, prog_bind.
  destruct (c tr) as [[a|e|code] tr1]; simpl in Hc; [|exact Hc..].
  now apply Hk.
Qed.

Lemma sends_try_catch {A} contractId (b : Prog Trace A) h :
  sends contractId b -> (forall e, sends contractId (h e)) ->
  sends contractId (try_catch b h).
Proof.
  intros Hb Hh tr H. specialize (Hb tr H). unfold try_catch.
  destruct (b tr) as [[a|e|code] tr1]; simpl in Hb; [exact Hb| |exact Hb].
  now apply Hh.
Qed.

Lemma sends_update contractId status clauses :
  sends contractId (updateContractStatus w contractId status clauses).
Proof.
  intros tr H. rewrite updateContractStatus_run. cbv zeta. cbn [snd].
  apply addressedTo_app; [exact H|].
  destruct (axios_put_ok w _); now repeat constructor.
Qed.

Lemma sends_pd_update contractId status :
  sends contractId (ProcessDocument.updateContractStatus w contractId status).
Proof.
  intros tr H. rewrite pd_updateContractStatus_run. cbv zeta. cbn [snd].
  apply addressedTo_app; [exact H|].
  destruct (axios_put_ok w _); now repeat constructor.
Qed.

Lemma sends_combineShards contractId files combined :
  sends contractId (combineShards w files combined).
Proof.
  intros tr H.
  destruct (combineShards_run w files combined tr) as (o & logs & -> & Hl & _).
  apply addressedTo_app; [exact H | now apply addressedTo_no_put].
Qed.

Lemma sends_extractClausesWithAI contractId text :
  sends contractId (extractClausesWithAI w text).
Proof.
  intros tr H.
  destruct (extractClausesWithAI_clauses w text tr)
    as (clauses & logs & -> & _ & Hl & _).
  apply addressedTo_app; [exact H|]. apply addressedTo_no_put.
  now apply console_only_projections.
Qed.

Lemma sends_fs_step contractId step : sends contractId (fs_step w step).
Proof.
  unfold fs_step. destruct (fs_ok w step); [apply sends_ret|apply sends_throw].
Qed.

Lemma sends_fs_write contractId step data :
  sends contractId (fs_writeFileSync w step data).
Proof.
  unfold fs_writeFileSync.
  apply sends_bind; [apply sends_fs_step | intros; apply sends_write].
Qed.

Lemma sends_extractKnowledge gsUri id :
  sends id (extractKnowledge w gsUri id).
Proof.
  unfold extractKnowledge, onExtractionError.
  apply sends_try_catch.
  - apply sends_bind; [apply sends_update|]. intros _.
    apply sends_bind; [apply sends_lift|]. intros [bucket sourcePath].
    apply sends_bind;
      [destruct (storage_getFiles w bucket sourcePath);
       [apply sends_ret | apply sends_throw]|].
    intros files.
    apply sends_bind; [apply sends_combineShards|]. intros combinedText.
    apply sends_bind; [apply sends_fs_step|]. intros _.
    apply sends_bind; [apply sends_fs_write|]. intros _.
    apply sends_bind; [apply sends_extractClausesWithAI|]. intros clauses.
    apply sends_bind; [apply sends_fs_write|]. intros _.
    apply sends_bind; [apply sends_fs_write|]. intros _.
    apply sends_update.
  - intros e. apply sends_bind; [apply sends_console|]. intros _.
    apply sends_bind; [apply sends_update|]. intros _. apply sends_exit.
Qed.

Lemma sends_runExtractKnowledge id gcsUri :
  sends id (ProcessDocument.runExtractKnowledge w id gcsUri).
Proof.
  intros tr H. unfold ProcessDocument.runExtractKnowledge.
  assert (Hs : addressedTo id (snd (script w [id; gcsUri] tr))).
  { unfold script.
    apply (sends_try_catch id (extractKnowledge w gcsUri id)
             (fun _ => process_exit 1));
      [apply sends_extractKnowledge | intros; apply sends_exit | exact H]. }
  destruct (script w [id; gcsUri] tr) as [[[]|e|code] tr1]; cbn [snd] in Hs.
  - exact Hs.
  - apply (sends_bind id (console_error (ExtractionExitCode 1))
             (fun _ => @throw Trace unit (Error "Knowledge extraction failed")));
      [apply sends_console | intros; apply sends_throw | exact Hs].
  - destruct (code =? 0)%Z; [exact Hs|].
    apply (sends_bind id (console_error (ExtractionExitCode code))
             (fun _ => @throw Trace unit (Error "Knowledge extraction failed")));
      [apply sends_console | intros; apply sends_throw | exact Hs].
Qed.

(** Every update of a run is addressed to the record named by the first
    argument. *)
Lemma sends_main argv id :
  argv !! 2 = Some id -> sends id (ProcessDocument.main w argv).
Proof.
  intros H2. unfold ProcessDocument.main. rewrite H2.
  destruct (argv !! 3) as [gcsUri|];
    [|apply sends_bind; [apply sends_console | intros; apply sends_exit]].
  destruct (isEmpty id || isEmpty gcsUri);
    [apply sends_bind; [apply sends_console | intros; apply sends_exit]|].
  apply sends_try_catch.
  - apply sends_bind; [apply sends_pd_update|]. intros _.
    apply sends_bind.
    + unfold ProcessDocument.extractTextFromPDF.
      destruct (vision_ocr w _ _); [apply sends_ret | apply sends_throw].
    + intros _. apply sends_runExtractKnowledge.
  - intros e. unfold ProcessDocument.onProcessingError.
    apply sends_bind; [apply sends_console|]. intros _.
    apply sends_pd_update.
Qed.

(** Replaying a trace whose updates go to one record is applying its
    payloads to that record. *)
Lemma replay_addressed contractId tr : forall st,
  addressedTo contractId tr ->
  replay st tr
  = fold_left
      (fun st p => snd (PUT st contractId (Some (payloadJson p))))
      (payloads tr) st.
Proof.
  unfold replay. induction tr as [|e tr IH]; intros st H; [reflexivity|].
  inversion H as [|? ? He Htr]; subst.
  destruct e as [i p ok|line|step data]; simpl.
  - subst i. now apply IH.
  - now apply IH.
  - now apply IH.
Qed.

(** A store in which [contractId] names the record [c], the other
    records being those of [st]. *)
Lemma PUT_status_step st0 st contractId c (statusText : string) s :
  db_available st = true ->
  contracts st !! contractId = Some c ->
  (forall other, other <> contractId ->
     contracts st !! other = contracts st0 !! other) ->
  statusOfString statusText = Some s ->
  let st' := snd (PUT st contractId (Some (payloadJson (statusOnly statusText))))
  in
  db_available st' = true
  /\ contracts st' !! contractId = Some (recordWithStatus s c)
  /\ (forall other, other <> contractId ->
        contracts st' !! other = contracts st0 !! other).
Proof.
  intros Hdb Hc Hother Hs. cbv zeta.
  rewrite (PUT_status_only st contractId c statusText s Hdb Hc Hs).
  cbn [snd db_available contracts]. split; [reflexivity|]. split.
  - now rewrite lookup_insert_eq.
  - intros other Hne. rewrite lookup_insert_ne by congruence. auto.
Qed.

(** X25: the record store behind a run.  When every update that a run of
    the processing script issues reaches the route, on a reachable store
    that holds the record named by the first argument: a run whose last
    update is [failed] leaves that record with the status [failed] and
    everything else of it as before the run, the clauses included; a run
    whose last update is [completed] with two non-empty clause strings
    leaves it with the status [completed] and those two clauses; and no
    run touches another record. *)
Theorem store_follows_the_run :
  forall argv id st c,
    argv !! 2 = Some id ->
    db_available st = true ->
    contracts st !! id = Some c ->
    let tr := snd (ProcessDocument.main w argv []) in
    (finalStatus tr = Some "failed" ->
     contracts (replay st tr) !! id = Some (recordWithStatus failed c))
    /\ (forall i t,
          last (payloads tr)
          = Some (withClauses "completed" (JStr i) (JStr t)) ->
          i <> EmptyString -> t <> EmptyString ->
          contracts (replay st tr) !! id
          = Some (recordWithClauses completed i t c))
    /\ (forall other, other <> id ->
          contracts (replay st tr) !! other = contracts st !! other).
Proof.
  intros argv id st c H2 Hdb Hc tr.
  assert (Haddr : addressedTo id tr).
  { apply (sends_main argv id H2 []). constructor. }
  rewrite (replay_addressed id tr st Haddr). unfold finalStatus.
  assert (Step : forall st1 c1 statusText s,
    db_available st1 = true ->
    contracts st1 !! id = Some c1 ->
    (forall other, other <> id ->
       contracts st1 !! other = contracts st !! other) ->
    statusOfString statusText = Some s ->
    db_available
      (snd (PUT st1 id (Some (payloadJson (statusOnly statusText))))) = true
    /\ contracts
         (snd (PUT st1 id (Some (payloadJson (statusOnly statusText)))))
         !! id = Some (recordWithStatus s c1)
    /\ (forall other, other <> id ->
          contracts
            (snd (PUT st1 id (Some (payloadJson (statusOnly statusText)))))
            !! other = contracts st !! other)).
  { intros st1 c1 statusText s. apply (PUT_status_step st st1 id c1). }
  destruct (main_writes w argv)
    as [H|[(id0 & gcsUri & _ & _ & _ & H)|[(i0 & t0 & H)|H]]];
    cbv zeta in H; fold tr in H; rewrite H; cbn [fold_left last fmap option_fmap option_map].
  - split; [discriminate|]. split; [discriminate|]. auto.
  - destruct (Step st c "processing" processing Hdb Hc ltac:(auto) eq_refl)
      as (Hdb1 & Hc1 & Ho1).
    destruct (Step _ _ "failed" failed Hdb1 Hc1 Ho1 eq_refl)
      as (Hdb2 & Hc2 & Ho2).
    split; [intros _; exact Hc2|]. split; [discriminate | exact Ho2].
  - destruct (Step st c "processing" processing Hdb Hc ltac:(auto) eq_refl)
      as (Hdb1 & Hc1 & Ho1).
    destruct (Step _ _ "extracting" extracting Hdb1 Hc1 Ho1 eq_refl)
      as (Hdb2 & Hc2 & Ho2).
    split; [discriminate|]. split.
    + intros i t [= -> ->] Hi Ht.
      rewrite (PUT_with_clauses _ id _ "completed" completed i t
                 Hdb2 Hc2 eq_refl Hi Ht).
      cbn [snd contracts]. now rewrite lookup_insert_eq.
    + intros other Hne.
      destruct (PUT_frame
                  (snd (PUT (snd (PUT st id
                                    (Some (payloadJson
                                             (statusOnly "processing")))))
                          id (Some (payloadJson (statusOnly "extracting")))))
                  id (Some (payloadJson (withClauses "completed" i0 t0))))
        as (_ & Hframe).
      rewrite (Hframe other Hne). now apply Ho2.
  - destruct (Step st c "processing" processing Hdb Hc ltac:(auto) eq_refl)
      as (Hdb1 & Hc1 & Ho1).
    destruct (Step _ _ "extracting" extracting Hdb1 Hc1 Ho1 eq_refl)
      as (Hdb2 & Hc2 & Ho2).
    destruct (Step _ _ "failed" failed Hdb2 Hc2 Ho2 eq_refl)
      as (Hdb3 & Hc3 & Ho3).
    destruct (Step _ _ "failed" failed Hdb3 Hc3 Ho3 eq_refl)
      as (Hdb4 & Hc4 & Ho4).
    split; [intros _; exact Hc4|]. split; [discriminate | exact Ho4].
Qed.

End StoreBehindARun.

(** ** The further properties at concrete documents *)

Lemma parseGsUri_reads_bucket_and_path_witness :
  ExtractKnowledge.parseGsUri "gs://fb_dioptra_process/output/contract-42/"
  = inr ("fb_dioptra_process", "output/contract-42/")
  /\ ExtractKnowledge.parseGsUri "gs://fb_dioptra_process"
     = inr ("fb_dioptra_process", EmptyString).
Proof.
  exact (parseGsUri_reads_bucket_and_path "fb_dioptra_process"
           "output/contract-42/" eq_refl).
Defined.

Lemma direct_path_passes_over_responses_without_text_witness :
  ExtractKnowledge.extractTextFromOcrJson (refWorld [] CompletionFails)
    mixedShard []
  = (Normal
       (trim (join LFLF
                (present [Some "Page one"; None; None; Some "Page four"]))),
     []).
Proof.
  apply (direct_path_passes_over_responses_without_text
           (refWorld [] CompletionFails) mixedShard
           [JObj [("fullTextAnnotation", JObj [("text", JStr "Page one")])];
            JObj [];
            JObj [("fullTextAnnotation", JObj [("text", JStr EmptyString)])];
            JObj [("fullTextAnnotation", JObj [("text", JStr "Page four")])]]
           [Some "Page one"; None; None; Some "Page four"] [] eq_refl).
  - constructor; [|constructor; [|constructor; [|constructor; [|constructor]]]].
    + split; [|discriminate].
      now exists (JObj [("text", JStr "Page one")]).
    + exists JUndefined. split; [reflexivity|]. now left.
    + exists (JObj [("text", JStr EmptyString)]). split; [reflexivity|].
      right. now exists (JStr EmptyString).
    + split; [|discriminate].
      now exists (JObj [("text", JStr "Page four")]).
  - discriminate.
Defined.

Lemma shard_without_responses_adds_nothing_witness :
  let w := refWorld [emptyObjectFile] CompletionFails in
  ExtractKnowledge.combineShards w [emptyObjectFile] EmptyString []
  = ExtractKnowledge.combineShards w [] EmptyString
      ([] ++ [EvConsole (NoTextInShard (name emptyObjectFile))]).
Proof.
  cbv zeta.
  apply (proj1 (shard_without_responses_adds_nothing
                  (refWorld [emptyObjectFile] CompletionFails)
                  emptyObjectFile [] "{}" (JObj []) EmptyString []
                  eq_refl eq_refl eq_refl) JUndefined);
    reflexivity.
Defined.

Lemma combined_text_is_the_shard_texts_in_order_witness :
  let files := [helloShardFile; notesFile; brokenShardFile; tornShardFile] in
  let w := refWorld files CompletionFails in
  buffer (omap (shardText w) files)
  = "Hello World" +:+ LFLF +:+ "Page one" +:+ LFLF
  /\ exists logs,
       ExtractKnowledge.combineShards w files EmptyString []
       = (Normal (buffer (omap (shardText w) files)), [] ++ logs)
       /\ forallb isConsole logs = true.
Proof.
  cbv zeta. split; [vm_compute; reflexivity|].
  apply (combined_text_is_the_shard_texts_in_order
           (refWorld [helloShardFile; notesFile; brokenShardFile;
                      tornShardFile] CompletionFails)
           [helloShardFile; notesFile; brokenShardFile; tornShardFile] []).
  constructor; [discriminate|]. constructor.
  { intros H. vm_compute in H. discriminate H. }
  repeat constructor; discriminate.
Defined.

Lemma early_failure_writes_no_local_file_witness :
  exists tr',
    ExtractKnowledge.extractKnowledge listingDownWorld
      "gs://fb_dioptra_process/output/contract-42/" "contract-42" []
    = (Exit 1, tr')
    /\ adds [] tr' [statusOnly "extracting"; statusOnly "failed"] [].
Proof.
  apply (early_failure_writes_no_local_file listingDownWorld
           "gs://fb_dioptra_process/output/contract-42/" "contract-42" []).
  right. exists "fb_dioptra_process", "output/contract-42/".
  split; [reflexivity|]. left. reflexivity.
Defined.


Lemma keyword_fields_sentinel_or_paragraphs_witness :
  indemnificationText (ExtractKnowledge.extractClausesWithKeywords plainText)
  = NO_INDEMNIFICATION
  /\ terminationText (ExtractKnowledge.extractClausesWithKeywords plainText)
     = NO_TERMINATION
  /\ includes
       (indemnificationText
          (ExtractKnowledge.extractClausesWithKeywords
             (sampleContract +:+ LFLF +:+ "  " +:+ bothClausesParagraph
              +:+ " ")))
       bothClausesParagraph = true.
Proof.
  split; [|split].
  - apply (proj1 (keyword_fields_sentinel_or_paragraphs plainText)).
    intros p Hin. vm_compute in Hin.
    destruct Hin as [<-|[<-|[]]]; vm_compute; reflexivity.
  - apply (proj1 (proj2 (keyword_fields_sentinel_or_paragraphs plainText))).
    intros p Hin. vm_compute in Hin.
    destruct Hin as [<-|[<-|[]]]; vm_compute; reflexivity.
  - apply (proj2 (proj2 (proj2
             (keyword_fields_sentinel_or_paragraphs
                (sampleContract +:+ LFLF +:+ "  " +:+ bothClausesParagraph
                 +:+ " "))))
             ("  " +:+ bothClausesParagraph +:+ " ")).
    + vm_compute. auto.
    + vm_compute. reflexivity.
Defined.

Lemma brace_pattern_first_to_last_brace_witness :
  ExtractKnowledge.matchJsonObject wrappedAnswer = Some clauseAnswer.
Proof.
  apply (proj2 (proj1 (brace_pattern_first_to_last_brace wrappedAnswer)
                  clauseAnswer)).
  exists "Here is the result: ".
  exists (jsonText
            "'indemnificationText': 'Vendor shall indemnify Client.', 'terminationText': 'Either party may terminate for convenience.'").
  exists " Let me know if you need more.".
  split; [reflexivity|]. split; [reflexivity|]. split; reflexivity.
Defined.

Lemma answer_value_decides_the_result_witness :
  ExtractKnowledge.extractClausesWithAI
    (refWorld [] (CompletionContent (Some arrayAnswer))) sampleContract []
  = (Normal {| indemnificationText := JStr NO_INDEMNIFICATION;
               terminationText := JStr NO_TERMINATION |},
     []).
Proof.
  exact (answer_value_decides_the_result
           (refWorld [] (CompletionContent (Some arrayAnswer)))
           sampleContract [] "[" "]" (JArr []) eq_refl eq_refl).
Defined.

Lemma completion_sees_the_first_15000_characters_witness :
  let w := refWorld [] (CompletionContent (Some clauseAnswer)) in
  ExtractKnowledge.extractClausesWithAI w (longText plainText) []
  = ExtractKnowledge.extractClausesWithAI w (longText sampleContract) [].
Proof.
  cbv zeta.
  apply (proj1 (completion_sees_the_first_15000_characters
                  (refWorld [] (CompletionContent (Some clauseAnswer)))
                  (longText sampleContract) (longText plainText) []
                  ltac:(vm_compute; reflexivity))).
  vm_compute. reflexivity.
Defined.

Lemma get_reads_back_the_update_witness :
  ContractsRoute.GET
    (snd (ContractsRoute.PUT sampleStore "contract-42" (Some sampleRequest)))
    "contract-42"
  = fst (ContractsRoute.PUT sampleStore "contract-42" (Some sampleRequest)).
Proof.
  apply (proj1 (get_reads_back_the_update sampleStore "contract-42"
                  (Some sampleRequest)) completedContract).
  unfold ContractsRoute.PUT, sampleRequest.
  cbn [getProp assoc String.eqb Ascii.eqb Bool.eqb andb default from_option
       Datatypes.id truthy isEmpty negb truthyField].
  unfold ContractsRoute.prisma_contract_update.
  cbn [ContractsRoute.data_status ContractsRoute.data_indemnificationText
       ContractsRoute.data_terminationText ContractsRoute.clauseUpdate
       ContractsRoute.statusOfString String.eqb Ascii.eqb Bool.eqb andb
       ContractsRoute.db_available ContractsRoute.contracts sampleStore].
  unfold sampleStore. cbn [ContractsRoute.db_available ContractsRoute.contracts].
  rewrite lookup_singleton_eq. reflexivity.
Defined.

Lemma updates_of_a_run_are_accepted_witness :
  exists s,
    ContractsRoute.statusOfString (payload_status (statusOnly "failed"))
    = Some s
    /\ (carriesNoClause (statusOnly "failed") ->
        forall st contractId c,
          ContractsRoute.db_available st = true ->
          ContractsRoute.contracts st !! contractId = Some c ->
          let c' :=
            {| ContractsRoute.id := ContractsRoute.id c;
               ContractsRoute.fileName := ContractsRoute.fileName c;
               ContractsRoute.uploadedAt := ContractsRoute.uploadedAt c;
               ContractsRoute.indemnificationText :=
                 ContractsRoute.indemnificationText c;
               ContractsRoute.terminationText :=
                 ContractsRoute.terminationText c;
               ContractsRoute.status := s;
               ContractsRoute.progress := ContractsRoute.progress c |} in
          ContractsRoute.PUT st contractId
            (Some (ContractsRoute.payloadJson (statusOnly "failed")))
          = (ContractsRoute.Json 200 (Some c'),
             {| ContractsRoute.contracts :=
                  <[contractId := c']> (ContractsRoute.contracts st);
                ContractsRoute.db_available := true |})).
Proof.
  apply (updates_of_a_run_are_accepted ocrDownWorld sampleArgv
           (statusOnly "failed")).
  vm_compute. right. left. reflexivity.
Defined.

Lemma update_with_clauses_is_stored_as_sent_witness :
  ContractsRoute.GET
    (snd (ContractsRoute.PUT sampleStore "contract-42"
            (Some (ContractsRoute.payloadJson
                     (withClauses "completed"
                        (JStr "Vendor shall indemnify Client.")
                        (JStr "Either party may terminate."))))))
    "contract-42"
  = ContractsRoute.Json 200
      (Some {| ContractsRoute.id := "contract-42";
               ContractsRoute.fileName := "msa.pdf";
               ContractsRoute.uploadedAt := 1711296000000;
               ContractsRoute.indemnificationText :=
                 Some "Vendor shall indemnify Client.";
               ContractsRoute.terminationText :=
                 Some "Either party may terminate.";
               ContractsRoute.status := ContractsRoute.completed;
               ContractsRoute.progress := 0 |}).
Proof.
  apply (proj2 (update_with_clauses_is_stored_as_sent sampleStore
                  "contract-42" storedContract "completed"
                  ContractsRoute.completed
                  "Vendor shall indemnify Client."
                  "Either party may terminate."
                  eq_refl (lookup_singleton_eq _ _) eq_refl
                  ltac:(discriminate) ltac:(discriminate))).
Defined.

Lemma upload_answers_200_when_recorded_witness :
  snd (UploadRoute.POST sampleEnv (Some (Some (UploadRoute.FormText EmptyString)))
         sampleState)
  = sampleState.
Proof.
  pose proof (upload_answers_200_when_recorded sampleEnv
                (Some (Some (UploadRoute.FormText EmptyString))) sampleState)
    as H.
  cbn in H. destruct H as (_ & _ & _ & H & _). exact (H eq_refl).
Defined.

Lemma upload_request_starts_the_processing_witness :
  let st :=
    {| UploadRoute.objects := [];
       UploadRoute.store :=
         {| ContractsRoute.contracts := ∅;
            ContractsRoute.db_available := true |};
       UploadRoute.requests := [];
       UploadRoute.console := [] |} in
  last (UploadRoute.requests
          (snd (UploadRoute.POST sampleEnv
                  (Some (Some (UploadRoute.FormFile sampleFile))) st)))
  = Some (UploadRoute.processRequest "contract-43"
            "gs://fb_dioptra_process/input/1711296000000-msa.pdf")
  /\ Server.processDocument "/app/src/scripts/process_document.ts"
       (UploadRoute.processRequest "contract-43"
          "gs://fb_dioptra_process/input/1711296000000-msa.pdf")
     = [Server.Respond 200;
        Server.Exec
          (Server.command "/app/src/scripts/process_document.ts"
             "contract-43"
             "gs://fb_dioptra_process/input/1711296000000-msa.pdf")].
Proof.
  cbv zeta.
  apply (upload_request_starts_the_processing sampleEnv sampleFile
           {| UploadRoute.objects := [];
              UploadRoute.store :=
                {| ContractsRoute.contracts := ∅;
                   ContractsRoute.db_available := true |};
              UploadRoute.requests := [];
              UploadRoute.console := [] |}
           "/app/src/scripts/process_document.ts").
  - unfold UploadRoute.POST, UploadRoute.prisma_contract_create.
    cbn [UploadRoute.gcs_save_ok sampleEnv UploadRoute.store
         ContractsRoute.db_available ContractsRoute.contracts].
    rewrite lookup_empty. reflexivity.
  - discriminate.
Defined.

Lemma structural_walk_tolerates_missing_parts_witness :
  SparseLayout.documentText sparsePages = LF +:+ "OK " +:+ LF +:+ LFLF
  /\ ExtractKnowledge.extractTextFromOcrJson (refWorld [] CompletionFails)
       sparseShard []
     = (Normal (trim (SparseLayout.documentText sparsePages)), []).
Proof.
  split; [reflexivity|].
  apply (structural_walk_tolerates_missing_parts
           (refWorld [] CompletionFails) sparseShard
           (JObj [("fullTextAnnotation",
                   JObj [("pages",
                          JArr (SparseLayout.pageJson <$> sparsePages))])])
           []
           (JObj [("pages", JArr (SparseLayout.pageJson <$> sparsePages))])
           sparsePages []);
    reflexivity.
Defined.

Lemma put_and_get_agree_on_the_record_witness :
  ContractsRoute.GET sampleStore "contract-7" = ContractsRoute.Json 404 None.
Proof.
  apply (proj1 (proj2 (put_and_get_agree_on_the_record sampleStore
                         "contract-7" (Some sampleRequest)))).
  unfold ContractsRoute.PUT, sampleRequest.
  cbn [getProp assoc String.eqb Ascii.eqb Bool.eqb andb default from_option
       Datatypes.id truthy isEmpty negb truthyField].
  unfold ContractsRoute.prisma_contract_update.
  cbn [ContractsRoute.data_status ContractsRoute.data_indemnificationText
       ContractsRoute.data_terminationText ContractsRoute.clauseUpdate
       ContractsRoute.statusOfString String.eqb Ascii.eqb Bool.eqb andb].
  unfold sampleStore. cbn [ContractsRoute.db_available ContractsRoute.contracts].
  rewrite lookup_singleton_ne by discriminate. reflexivity.
Defined.

Lemma store_follows_the_run_witness :
  ContractsRoute.contracts
    (replay sampleStore
       (snd (ProcessDocument.main listingDownWorld sampleArgv [])))
    !! "contract-42"
  = Some (recordWithStatus ContractsRoute.failed storedContract).
Proof.
  apply (proj1 (store_follows_the_run listingDownWorld sampleArgv
                  "contract-42" sampleStore storedContract
                  eq_refl eq_refl (lookup_singleton_eq _ _))).
  vm_compute. reflexivity.
Defined.

Lemma uploaded_record_is_read_back_witness :
  let st :=
    {| UploadRoute.objects := [];
       UploadRoute.store :=
         {| ContractsRoute.contracts := ∅;
            ContractsRoute.db_available := true |};
       UploadRoute.requests := [];
       UploadRoute.console := [] |} in
  exists file,
    Some (Some (UploadRoute.FormFile sampleFile))
    = Some (Some (UploadRoute.FormFile file))
    /\ ContractsRoute.GET
         (UploadRoute.store
            (snd (UploadRoute.POST sampleEnv
                    (Some (Some (UploadRoute.FormFile sampleFile))) st)))
         "contract-43"
       = ContractsRoute.Json 200 (Some (pendingContract sampleEnv file))
    /\ forall other, other <> "contract-43" ->
         ContractsRoute.GET
           (UploadRoute.store
              (snd (UploadRoute.POST sampleEnv
                      (Some (Some (UploadRoute.FormFile sampleFile))) st)))
           other
         = ContractsRoute.GET (UploadRoute.store st) other.
Proof.
  cbv zeta.
  apply (uploaded_record_is_read_back sampleEnv
           (Some (Some (UploadRoute.FormFile sampleFile)))
           {| UploadRoute.objects := [];
              UploadRoute.store :=
                {| ContractsRoute.contracts := ∅;
                   ContractsRoute.db_available := true |};
              UploadRoute.requests := [];
              UploadRoute.console := [] |}
           "contract-43"
           "https://storage.googleapis.com/fb_dioptra_process/input/1711296000000-msa.pdf").
  unfold UploadRoute.POST, UploadRoute.prisma_contract_create.
  cbn [UploadRoute.gcs_save_ok sampleEnv UploadRoute.store
       ContractsRoute.db_available ContractsRoute.contracts].
  rewrite lookup_empty. reflexivity.
Defined.
